(** * Humine: tactical chess learner (src/humine.py)

    A shallow embedding of [ChessLearner]: the statistics store, the scoring
    function, the retry predicate, the tactical analyser, the game simulator
    and the move search loop, together with the properties the design
    document states about them.

    Conventions of the embedding.
    - Python [int] is [Z]; counters that start at [0] and are only ever
      incremented ([wins], [draws], [losses], [total_captures]) are [nat].
    - Python [float] arithmetic in [get_move_score] is read over the exact
      rationals [Q]; [float('inf')] is the constructor [PInf]. Rounding and
      overflow are not modelled. The properties stated of the code's scores
      are those rounding cannot change (weak orderings, maximality by the
      function's own value, comparisons of values that binary64 keeps
      apart); the auxiliary lemmas that bound a score strictly speak of the
      exact reading.
    - python-chess (boards, moves, legality, check detection) and Stockfish
      are collaborators outside the repository: they enter through the
      class [RulesEngine] and the [engine] argument.
    - [random] is a tape of naturals consumed from the left.
    - [self.memory] is a [gmap] from position keys to buckets; a bucket is a
      Python dict iterated in insertion order, hence an association list.
    - Exceptions are values of the result type [Py]. *)

From Stdlib Require Import ZArith QArith Lia Lqa Bool List Ascii String Sorted Permutation.
From stdpp Require Import gmap strings list.

Local Open Scope Z_scope.

(** ** Python results *)

Inductive PyExn : Type :=
| ZeroDivisionError
| UnboundLocalError
| KeyError
| IndexError
| ValueError.

Inductive Py (A : Type) : Type :=
| Ok (a : A)
| Raise (e : PyExn)
| NoFuel.

Arguments Ok {A} a.
Arguments Raise {A} e.
Arguments NoFuel {A}.

#[export] Instance Py_ret : MRet Py := fun _ a => Ok a.
#[export] Instance Py_bind : MBind Py := fun _ _ f c =>
  match c with
  | Ok a => f a
  | Raise e => Raise e
  | NoFuel => NoFuel
  end.

(** A local variable of a Python function: reading it before any assignment
    raises [UnboundLocalError]. *)
Inductive Local (A : Type) : Type :=
| Unbound
| Bound (a : A).

Arguments Unbound {A}.
Arguments Bound {A} a.

Definition read_local {A : Type} (v : Local A) : Py A :=
  match v with
  | Unbound => Raise UnboundLocalError
  | Bound a => Ok a
  end.

(** [a / b] on floats. *)
Definition py_div (a b : Q) : Py Q :=
  if Qeq_bool b 0 then Raise ZeroDivisionError else Ok (a / b)%Q.

(** [a < b] on rationals, as a boolean. *)
Definition Qltb (a b : Q) : bool := negb (Qle_bool b a).

(** An [int] or [float('inf')]. *)
Inductive PyNum : Type :=
| PInf
| PInt (n : Z).

(** [min(a, n)] for [a] an int or infinity and [n] an int. *)
Definition py_min (a : PyNum) (n : Z) : PyNum :=
  match a with
  | PInf => PInt n
  | PInt k => PInt (Z.min k n)
  end.

(** ** [list.sort(key=..., reverse=True)]

    Python's sort is stable, also with [reverse=True]: elements with equal
    keys keep their original order. For a total preorder the stable sorted
    arrangement of a list is unique, so insertion from the right computes
    what Timsort computes. *)
Section StableSort.
Context {A K : Type} (key : A → K) (ltb : K → K → bool).

Fixpoint insert_desc (x : A) (l : list A) : list A :=
  match l with
  | [] => [x]
  | y :: l' =>
      if ltb (key x) (key y) then y :: insert_desc x l' else x :: y :: l'
  end.

Definition sort_desc (l : list A) : list A := foldr insert_desc [] l.
End StableSort.

(** ** The random source *)

Definition Rng : Type := list nat.

Definition rng_next (g : Rng) : nat * Rng :=
  match g with
  | [] => (0%nat, [])
  | x :: g' => (x, g')
  end.

(** [random.random() < 0.3] *)
Definition random_lt_03 (g : Rng) : bool * Rng :=
  let '(x, g') := rng_next g in (Nat.ltb (x mod 10) 3, g').

(** [random.choice(x0 :: l)] on a list known to be non-empty. *)
Definition random_choice {A : Type} (g : Rng) (x0 : A) (l : list A) : A * Rng :=
  let '(x, g') := rng_next g in
  (nth (x mod (S (length l))) (x0 :: l) x0, g').

(** ** Pieces and squares *)

Inductive PieceType : Type := PAWN | KNIGHT | BISHOP | ROOK | QUEEN | KING.

#[export] Instance PieceType_eq_dec : EqDecision PieceType.
Proof. solve_decision. Defined.

Definition PIECE_VALUES (t : PieceType) : Z :=
  match t with
  | PAWN => 100
  | KNIGHT => 320
  | BISHOP => 330
  | ROOK => 500
  | QUEEN => 900
  | KING => 0
  end.

(** [chess.WHITE] is [True], [chess.BLACK] is [False]. *)
Definition Color : Type := bool.
Definition WHITE : Color := true.
Definition BLACK : Color := false.

Record Piece : Type := { piece_type : PieceType; color : Color }.

#[export] Instance Piece_eq_dec : EqDecision Piece.
Proof. solve_decision. Defined.

Definition Square : Type := nat.

(** [chess.SQUARES] *)
Definition SQUARES : list Square := seq 0 64.

Definition FILE_NAMES : list string := ["a"; "b"; "c"; "d"; "e"; "f"; "g"; "h"].
Definition RANK_NAMES : list string := ["1"; "2"; "3"; "4"; "5"; "6"; "7"; "8"].

(** [chess.square_name] *)
Definition square_name (sq : Square) : string :=
  (nth (sq mod 8) FILE_NAMES "" ++ nth (sq / 8) RANK_NAMES "")%string.

(** ** The rules engine (python-chess), as the learner uses it *)

Class RulesEngine (Board Move : Type) : Type := {
  legal_moves : Board → list Move;          (* list(board.legal_moves) *)
  push : Board → Move → Board;              (* board.copy() then push(move) *)
  turn : Board → Color;
  is_check : Board → bool;                  (* side to move is in check *)
  is_checkmate : Board → bool;
  is_stalemate : Board → bool;
  is_insufficient_material : Board → bool;
  is_fifty_moves : Board → bool;
  is_repetition : Board → bool;
  is_game_over : Board → bool;
  is_capture : Board → Move → bool;
  piece_at : Board → Square → option Piece;
  king : Board → Color → option Square;
  attacks : Board → Square → list Square;
  is_attacked_by : Board → Color → Square → bool;
  pieces : Board → PieceType → Color → list Square;
  san : Board → Move → string;
  fen : Board → string;
  from_square : Move → Square;
  to_square : Move → Square;
  uci : Move → string;
  from_uci : string → option Move           (* None: ValueError *)
}.

(** ** Records of the statistics store *)

Record CaptureEntry : Type := { cap_move : string; cap_value : Z }.

Record TacticalInfo : Type := {
  captures_by_us : list CaptureEntry;
  captures_by_opponent : list CaptureEntry;
  material_balance_change : Z;
  checks_given : nat;
  checks_received : nat
}.

Record ResultEntry : Type := {
  res_result : string;
  res_move_count : Z;
  res_timestamp : string;
  res_tactical_info : option TacticalInfo
}.

Record MoveRecord : Type := {
  rec_san : string;
  results : list ResultEntry;
  wins : nat;
  draws : nat;
  losses : nat;
  min_moves_to_win : PyNum;
  min_moves_to_draw : PyNum;
  total_captures : nat;
  total_material_gained : Z
}.

(** A bucket: move id (uci) to record, in insertion order. *)
Definition Bucket : Type := list (string * MoveRecord).

(** [self.memory] *)
Abbreviation Memory := (gmap string Bucket).

Fixpoint bucket_lookup (k : string) (b : Bucket) : option MoveRecord :=
  match b with
  | [] => None
  | (k', r) :: b' => if String.eqb k k' then Some r else bucket_lookup k b'
  end.

(** [bucket[k] = r]: in place when the key exists, appended otherwise. *)
Fixpoint bucket_set (k : string) (r : MoveRecord) (b : Bucket) : Bucket :=
  match b with
  | [] => [(k, r)]
  | (k', r') :: b' =>
      if String.eqb k k' then (k', r) :: b' else (k', r') :: bucket_set k r b'
  end.

(** The record a first recording creates (humine.py:494-504). *)
Definition fresh_record (move_san : string) : MoveRecord :=
  {| rec_san := move_san;
     results := [];
     wins := 0;
     draws := 0;
     losses := 0;
     min_moves_to_win := PInf;
     min_moves_to_draw := PInf;
     total_captures := 0;
     total_material_gained := 0 |}.

(** The body of [record_move_result] on the record it found or created. *)
Definition update_record (r : MoveRecord) (result : string) (move_count : Z)
    (tactical_info : option TacticalInfo) (timestamp : string) : MoveRecord :=
  let result_entry :=
    {| res_result := result;
       res_move_count := move_count;
       res_timestamp := timestamp;
       res_tactical_info := tactical_info |} in
  let caps :=
    match tactical_info with
    | Some ti => (total_captures r + length (captures_by_us ti))%nat
    | None => total_captures r
    end in
  let mat :=
    match tactical_info with
    | Some ti => total_material_gained r + material_balance_change ti
    | None => total_material_gained r
    end in
  let rs := results r ++ [result_entry] in
  if String.eqb result "WIN" then
    {| rec_san := rec_san r; results := rs;
       wins := S (wins r); draws := draws r; losses := losses r;
       min_moves_to_win := py_min (min_moves_to_win r) move_count;
       min_moves_to_draw := min_moves_to_draw r;
       total_captures := caps; total_material_gained := mat |}
  else if String.eqb result "DRAW" then
    {| rec_san := rec_san r; results := rs;
       wins := wins r; draws := S (draws r); losses := losses r;
       min_moves_to_win := min_moves_to_win r;
       min_moves_to_draw := py_min (min_moves_to_draw r) move_count;
       total_captures := caps; total_material_gained := mat |}
  else
    {| rec_san := rec_san r; results := rs;
       wins := wins r; draws := draws r; losses := S (losses r);
       min_moves_to_win := min_moves_to_win r;
       min_moves_to_draw := min_moves_to_draw r;
       total_captures := caps; total_material_gained := mat |}.

(** [record_move_result] (humine.py:486-532). The position key is computed by
    the caller from the current board; [_save_memory] only writes the file
    and swallows its own errors. *)
Definition record_move_result (memory : Memory) (position_key move_uci move_san : string)
    (result : string) (move_count : Z) (tactical_info : option TacticalInfo)
    (timestamp : string) : Memory :=
  let bucket := default [] (memory !! position_key) in
  let move_data := default (fresh_record move_san) (bucket_lookup move_uci bucket) in
  let move_data' := update_record move_data result move_count tactical_info timestamp in
  <[position_key := bucket_set move_uci move_data' bucket]> memory.

(** ** Scoring (humine.py:534-565) *)

Definition capture_bonus (r : MoveRecord) : Q :=
  inject_Z (Z.of_nat (total_captures r) * 10).

Definition material_bonus (r : MoveRecord) : Q :=
  (inject_Z (total_material_gained r) / 10)%Q.

Definition speed_bonus (m : PyNum) : Py Q :=
  match m with
  | PInf => Ok 0%Q
  | PInt n => py_div 1000 (inject_Z n)
  end.

Definition get_move_score (move_data : MoveRecord) : Py Q :=
  let w := wins move_data in
  let d := draws move_data in
  let l := losses move_data in
  let total := (w + d + l)%nat in
  let nq (n : nat) : Q := inject_Z (Z.of_nat n) in
  if Nat.eqb total 0 then Ok 0%Q
  else
    base_score ←
      (if Nat.ltb 0 w then
         sb ← speed_bonus (min_moves_to_win move_data);
         rate ← py_div (nq w) (nq total);
         Ok (10000 + sb + rate * 500)%Q
       else if Nat.ltb 0 d then
         sb ← speed_bonus (min_moves_to_draw move_data);
         rate ← py_div (nq d) (nq total);
         Ok (5000 + sb + rate * 500)%Q
       else
         loss_rate ← py_div (nq l) (nq total);
         py_div 100 (1 + loss_rate * 10)%Q);
    Ok (base_score + capture_bonus move_data + material_bonus move_data)%Q.

(** ** Retry eligibility (humine.py:598-611) *)

Definition should_retry_move (move_data : MoveRecord) : bool :=
  let w := wins move_data in
  let d := draws move_data in
  let l := losses move_data in
  let total := (w + d + l)%nat in
  if Nat.ltb 0 w || Nat.ltb 0 d then true
  else if Nat.ltb total 3 then true
  else false.

(** ** Best move from memory (humine.py:567-583) *)

Definition BestMove : Type := string * string * MoveRecord.

Fixpoint best_move_loop (items : Bucket) (best_move : option BestMove)
    (best_score : Q) : Py (option BestMove) :=
  match items with
  | [] => Ok best_move
  | (move_uci, move_data) :: items' =>
      score ← get_move_score move_data;
      if Qltb best_score score
      then best_move_loop items' (Some (move_uci, rec_san move_data, move_data)) score
      else best_move_loop items' best_move best_score
  end.

Definition get_best_move_from_memory (memory : Memory) (position_key : string)
    : Py (option BestMove) :=
  match memory !! position_key with
  | None => Ok None
  | Some [] => Ok None
  | Some bucket => best_move_loop bucket None (-1)%Q
  end.

(** ** Position keys (humine.py:94-100)

    [' '.join(s.split(' ')[:4])] is the prefix of [s] that ends before its
    fourth space. *)
Fixpoint fen_fields (n : nat) (s : string) : string :=
  match s with
  | EmptyString => EmptyString
  | String c s' =>
      if Ascii.eqb c " "%char then
        match n with
        | O => EmptyString
        | S n' => String c (fen_fields n' s')
        end
      else String c (fen_fields n s')
  end.

(** ** Tactical records *)

Record Threat : Type := {
  threat_piece : PieceType;
  threat_square : string;
  threat_target : string
}.

Inductive AttackResult : Type := r_checkmate | r_check | r_capture.

#[export] Instance AttackResult_eq_dec : EqDecision AttackResult.
Proof. solve_decision. Defined.

Record AttackSeq (Move : Type) : Type := {
  moves : list Move;
  result : AttackResult;
  depth : nat;
  material_gain : Z
}.

Arguments moves {Move} _.
Arguments result {Move} _.
Arguments depth {Move} _.
Arguments material_gain {Move} _.

Record DefenseSeq (Move : Type) : Type := {
  d_move : Move;
  removes_check : bool;
  threats_reduced : Z;
  material_cost : Z;
  king_safer : bool
}.

Arguments d_move {Move} _.
Arguments removes_check {Move} _.
Arguments threats_reduced {Move} _.
Arguments material_cost {Move} _.
Arguments king_safer {Move} _.

Inductive Strategy : Type :=
| s_attack | s_defend | s_counter_attack | s_checkmate | s_capture | s_positional.

Record Analysis (Move : Type) : Type := {
  king_in_check : bool;
  immediate_threats : list Threat;
  material_balance : Z;
  attack_sequences : list (AttackSeq Move);
  defense_sequences : list (DefenseSeq Move);
  recommended_strategy : Strategy
}.

Arguments king_in_check {Move} _.
Arguments immediate_threats {Move} _.
Arguments material_balance {Move} _.
Arguments attack_sequences {Move} _.
Arguments defense_sequences {Move} _.
Arguments recommended_strategy {Move} _.

(** [sequence_priority] (humine.py:254-260) *)
Definition sequence_priority {Move : Type} (s : AttackSeq Move) : Z :=
  match result s with
  | r_checkmate => 10000
  | r_check => 5000 + material_gain s
  | r_capture => material_gain s
  end.

(** [defense_priority] (humine.py:310-316) *)
Definition defense_priority {Move : Type} (d : DefenseSeq Move) : Z :=
  let score := 0 in
  let score := if removes_check d then score + 10000 else score in
  let score := score + threats_reduced d * 1000 in
  let score := score - material_cost d in
  score.

(** ** The learner over a rules engine *)

Section Learner.
Context {Board Move : Type} `{RulesEngine Board Move} `{EqDecision Move}.

(** [self.play_as_white] *)
Variable play_as_white : bool.

Definition our_color : Color := if play_as_white then WHITE else BLACK.

Definition _get_position_key (board : Board) : string :=
  let position_fen := fen_fields 3 (fen board) in
  let color := if play_as_white then "white" else "black" in
  (position_fen ++ "|playing_as_" ++ color)%string.

(** *** Material (humine.py:126-170) *)

Definition get_material_count (board : Board) (c : Color) : Z :=
  foldl (fun total t => total + Z.of_nat (length (pieces board t c)) * PIECE_VALUES t)
        0 [PAWN; KNIGHT; BISHOP; ROOK; QUEEN].

Definition get_material_balance (board : Board) : Z :=
  let opponent_color := negb our_color in
  get_material_count board our_color - get_material_count board opponent_color.

Definition is_capture_move (board : Board) (move : Move) : bool :=
  is_capture board move.

Definition get_captured_piece_value (board : Board) (move : Move) : Z :=
  if negb (is_capture board move) then 0
  else match piece_at board (to_square move) with
       | None => PIECE_VALUES PAWN
       | Some captured_piece => PIECE_VALUES (piece_type captured_piece)
       end.

Definition is_king_in_check (board : Board) : bool := is_check board.

(** *** Threats (humine.py:176-203) *)

Definition detect_immediate_threats (board : Board) : list Threat :=
  match king board our_color with
  | None => []
  | Some our_king_square =>
      flat_map
        (fun square =>
           match piece_at board square with
           | Some piece =>
               if negb (Bool.eqb (color piece) our_color)
                  && existsb (Nat.eqb our_king_square) (attacks board square)
               then [{| threat_piece := piece_type piece;
                        threat_square := square_name square;
                        threat_target := square_name our_king_square |}]
               else []
           | None => []
           end)
        SQUARES
  end.

(** *** Attack sequences (humine.py:205-263)

    The entries one legal move appends, in the order of the loop body. The
    [depth] argument of the source is never read. *)
Definition attack_entries (board : Board) (move : Move) : list (AttackSeq Move) :=
  let test_board := push board move in
  if is_checkmate test_board then
    [{| moves := [move]; result := r_checkmate; depth := 1;
        material_gain := get_captured_piece_value board move |}]
  else
    (if is_check test_board then
       [{| moves := [move]; result := r_check; depth := 1;
           material_gain := get_captured_piece_value board move |}]
     else [])
    ++
    (if is_capture_move board move then
       let gain := get_captured_piece_value board move in
       if 0 <? gain then
         [{| moves := [move]; result := r_capture; depth := 1;
             material_gain := gain |}]
       else []
     else []).

Definition calculate_attack_sequences (board : Board) : list (AttackSeq Move) :=
  let sequences := flat_map (attack_entries board) (legal_moves board) in
  sort_desc sequence_priority Z.ltb sequences.

(** *** Defense sequences (humine.py:265-319) *)

Definition defense_entry (board : Board) (move : Move) : DefenseSeq Move :=
  let test_board := push board move in
  let piece_moved := piece_at board (from_square move) in
  let piece_value :=
    match piece_moved with
    | Some p => PIECE_VALUES (piece_type p)
    | None => 0
    end in
  let removes := if is_check board then negb (is_check test_board) else false in
  let threats_before := length (detect_immediate_threats board) in
  let threats_after := length (detect_immediate_threats test_board) in
  let material_lost := 0 in
  let material_lost :=
    if is_capture test_board move
    then - get_captured_piece_value board move
    else material_lost in
  let material_lost :=
    if negb (is_game_over test_board) then
      if bool_decide (is_Some piece_moved)
         && is_attacked_by test_board (negb (turn board)) (to_square move)
      then
        if negb (is_attacked_by test_board (turn board) (to_square move))
        then material_lost + piece_value
        else material_lost
      else material_lost
    else material_lost in
  {| d_move := move;
     removes_check := removes;
     threats_reduced := Z.of_nat threats_before - Z.of_nat threats_after;
     material_cost := material_lost;
     king_safer := Nat.ltb threats_after threats_before |}.

Definition calculate_defense_sequences (board : Board) : list (DefenseSeq Move) :=
  let defenses := map (defense_entry board) (legal_moves board) in
  sort_desc defense_priority Z.ltb defenses.

(** *** Strategy recommendation (humine.py:321-376) *)

Definition analyze_position_before_move (board : Board) : Analysis Move :=
  let in_check := is_king_in_check board in
  let threats := detect_immediate_threats board in
  let balance := get_material_balance board in
  let attacks_ := calculate_attack_sequences board in
  if in_check || Nat.ltb 0 (length threats) then
    let defenses := calculate_defense_sequences board in
    let fastest_attack := head attacks_ in
    let fastest_defense := head defenses in
    let strategy :=
      match fastest_attack with
      | Some {| result := r_checkmate |} => s_attack
      | _ =>
          match fastest_defense with
          | Some _ => s_defend
          | None => s_counter_attack
          end
      end in
    {| king_in_check := in_check; immediate_threats := threats;
       material_balance := balance; attack_sequences := attacks_;
       defense_sequences := defenses; recommended_strategy := strategy |}
  else
    let strategy :=
      match attacks_ with
      | best_attack :: _ =>
          match result best_attack with
          | r_checkmate => s_checkmate
          | r_check => s_attack
          | r_capture =>
              if 300 <=? material_gain best_attack then s_capture else s_positional
          end
      | [] => s_positional
      end in
    {| king_in_check := in_check; immediate_threats := threats;
       material_balance := balance; attack_sequences := attacks_;
       defense_sequences := []; recommended_strategy := strategy |}.

(** *** Game simulation (humine.py:382-484) *)

(** [self.max_depth], [self.engine] and [self.board]. The engine is absent
    ([None], testing mode) or answers a position with a move; [None] from
    a present engine stands for an exception inside the [try] block. *)
Variable max_depth : Z.
Variable engine : option (Board → option Move).
Variable self_board : Board.

Record SimState : Type := {
  sim_board : Board;
  move_count : Z;
  tactical_info : TacticalInfo;
  sim_rng : Rng
}.

Definition initial_tactical_info : TacticalInfo :=
  {| captures_by_us := []; captures_by_opponent := [];
     material_balance_change := 0; checks_given := 0; checks_received := 0 |}.

Definition add_capture_by_us (board : Board) (move : Move) (ti : TacticalInfo)
    : TacticalInfo :=
  {| captures_by_us :=
       captures_by_us ti ++
         [{| cap_move := san board move;
             cap_value := get_captured_piece_value board move |}];
     captures_by_opponent := captures_by_opponent ti;
     material_balance_change := material_balance_change ti;
     checks_given := checks_given ti;
     checks_received := checks_received ti |}.

Definition add_capture_by_opponent (board : Board) (move : Move) (ti : TacticalInfo)
    : TacticalInfo :=
  {| captures_by_us := captures_by_us ti;
     captures_by_opponent :=
       captures_by_opponent ti ++
         [{| cap_move := san board move;
             cap_value := get_captured_piece_value board move |}];
     material_balance_change := material_balance_change ti;
     checks_given := checks_given ti;
     checks_received := checks_received ti |}.

Definition add_check_given (ti : TacticalInfo) : TacticalInfo :=
  {| captures_by_us := captures_by_us ti;
     captures_by_opponent := captures_by_opponent ti;
     material_balance_change := material_balance_change ti;
     checks_given := S (checks_given ti);
     checks_received := checks_received ti |}.

Definition add_check_received (ti : TacticalInfo) : TacticalInfo :=
  {| captures_by_us := captures_by_us ti;
     captures_by_opponent := captures_by_opponent ti;
     material_balance_change := material_balance_change ti;
     checks_given := checks_given ti;
     checks_received := S (checks_received ti) |}.

Definition set_material_balance_change (v : Z) (ti : TacticalInfo) : TacticalInfo :=
  {| captures_by_us := captures_by_us ti;
     captures_by_opponent := captures_by_opponent ti;
     material_balance_change := v;
     checks_given := checks_given ti;
     checks_received := checks_received ti |}.

(** What one pass through the loop body does: fall through to
    [move_count += 1], or [break]. *)
Inductive Flow : Type :=
| Next (board : Board) (ti : TacticalInfo) (g : Rng)
| Break.

(** The learner's branch (humine.py:408-436). *)
Definition learner_turn (board : Board) (ti : TacticalInfo) (g : Rng) : Flow :=
  match legal_moves board with
  | [] => Break
  | m0 :: ms =>
      let captures := List.filter (is_capture board) (m0 :: ms) in
      let any_move (g : Rng) : Move * TacticalInfo * Rng :=
        let '(move, g) := random_choice g m0 ms in
        if is_capture board move
        then (move, add_capture_by_us board move ti, g)
        else (move, ti, g) in
      let '(move, ti, g) :=
        match captures with
        | c0 :: cs =>
            let '(prefer, g) := random_lt_03 g in
            if prefer then
              let '(move, g) := random_choice g c0 cs in
              (move, add_capture_by_us board move ti, g)
            else any_move g
        | [] => any_move g
        end in
      let board' := push board move in
      let ti := if is_check board' then add_check_given ti else ti in
      Next board' ti g
  end.

(** The random reply used without an engine and in the [except] branch
    (humine.py:456-465). *)
Definition random_reply (board : Board) (ti : TacticalInfo) (g : Rng) : Flow :=
  match legal_moves board with
  | [] => Break
  | m0 :: ms =>
      let '(move, g) := random_choice g m0 ms in
      Next (push board move) ti g
  end.

(** The opponent's branch (humine.py:438-465). *)
Definition opponent_turn (board : Board) (ti : TacticalInfo) (g : Rng) : Flow :=
  match engine with
  | Some play =>
      match play board with
      | Some move =>
          let ti := if is_capture board move
                    then add_capture_by_opponent board move ti else ti in
          let board' := push board move in
          let ti := if is_check board' then add_check_received ti else ti in
          Next board' ti g
      | None => random_reply board ti g
      end
  | None => random_reply board ti g
  end.

Definition sim_body (st : SimState) : Flow :=
  let is_learner_turn := Bool.eqb (Bool.eqb (turn (sim_board st)) WHITE) play_as_white in
  if is_learner_turn
  then learner_turn (sim_board st) (tactical_info st) (sim_rng st)
  else opponent_turn (sim_board st) (tactical_info st) (sim_rng st).

(** [while not sim_board.is_game_over() and move_count < self.max_depth].
    [None] means the fuel ran out with the loop condition still true. *)
Fixpoint sim_loop (fuel : nat) (st : SimState) : option SimState :=
  if negb (is_game_over (sim_board st)) && (move_count st <? max_depth) then
    match fuel with
    | O => None
    | S fuel' =>
        match sim_body st with
        | Break => Some st
        | Next board ti g =>
            sim_loop fuel'
              {| sim_board := board; move_count := move_count st + 1;
                 tactical_info := ti; sim_rng := g |}
        end
    end
  else Some st.

(** The state on entry to the loop. *)
Definition sim_start (first_move : Move) (g : Rng) : SimState :=
  {| sim_board := push self_board first_move;
     move_count := 1;
     tactical_info := initial_tactical_info;
     sim_rng := g |}.

(** The state on leaving the loop, for a given amount of fuel. *)
Definition sim_final (fuel : nat) (first_move : Move) (g : Rng) : option SimState :=
  sim_loop fuel (sim_start first_move g).

(** "Determine result" (humine.py:473-484). *)
Definition classify_result (board : Board) : string :=
  if is_checkmate board then
    let winner_is_white := negb (turn board) in
    if Bool.eqb winner_is_white play_as_white then "WIN" else "LOSS"
  else if is_stalemate board || is_insufficient_material board
          || is_fifty_moves board || is_repetition board
  then "DRAW"
  else "DRAW".

Definition sim_result (first_move : Move) (st : SimState)
    : string * Z * TacticalInfo * Rng :=
  let initial_balance := get_material_balance (push self_board first_move) in
  let final_balance := get_material_balance (sim_board st) in
  let ti := set_material_balance_change (final_balance - initial_balance)
              (tactical_info st) in
  (classify_result (sim_board st), move_count st, ti, sim_rng st).

(** [simulate_tactical_game]; the loop gets [max_depth] units of fuel,
    which [sim_loop_enough_fuel] below shows is never used up. *)
Definition simulate_tactical_game (first_move : Move) (g : Rng)
    : option (string * Z * TacticalInfo * Rng) :=
  sim_result first_move <$> sim_final (Z.to_nat max_depth) first_move g.

(** *** Move search (humine.py:585-596, 787-963)

    Console output ([print], [display_move_sequences],
    [print_detailed_statistics]) is not modelled. *)

(** [datetime.now().isoformat()] at a given attempt. *)
Variable now : Z → string.

Definition get_untried_moves (memory : Memory) : list Move :=
  let position_key := _get_position_key self_board in
  let tried_moves :=
    match memory !! position_key with
    | Some bucket => map fst bucket
    | None => []
    end in
  List.filter (fun move => negb (existsb (String.eqb (uci move)) tried_moves))
              (legal_moves self_board).

(** [l.remove(x)]: drops the first occurrence. *)
Fixpoint list_remove (x : Move) (l : list Move) : list Move :=
  match l with
  | [] => []
  | y :: l' => if bool_decide (y = x) then l' else y :: list_remove x l'
  end.

(** [self.memory[position_key][move_uci]] *)
Definition memory_get (memory : Memory) (position_key move_uci : string)
    : Py MoveRecord :=
  match memory !! position_key with
  | None => Raise KeyError
  | Some bucket =>
      match bucket_lookup move_uci bucket with
      | None => Raise KeyError
      | Some r => Ok r
      end
  end.

(** The local [best_draw] holds [(move_san, move_data)] where [move_data]
    is the dict stored in [self.memory]; the record is kept here by its
    move id and read through the memory, so later recordings show. *)
Record SearchState : Type := {
  attempts : Z;
  priority_moves : list Move;
  best_draw : Local (option (string * string));
  memory : Memory;
  search_rng : Rng
}.

Inductive SearchExit : Type :=
| Returned (move_san : string) (memory : Memory)
| Fell (st : SearchState).

(** The keys [sort] computes before it compares anything. *)
Fixpoint score_keys (l : Bucket) : Py (list (Q * (string * MoveRecord))) :=
  match l with
  | [] => Ok []
  | x :: l' =>
      k ← get_move_score x.2;
      ks ← score_keys l';
      Ok ((k, x) :: ks)
  end.

(** "Choose move" (humine.py:859-895); [None] is [break]. *)
Definition choose_move (st : SearchState) : Py (option (Move * list Move * Rng)) :=
  let position_key := _get_position_key self_board in
  let untried := get_untried_moves (memory st) in
  let pick_untried (u0 : Move) (us : list Move) :=
    let '(move, g) := random_choice (search_rng st) u0 us in
    Ok (Some (move, priority_moves st, g)) in
  match priority_moves st, untried with
  | _ :: _, u0 :: us =>
      let priority_untried :=
        List.filter (fun m => bool_decide (m ∈ untried)) (priority_moves st) in
      match priority_untried with
      | move :: _ =>
          Ok (Some (move, list_remove move (priority_moves st), search_rng st))
      | [] => pick_untried u0 us
      end
  | [], u0 :: us => pick_untried u0 us
  | _, [] =>
      match memory st !! position_key with
      | Some bucket =>
          let retry_candidates := List.filter (fun x => should_retry_move x.2) bucket in
          match retry_candidates with
          | [] => Ok None
          | _ :: _ =>
              keyed ← score_keys retry_candidates;
              match sort_desc fst Qltb keyed with
              | (_, (move_uci, _)) :: _ =>
                  match from_uci move_uci with
                  | Some move => Ok (Some (move, priority_moves st, search_rng st))
                  | None => Raise ValueError
                  end
              | [] => Raise IndexError
              end
          end
      | None => Ok None
      end
  end.

(** "Track best draw" (humine.py:934-946), after the outcome was recorded
    into [memory']. *)
Definition track_best_draw (memory' : Memory) (best : Local (option (string * string)))
    (move_san move_uci : string) : Py (Local (option (string * string))) :=
  let position_key := _get_position_key self_board in
  bd ← read_local best;
  match bd with
  | None => Ok (Bound (Some (move_san, move_uci)))
  | Some (best_san, best_uci) =>
      current_data ← memory_get memory' position_key move_uci;
      best_data ← memory_get memory' position_key best_uci;
      let current_material := total_material_gained current_data in
      let best_material := total_material_gained best_data in
      if best_material <? current_material
      then Ok (Bound (Some (move_san, move_uci)))
      else Ok best
  end.

Section Search.
Variable max_strength : Z.

(** [while attempts < max_strength] (humine.py:856-946). *)
Fixpoint search_loop (fuel : nat) (st : SearchState) : Py SearchExit :=
  if attempts st <? max_strength then
    match fuel with
    | O => NoFuel
    | S fuel' =>
        let position_key := _get_position_key self_board in
        let attempts' := attempts st + 1 in
        choice ← choose_move st;
        match choice with
        | None =>
            Ok (Fell {| attempts := attempts'; priority_moves := priority_moves st;
                        best_draw := best_draw st; memory := memory st;
                        search_rng := search_rng st |})
        | Some (move, priority_moves', g) =>
            let move_uci := uci move in
            let move_san := san self_board move in
            match simulate_tactical_game move g with
            | None => NoFuel
            | Some (result, move_count, tactical_info, g') =>
                let memory' :=
                  record_move_result (memory st) position_key move_uci move_san
                    result move_count (Some tactical_info) (now attempts') in
                if String.eqb result "WIN" then
                  _ ← memory_get memory' position_key move_uci;
                  Ok (Returned move_san memory')
                else
                  best_draw' ←
                    (if String.eqb result "DRAW"
                     then track_best_draw memory' (best_draw st) move_san move_uci
                     else Ok (best_draw st));
                  search_loop fuel'
                    {| attempts := attempts'; priority_moves := priority_moves';
                       best_draw := best_draw'; memory := memory';
                       search_rng := g' |}
            end
        end
    end
  else Ok (Fell st).

(** "Check memory for known good moves" (humine.py:801-828): return at
    once ([inl]), or go on with the local [best_draw] as this step
    leaves it ([inr]). *)
Definition consult_memory (strategy : Strategy) (best_from_memory : option BestMove)
    : string + Local (option (string * string)) :=
  match best_from_memory with
  | Some (move_uci, move_san, move_data) =>
      match strategy with
      | s_defend | s_counter_attack =>
          if Nat.ltb 0 (wins move_data) then inl move_san else inr Unbound
      | _ =>
          if Nat.ltb 0 (wins move_data) then inl move_san
          else if Nat.ltb 0 (draws move_data)
               then inr (Bound (Some (move_san, move_uci)))
               else inr Unbound
      end
  | None => inr (Bound None)
  end.

(** "Prioritize moves based on strategy" (humine.py:836-854). *)
Definition initial_priority_moves (analysis : Analysis Move) : list Move :=
  match recommended_strategy analysis with
  | s_defend => map d_move (take 5 (defense_sequences analysis))
  | s_attack | s_checkmate | s_capture =>
      omap (fun s => head (moves s)) (take 5 (attack_sequences analysis))
  | _ => []
  end.

(** [find_winning_move]: the returned notation (or [None]) and the
    memory as the call leaves it. *)
Definition find_winning_move (memory0 : Memory) (g : Rng)
    : Py (option string * Memory) :=
  let analysis := analyze_position_before_move self_board in
  best_from_memory ← get_best_move_from_memory memory0 (_get_position_key self_board);
  match consult_memory (recommended_strategy analysis) best_from_memory with
  | inl move_san => Ok (Some move_san, memory0)
  | inr best =>
      exit ← search_loop (Z.to_nat max_strength)
               {| attempts := 0;
                  priority_moves := initial_priority_moves analysis;
                  best_draw := best;
                  memory := memory0;
                  search_rng := g |};
      match exit with
      | Returned move_san memory' => Ok (Some move_san, memory')
      | Fell st =>
          bd ← read_local (best_draw st);
          match bd with
          | Some (move_san, _) => Ok (Some move_san, memory st)
          | None => Ok (None, memory st)
          end
      end
  end.
End Search.
End Learner.

(** ** A fragment of python-chess

    The rules engine on the position
    [4r3/p7/8/7k/B7/8/8/4K3 w - - 0 1]
    (White: Ke1, Ba4; Black: Kh5, Re8, a7; White to move, in check from the
    rook) and the five positions one white move later. Piece placement,
    attack sets, [is_check] and [is_capture] are computed as python-chess
    computes them; the list of legal moves is tabulated at the root, in
    python-chess's generation order, and left empty below it: the runs that
    use this instance stop after one ply. None of the six positions is
    mate, stalemate or any kind of draw. *)
Module PyChessFragment.

Record FMove : Type := { m_from : Square; m_to : Square }.

#[export] Instance FMove_eq_dec : EqDecision FMove.
Proof. solve_decision. Defined.

Record FBoard : Type := { placed : list (Square * Piece); to_move : Color }.

Definition f_piece_at (b : FBoard) (sq : Square) : option Piece :=
  snd <$> List.find (fun x => Nat.eqb (fst x) sq) (placed b).

Definition f_push (b : FBoard) (m : FMove) : FBoard :=
  let rest :=
    List.filter (fun x => negb (Nat.eqb (fst x) (m_from m)) && negb (Nat.eqb (fst x) (m_to m)))
                (placed b) in
  {| placed :=
       match f_piece_at b (m_from m) with
       | Some p => (m_to m, p) :: rest
       | None => rest
       end;
     to_move := negb (to_move b) |}.

Definition occupied (b : FBoard) (sq : Square) : bool :=
  bool_decide (is_Some (f_piece_at b sq)).

Definition occupied_co (b : FBoard) (c : Color) (sq : Square) : bool :=
  match f_piece_at b sq with
  | Some p => Bool.eqb (color p) c
  | None => false
  end.

(** Squares seen from file [f], rank [r] in direction [(df, dr)], up to
    and including the first occupied one, at most [n] steps. *)
Fixpoint ray (b : FBoard) (n : nat) (f r df dr : Z) : list Square :=
  match n with
  | O => []
  | S n' =>
      let f' := f + df in
      let r' := r + dr in
      if (0 <=? f') && (f' <? 8) && (0 <=? r') && (r' <? 8) then
        let sq := Z.to_nat (r' * 8 + f') in
        sq :: (if occupied b sq then [] else ray b n' f' r' df dr)
      else []
  end.

Definition rook_dirs : list (Z * Z) := [(1, 0); (-1, 0); (0, 1); (0, -1)].
Definition bishop_dirs : list (Z * Z) := [(1, 1); (1, -1); (-1, 1); (-1, -1)].
Definition knight_dirs : list (Z * Z) :=
  [(1, 2); (2, 1); (2, -1); (1, -2); (-1, -2); (-2, -1); (-2, 1); (-1, 2)].

(** [board.attacks(square)] *)
Definition f_attacks (b : FBoard) (sq : Square) : list Square :=
  let f := Z.of_nat (sq mod 8) in
  let r := Z.of_nat (sq / 8) in
  let along (n : nat) (dirs : list (Z * Z)) :=
    flat_map (fun d => ray b n f r (fst d) (snd d)) dirs in
  match f_piece_at b sq with
  | None => []
  | Some p =>
      match piece_type p with
      | PAWN => along 1%nat (if color p then [(-1, 1); (1, 1)] else [(-1, -1); (1, -1)])
      | KNIGHT => along 1%nat knight_dirs
      | BISHOP => along 7%nat bishop_dirs
      | ROOK => along 7%nat rook_dirs
      | QUEEN => along 7%nat (rook_dirs ++ bishop_dirs)
      | KING => along 1%nat (rook_dirs ++ bishop_dirs)
      end
  end.

(** [board.is_attacked_by(color, square)] *)
Definition f_is_attacked_by (b : FBoard) (c : Color) (sq : Square) : bool :=
  existsb (fun x => Bool.eqb (color (snd x)) c
                    && existsb (Nat.eqb sq) (f_attacks b (fst x)))
          (placed b).

(** [board.king(color)] *)
Definition f_king (b : FBoard) (c : Color) : option Square :=
  List.find (fun sq => match f_piece_at b sq with
                       | Some {| piece_type := KING; color := c' |} => Bool.eqb c' c
                       | _ => false
                       end) SQUARES.

(** [board.is_check()]: the king of the side to move is attacked. *)
Definition f_is_check (b : FBoard) : bool :=
  match f_king b (to_move b) with
  | Some k => f_is_attacked_by b (negb (to_move b)) k
  | None => false
  end.

(** [board.is_capture(move)]: the move touches a square held by the side
    not to move (no en passant in this fragment). *)
Definition f_is_capture (b : FBoard) (m : FMove) : bool :=
  occupied_co b (negb (to_move b)) (m_from m)
  || occupied_co b (negb (to_move b)) (m_to m).

(** [board.pieces(piece_type, color)] *)
Definition f_pieces (b : FBoard) (t : PieceType) (c : Color) : list Square :=
  List.filter (fun sq => match f_piece_at b sq with
                         | Some p => bool_decide (piece_type p = t) && Bool.eqb (color p) c
                         | None => false
                         end) SQUARES.

Definition f_uci (m : FMove) : string :=
  (square_name (m_from m) ++ square_name (m_to m))%string.

Definition e1 : Square := 4%nat.
Definition d1 : Square := 3%nat.
Definition f1 : Square := 5%nat.
Definition d2 : Square := 11%nat.
Definition f2 : Square := 13%nat.
Definition a4 : Square := 24%nat.
Definition h5 : Square := 39%nat.
Definition a7 : Square := 48%nat.
Definition e8 : Square := 60%nat.

Definition root : FBoard :=
  {| placed :=
       [(e1, {| piece_type := KING; color := WHITE |});
        (a4, {| piece_type := BISHOP; color := WHITE |});
        (h5, {| piece_type := KING; color := BLACK |});
        (a7, {| piece_type := PAWN; color := BLACK |});
        (e8, {| piece_type := ROOK; color := BLACK |})];
     to_move := WHITE |}.

Definition Kf2 : FMove := {| m_from := e1; m_to := f2 |}.
Definition Kd2 : FMove := {| m_from := e1; m_to := d2 |}.
Definition Kf1 : FMove := {| m_from := e1; m_to := f1 |}.
Definition Kd1 : FMove := {| m_from := e1; m_to := d1 |}.
Definition Bxe8 : FMove := {| m_from := a4; m_to := e8 |}.

Definition board_eqb (b1 b2 : FBoard) : bool :=
  Bool.eqb (to_move b1) (to_move b2)
  && forallb (fun sq => bool_decide (f_piece_at b1 sq = f_piece_at b2 sq)) SQUARES.

Definition f_legal_moves (b : FBoard) : list FMove :=
  if board_eqb b root then [Kf2; Kd2; Kf1; Kd1; Bxe8] else [].

Definition f_san (b : FBoard) (m : FMove) : string :=
  if bool_decide (m = Kf2) then "Kf2"
  else if bool_decide (m = Kd2) then "Kd2"
  else if bool_decide (m = Kf1) then "Kf1"
  else if bool_decide (m = Kd1) then "Kd1"
  else if bool_decide (m = Bxe8) then "Bxe8+"
  else f_uci m.

Definition f_fen (b : FBoard) : string :=
  if board_eqb b root then "4r3/p7/8/7k/B7/8/8/4K3 w - - 0 1"
  else if board_eqb b (f_push root Kf2) then "4r3/p7/8/7k/B7/8/5K2/8 b - - 1 1"
  else if board_eqb b (f_push root Kd2) then "4r3/p7/8/7k/B7/8/3K4/8 b - - 1 1"
  else if board_eqb b (f_push root Kf1) then "4r3/p7/8/7k/B7/8/8/5K2 b - - 1 1"
  else if board_eqb b (f_push root Kd1) then "4r3/p7/8/7k/B7/8/8/3K4 b - - 1 1"
  else if board_eqb b (f_push root Bxe8) then "4B3/p7/8/7k/8/8/8/4K3 b - - 0 1"
  else "".

(** [chess.Move.from_uci] *)
Definition f_from_uci (s : string) : option FMove :=
  List.find (fun m => String.eqb (f_uci m) s)
    (flat_map (fun a => map (fun b => {| m_from := a; m_to := b |}) SQUARES) SQUARES).

#[export] Instance engine : RulesEngine FBoard FMove := {|
  legal_moves := f_legal_moves;
  push := f_push;
  turn := to_move;
  is_check := f_is_check;
  is_checkmate := fun _ => false;
  is_stalemate := fun _ => false;
  is_insufficient_material := fun _ => false;
  is_fifty_moves := fun _ => false;
  is_repetition := fun _ => false;
  is_game_over := fun _ => false;
  is_capture := f_is_capture;
  piece_at := f_piece_at;
  king := f_king;
  attacks := f_attacks;
  is_attacked_by := f_is_attacked_by;
  pieces := f_pieces;
  san := f_san;
  fen := f_fen;
  from_square := m_from;
  to_square := m_to;
  uci := f_uci;
  from_uci := f_from_uci
|}.

End PyChessFragment.


(** * Specification vocabulary *)

(** One call of [record_move_result], as data. *)
Record Recording : Type := {
  rc_key : string;
  rc_uci : string;
  rc_san : string;
  rc_result : string;
  rc_move_count : Z;
  rc_info : option TacticalInfo;
  rc_time : string
}.

Definition apply_recording (m : Memory) (c : Recording) : Memory :=
  record_move_result m (rc_key c) (rc_uci c) (rc_san c) (rc_result c)
    (rc_move_count c) (rc_info c) (rc_time c).

(** The memory after a sequence of recordings into an empty store. *)
Definition replay (cs : list Recording) : Memory := foldl apply_recording ∅ cs.

(** The record stored for a move of a position, if any. *)
Definition stored (m : Memory) (position_key move_uci : string) : option MoveRecord :=
  m !! position_key ≫= bucket_lookup move_uci.

(** The invariant of a move record. *)
Definition record_ok (r : MoveRecord) : Prop :=
  (wins r + draws r + losses r)%nat = length (results r).

Definition store_ok (m : Memory) : Prop :=
  map_Forall (fun _ bucket => Forall (fun kr => record_ok kr.2) bucket) m.

(** The counters as a triple. *)
Definition counters (r : MoveRecord) : nat * nat * nat := (wins r, draws r, losses r).

(** A computation that ends, with a value or an exception. *)
Definition ends {A : Type} (c : Py A) : Prop := c ≠ NoFuel.

(** Descending order of keys: [a] may stand before [b]. *)
Definition desc {A : Type} (key : A → Z) (a b : A) : Prop := key b <= key a.

(** Where a priority lies, by kind of entry. *)
Definition priority_in_tier {Move : Type} (s : AttackSeq Move) : Prop :=
  match result s with
  | r_checkmate => sequence_priority s = 10000
  | r_check => 5000 <= sequence_priority s <= 5900
  | r_capture => 0 < sequence_priority s <= 900
  end.

(** What [get_move_score] adds for captures and material. *)
Definition tactical_bonus (r : MoveRecord) : Q := (capture_bonus r + material_bonus r)%Q.

(** The same, as part of the score: a record without outcomes scores [0]
    before any bonus is looked at. *)
Definition counted_bonus (r : MoveRecord) : Q :=
  if Nat.eqb (wins r + draws r + losses r) 0 then 0%Q else tactical_bonus r.

(** Ply counts are at least one wherever a minimum was recorded. *)
Definition min_ok (m : PyNum) : Prop :=
  match m with
  | PInf => True
  | PInt n => 1 <= n
  end.

Definition mins_ok (r : MoveRecord) : Prop :=
  min_ok (min_moves_to_win r) ∧ min_ok (min_moves_to_draw r).

(** ** Concrete stores *)

Definition start_key : string :=
  "rnbqkbnr/pppppppp/8/8/8/8/PPPPPPPP/RNBQKBNR w KQkq -|playing_as_white".

(** A win in 100 plies without captures. *)
Definition quiet_win : Recording :=
  {| rc_key := start_key; rc_uci := "e2e4"; rc_san := "e4"; rc_result := "WIN";
     rc_move_count := 100;
     rc_info := Some {| captures_by_us := []; captures_by_opponent := [];
                        material_balance_change := 0;
                        checks_given := 1; checks_received := 0 |};
     rc_time := "2024-01-01T00:00:00" |}.

(** A draw at the default depth cap in which the learner captured all
    fifteen capturable pieces and ended level on material. *)
Definition busy_draw : Recording :=
  {| rc_key := start_key; rc_uci := "d2d4"; rc_san := "d4"; rc_result := "DRAW";
     rc_move_count := 200;
     rc_info := Some {| captures_by_us := repeat {| cap_move := "exd5"; cap_value := 100 |} 15;
                        captures_by_opponent := [];
                        material_balance_change := 0;
                        checks_given := 0; checks_received := 0 |};
     rc_time := "2024-01-01T00:00:01" |}.

(** One win for [e2e4], forty such draws for [d2d4]. *)
Definition tier_store : Memory := replay (quiet_win :: repeat busy_draw 40).

Definition tier_win : MoveRecord :=
  default (fresh_record "") (stored tier_store start_key "e2e4").

Definition tier_draw : MoveRecord :=
  default (fresh_record "") (stored tier_store start_key "d2d4").

(** A loss in 100 plies without captures. *)
Definition quiet_loss : Recording :=
  {| rc_key := start_key; rc_uci := "e2e4"; rc_san := "e4"; rc_result := "LOSS";
     rc_move_count := 100;
     rc_info := Some {| captures_by_us := []; captures_by_opponent := [];
                        material_balance_change := 0;
                        checks_given := 0; checks_received := 1 |};
     rc_time := "2024-01-01T00:00:00" |}.

(** A draw at the default depth cap that cost 3000 in material. *)
Definition costly_draw : Recording :=
  {| rc_key := start_key; rc_uci := "d2d4"; rc_san := "d4"; rc_result := "DRAW";
     rc_move_count := 200;
     rc_info := Some {| captures_by_us := [];
                        captures_by_opponent := [{| cap_move := "Qxd4"; cap_value := 900 |}];
                        material_balance_change := -3000;
                        checks_given := 0; checks_received := 0 |};
     rc_time := "2024-01-01T00:00:01" |}.

(** One loss for [e2e4], twenty such draws for [d2d4]. *)
Definition costly_store : Memory := replay (quiet_loss :: repeat costly_draw 20).

Definition fragment_key : string := "4r3/p7/8/7k/B7/8/8/4K3 w - -|playing_as_white".

(** In the fragment's position: [Kd1] was tried once and lost in 12 plies,
    the bishop (330) going on the way. *)
Definition lost_bishop : Recording :=
  {| rc_key := fragment_key; rc_uci := "e1d1"; rc_san := "Kd1"; rc_result := "LOSS";
     rc_move_count := 12;
     rc_info := Some {| captures_by_us := [];
                        captures_by_opponent := [{| cap_move := "Rxa4"; cap_value := 330 |}];
                        material_balance_change := -330;
                        checks_given := 0; checks_received := 3 |};
     rc_time := "2024-01-01T00:00:02" |}.

(** The same trial without loss of material. *)
Definition plain_loss : Recording :=
  {| rc_key := fragment_key; rc_uci := "e1d1"; rc_san := "Kd1"; rc_result := "LOSS";
     rc_move_count := 12;
     rc_info := Some {| captures_by_us := []; captures_by_opponent := [];
                        material_balance_change := 0;
                        checks_given := 0; checks_received := 3 |};
     rc_time := "2024-01-01T00:00:02" |}.

(** ** Vocabulary for the further properties *)

(** Every record of every bucket satisfies [P]. *)
Definition store_all (P : MoveRecord → Prop) (m : Memory) : Prop :=
  map_Forall (fun _ bucket => Forall (fun kr => P kr.2) bucket) m.

(** The number of entries with a given result. *)
Definition count_result (s : string) (rs : list ResultEntry) : nat :=
  length (List.filter (fun e => String.eqb (res_result e) s) rs).

(** The number of entries that are neither a win nor a draw. *)
Definition count_other (rs : list ResultEntry) : nat :=
  length (List.filter (fun e => negb (String.eqb (res_result e) "WIN")
                              && negb (String.eqb (res_result e) "DRAW")) rs).

(** The least ply count among the entries with a given result. *)
Definition least_plies (s : string) (rs : list ResultEntry) : PyNum :=
  foldl (fun acc e => if String.eqb (res_result e) s
                      then py_min acc (res_move_count e) else acc) PInf rs.

(** Captures by the learner, summed over the entries. *)
Definition sum_captures (rs : list ResultEntry) : nat :=
  foldl (fun acc e => match res_tactical_info e with
                      | Some ti => (acc + length (captures_by_us ti))%nat
                      | None => acc
                      end) 0%nat rs.

(** Material swing, summed over the entries. *)
Definition sum_material (rs : list ResultEntry) : Z :=
  foldl (fun acc e => match res_tactical_info e with
                      | Some ti => acc + material_balance_change ti
                      | None => acc
                      end) 0 rs.

(** Every aggregate field is what the list of results says. *)
Definition aggregates_ok (r : MoveRecord) : Prop :=
  wins r = count_result "WIN" (results r)
  ∧ draws r = count_result "DRAW" (results r)
  ∧ losses r = count_other (results r)
  ∧ min_moves_to_win r = least_plies "WIN" (results r)
  ∧ min_moves_to_draw r = least_plies "DRAW" (results r)
  ∧ total_captures r = sum_captures (results r)
  ∧ total_material_gained r = sum_material (results r).

(** A minimum is recorded exactly when there is an outcome of its kind. *)
Definition mins_match (r : MoveRecord) : Prop :=
  (min_moves_to_win r = PInf ↔ wins r = 0%nat)
  ∧ (min_moves_to_draw r = PInf ↔ draws r = 0%nat).

(** The record with another fastest win, another number of wins. *)
Definition with_min_win (m : PyNum) (r : MoveRecord) : MoveRecord :=
  {| rec_san := rec_san r; results := results r;
     wins := wins r; draws := draws r; losses := losses r;
     min_moves_to_win := m; min_moves_to_draw := min_moves_to_draw r;
     total_captures := total_captures r;
     total_material_gained := total_material_gained r |}.

Definition with_wins (w : nat) (r : MoveRecord) : MoveRecord :=
  {| rec_san := rec_san r; results := results r;
     wins := w; draws := draws r; losses := losses r;
     min_moves_to_win := min_moves_to_win r;
     min_moves_to_draw := min_moves_to_draw r;
     total_captures := total_captures r;
     total_material_gained := total_material_gained r |}.

(** The number of spaces of a string. *)
Fixpoint spaces (s : string) : nat :=
  match s with
  | EmptyString => 0
  | String c s' => (if Ascii.eqb c " "%char then 1 else 0) + spaces s'
  end.

(** An opposing piece on [square] whose attack set holds the king. *)
Definition threatens {Board Move : Type} `{RulesEngine Board Move}
    (play_as_white : bool) (board : Board) (king_square square : Square)
    (piece : Piece) : Prop :=
  (square < 64)%nat
  ∧ piece_at board square = Some piece
  ∧ color piece ≠ our_color play_as_white
  ∧ In king_square (attacks board square).

(** [plays n b b']: [b'] is reached from [b] by [n] moves, each of them
    legal where it is played, none of them played in a finished game. *)
Inductive plays {Board Move : Type} `{RulesEngine Board Move}
    : nat → Board → Board → Prop :=
| plays_none (b : Board) : plays 0 b b
| plays_more (n : nat) (b b' : Board) (m : Move) :
    plays n b b' → is_game_over b' = false → In m (legal_moves b') →
    plays (S n) b (push b' m).

(** The engine, when it answers, answers with a legal move. *)
Definition engine_legal {Board Move : Type} `{RulesEngine Board Move}
    (engine : option (Board → option Move)) : Prop :=
  ∀ play board move, engine = Some play → play board = Some move →
                     In move (legal_moves board).

(** No engine, or one that fails at every query. *)
Definition engine_silent {Board Move : Type}
    (engine : option (Board → option Move)) : Prop :=
  match engine with
  | None => True
  | Some play => ∀ board, play board = None
  end.

(** The memory a search leaves, whichever way its loop ends. *)
Definition exit_memory {Move : Type} (e : SearchExit (Move := Move)) : Memory :=
  match e with
  | Returned _ m => m
  | Fell st => memory st
  end.

(** [m'] keeps every record of [m], with its notation and with its results
    as a prefix of the new ones. *)
Definition extends (m m' : Memory) : Prop :=
  ∀ key move_uci r,
    stored m key move_uci = Some r →
    ∃ r' more,
      stored m' key move_uci = Some r'
      ∧ rec_san r' = rec_san r
      ∧ results r' = results r ++ more.

(** The simulated games a bucket, and a memory under a key, hold. *)
Definition games (b : Bucket) : nat :=
  foldr (fun kr n => (length (results kr.2) + n)%nat) 0%nat b.

Definition games_at (m : Memory) (key : string) : nat :=
  games (default [] (m !! key)).

(** The bucket a memory holds for a position, empty when it holds none. *)
Definition bucket_of (m : Memory) (key : string) : Bucket := default [] (m !! key).

(** A bucket whose scores can be computed (recorded minima are at least 1)
    and whose move ids are those of legal moves of the position. *)
Definition bucket_sound {Board Move : Type} `{RulesEngine Board Move}
    (board : Board) (b : Bucket) : Prop :=
  Forall (fun kr => mins_ok kr.2) b
  ∧ Forall (fun u => ∃ move, from_uci u = Some move ∧ In move (legal_moves board))
           (map fst b).

(** A win or a draw is on record for the move returned as [move_san]: the
    record kept under [move_uci] has at least one of them, and it carries
    that notation or [move_san] is the board's notation of a move with that
    id. *)
Definition backed_in {Board Move : Type} `{RulesEngine Board Move}
    (board : Board) (b : Bucket) (move_san move_uci : string) : Prop :=
  ∃ r, In (move_uci, r) b ∧ (0 < wins r + draws r)%nat
       ∧ (rec_san r = move_san
          ∨ ∃ move, uci move = move_uci ∧ san board move = move_san).

(** ** Further concrete data *)

(** A second fragment of python-chess, on the position
    [7k/8/6K1/8/8/8/8/R7 w - - 0 1]: White mates with [Ra8#]. The board
    functions are those of [PyChessFragment]; the legal moves are tabulated
    at the root, in python-chess's generation order, and the only finished
    game is the one after the mate. *)
Module MateFragment.
Import PyChessFragment.

Definition a1 : Square := 0%nat.
Definition g6 : Square := 46%nat.
Definition h8 : Square := 63%nat.

Definition mate_root : FBoard :=
  {| placed :=
       [(g6, {| piece_type := KING; color := WHITE |});
        (a1, {| piece_type := ROOK; color := WHITE |});
        (h8, {| piece_type := KING; color := BLACK |})];
     to_move := WHITE |}.

Definition king_moves : list FMove :=
  map (fun t => {| m_from := g6; m_to := t |}) [53; 47; 45; 39; 38; 37]%nat.

Definition rook_moves : list FMove :=
  map (fun t => {| m_from := a1; m_to := t |})
      [56; 48; 40; 32; 24; 16; 8; 7; 6; 5; 4; 3; 2; 1]%nat.

Definition Ra8 : FMove := {| m_from := a1; m_to := 56%nat |}.
Definition Rh1 : FMove := {| m_from := a1; m_to := 7%nat |}.

Definition mated (b : FBoard) : bool := board_eqb b (f_push mate_root Ra8).

Definition mate_legal_moves (b : FBoard) : list FMove :=
  if board_eqb b mate_root then king_moves ++ rook_moves else [].

Definition mate_san (b : FBoard) (m : FMove) : string :=
  let piece := if Nat.eqb (m_from m) g6 then "K" else "R" in
  let mark := if bool_decide (m = Ra8) then "#"
              else if bool_decide (m = Rh1) then "+" else "" in
  (piece ++ square_name (m_to m) ++ mark)%string.

Definition mate_fen (b : FBoard) : string :=
  if board_eqb b mate_root then "7k/8/6K1/8/8/8/8/R7 w - - 0 1"
  else if mated b then "R6k/8/6K1/8/8/8/8/8 b - - 1 1"
  else "".

Definition mate_engine : RulesEngine FBoard FMove := {|
  legal_moves := mate_legal_moves;
  push := f_push;
  turn := to_move;
  is_check := f_is_check;
  is_checkmate := mated;
  is_stalemate := fun _ => false;
  is_insufficient_material := fun _ => false;
  is_fifty_moves := fun _ => false;
  is_repetition := fun _ => false;
  is_game_over := mated;
  is_capture := f_is_capture;
  piece_at := f_piece_at;
  king := f_king;
  attacks := f_attacks;
  is_attacked_by := f_is_attacked_by;
  pieces := f_pieces;
  san := mate_san;
  fen := mate_fen;
  from_square := m_from;
  to_square := m_to;
  uci := f_uci;
  from_uci := f_from_uci
|}.

End MateFragment.

(** The fragment's position one ply earlier, Black to move with the rook
    still on e7: [Re8+] leads to the fragment's root. *)
Definition before_check : PyChessFragment.FBoard :=
  {| PyChessFragment.placed :=
       [(PyChessFragment.e1, {| piece_type := KING; color := WHITE |});
        (PyChessFragment.a4, {| piece_type := BISHOP; color := WHITE |});
        (PyChessFragment.h5, {| piece_type := KING; color := BLACK |});
        (PyChessFragment.a7, {| piece_type := PAWN; color := BLACK |});
        (52%nat, {| piece_type := ROOK; color := BLACK |})];
     PyChessFragment.to_move := BLACK |}.

Definition Re8 : PyChessFragment.FMove :=
  {| PyChessFragment.m_from := 52%nat; PyChessFragment.m_to := PyChessFragment.e8 |}.

(** An engine that answers with the first legal capture, and fails when
    there is none. *)
Definition capturing_engine
    : option (PyChessFragment.FBoard → option PyChessFragment.FMove) :=
  Some (fun b => List.find (PyChessFragment.f_is_capture b)
                           (PyChessFragment.f_legal_moves b)).

(** Every legal move of the fragment's position tried once: the king moves
    lost, the capture drew. *)
Definition tried_once (move_uci move_san result : string) : Recording :=
  {| rc_key := fragment_key; rc_uci := move_uci; rc_san := move_san;
     rc_result := result; rc_move_count := 12;
     rc_info := Some {| captures_by_us := []; captures_by_opponent := [];
                        material_balance_change := 0;
                        checks_given := 0; checks_received := 0 |};
     rc_time := "2024-01-01T00:00:03" |}.

Definition all_tried : Memory :=
  replay [tried_once "e1f2" "Kf2" "LOSS"; tried_once "e1d2" "Kd2" "LOSS";
          tried_once "e1f1" "Kf1" "LOSS"; tried_once "e1d1" "Kd1" "LOSS";
          tried_once "a4e8" "Bxe8+" "DRAW"].

(** [Kf2] won once. *)
Definition known_win : Memory := replay [tried_once "e1f2" "Kf2" "WIN"].

(** Every legal move of the fragment's position tried three times and lost
    each time. *)
Definition all_lost : Memory :=
  replay (flat_map (fun c => [c; c; c])
            [tried_once "e1f2" "Kf2" "LOSS"; tried_once "e1d2" "Kd2" "LOSS";
             tried_once "e1f1" "Kf1" "LOSS"; tried_once "e1d1" "Kd1" "LOSS";
             tried_once "a4e8" "Bxe8+" "LOSS"]).

(** * Properties *)

(** ** The embedding on small inputs *)

Example fen_fields_start :
  fen_fields 3 "rnbqkbnr/pppppppp/8/8/8/8/PPPPPPPP/RNBQKBNR w KQkq - 0 1"
  = "rnbqkbnr/pppppppp/8/8/8/8/PPPPPPPP/RNBQKBNR w KQkq -".
Proof. reflexivity. Qed.

Example square_name_e8 : square_name 60%nat = "e8".
Proof. reflexivity. Qed.

Example sort_desc_keeps_ties :
  sort_desc fst Z.ltb [(1, "a"); (3, "b"); (1, "c"); (3, "d")]
  = [(3, "b"); (3, "d"); (1, "a"); (1, "c")].
Proof. reflexivity. Qed.

Example tier_store_counters :
  counters tier_win = (1, 0, 0)%nat ∧ counters tier_draw = (0, 40, 0)%nat
  ∧ total_captures tier_draw = 600%nat.
Proof. vm_compute. intuition. Qed.

(** ** The stable descending sort *)

Section StableSortFacts.
Context {A : Type} (key : A → Z).

Lemma insert_desc_perm (x : A) (l : list A) :
  Permutation (insert_desc key Z.ltb x l) (x :: l).
Proof.
  induction l as [|y l IH]; simpl; [reflexivity|].
  destruct (key x <? key y); [|reflexivity].
  rewrite IH. apply perm_swap.
Qed.

Lemma sort_desc_perm (l : list A) : Permutation (sort_desc key Z.ltb l) l.
Proof.
  induction l as [|x l IH]; simpl; [reflexivity|].
  rewrite insert_desc_perm. now constructor.
Qed.

Lemma insert_desc_sorted (x : A) (l : list A) :
  StronglySorted (desc key) l → StronglySorted (desc key) (insert_desc key Z.ltb x l).
Proof.
  induction 1 as [|y l Hs IH Hy]; simpl.
  - repeat constructor.
  - destruct (Z.ltb_spec (key x) (key y)) as [Hlt|Hge].
    + constructor; [assumption|].
      rewrite Forall_forall. intros z Hz.
      rewrite insert_desc_perm in Hz.
      apply elem_of_cons in Hz as [->|Hz]; [unfold desc; lia|].
      rewrite Forall_forall in Hy. now apply Hy.
    + constructor; [now constructor|].
      constructor; [exact Hge|].
      rewrite Forall_forall in Hy |- *. intros z Hz.
      specialize (Hy z Hz). unfold desc in *. lia.
Qed.

Lemma sort_desc_sorted (l : list A) : StronglySorted (desc key) (sort_desc key Z.ltb l).
Proof.
  induction l as [|x l IH]; simpl; [constructor|].
  now apply insert_desc_sorted.
Qed.

(** An inserted element only passes elements with a strictly larger key,
    so it never overtakes one with its own key. *)
Lemma insert_desc_stable (k : Z) (x : A) (l : list A) :
  List.filter (fun a => key a =? k) (insert_desc key Z.ltb x l)
  = List.filter (fun a => key a =? k) (x :: l).
Proof.
  induction l as [|y l IH]; [reflexivity|].
  cbn [insert_desc]. destruct (Z.ltb_spec (key x) (key y)) as [Hlt|Hge]; [|reflexivity].
  cbn [List.filter] in *. rewrite IH.
  destruct (Z.eqb_spec (key x) k), (Z.eqb_spec (key y) k); try reflexivity; lia.
Qed.

Lemma sort_desc_stable (k : Z) (l : list A) :
  List.filter (fun a => key a =? k) (sort_desc key Z.ltb l)
  = List.filter (fun a => key a =? k) l.
Proof.
  induction l as [|x l IH]; [reflexivity|].
  cbn [sort_desc foldr]. rewrite insert_desc_stable.
  cbn [List.filter]. fold (sort_desc key Z.ltb l). now rewrite IH.
Qed.

Lemma sorted_lookup_desc (l : list A) (i j : nat) (a b : A) :
  StronglySorted (desc key) l → l !! i = Some a → l !! j = Some b → (i < j)%nat →
  key b <= key a.
Proof.
  intros Hs. revert i j. induction Hs as [|x l Hs IH Hx]; intros i j Hi Hj Hlt.
  - discriminate.
  - destruct j as [|j]; [lia|]. destruct i as [|i]; simpl in *.
    + injection Hi as <-. rewrite Forall_forall in Hx.
      apply Hx. eapply list_elem_of_lookup_2; eassumption.
    + apply (IH i j); [assumption..|lia].
Qed.
End StableSortFacts.

(** ** Retry eligibility *)

(** C9. [should_retry_move] answers [True] for a record with a win or a
    draw, whatever its number of attempts; [True] for a record with fewer
    than three attempts; and [False] exactly for a record with three or
    more attempts, no win and no draw. *)
Theorem should_retry_move_spec (r : MoveRecord) :
  let total := (wins r + draws r + losses r)%nat in
  ((0 < wins r)%nat ∨ (0 < draws r)%nat → should_retry_move r = true)
  ∧ ((total < 3)%nat → should_retry_move r = true)
  ∧ (should_retry_move r = false ↔ (3 <= total)%nat ∧ wins r = 0%nat ∧ draws r = 0%nat).
Proof.
  unfold should_retry_move. cbv zeta.
  destruct (Nat.ltb_spec 0 (wins r)), (Nat.ltb_spec 0 (draws r)),
    (Nat.ltb_spec (wins r + draws r + losses r) 3); cbn [orb];
    repeat split; intros; try reflexivity; try discriminate; lia.
Qed.

(** A record with three losses and nothing else is pruned; one more draw
    makes it eligible again. *)
Lemma should_retry_move_spec_witness :
  should_retry_move
    {| rec_san := "Kd1"; results := []; wins := 0; draws := 1; losses := 3;
       min_moves_to_win := PInf; min_moves_to_draw := PInt 1;
       total_captures := 0; total_material_gained := 0 |} = true.
Proof.
  destruct (should_retry_move_spec
    {| rec_san := "Kd1"; results := []; wins := 0; draws := 1; losses := 3;
       min_moves_to_win := PInf; min_moves_to_draw := PInt 1;
       total_captures := 0; total_material_gained := 0 |}) as (Hwd & _ & _).
  apply Hwd. right. simpl. lia.
Defined.

(** ** The statistics store *)

Lemma update_record_results (r : MoveRecord) result mc ti ts :
  results (update_record r result mc ti ts)
  = results r ++ [{| res_result := result; res_move_count := mc;
                     res_timestamp := ts; res_tactical_info := ti |}].
Proof.
  unfold update_record. now destruct (String.eqb result "WIN"), (String.eqb result "DRAW").
Qed.

Lemma update_record_counters (r : MoveRecord) result mc ti ts :
  counters (update_record r result mc ti ts)
  = if String.eqb result "WIN" then (S (wins r), draws r, losses r)
    else if String.eqb result "DRAW" then (wins r, S (draws r), losses r)
    else (wins r, draws r, S (losses r)).
Proof.
  unfold update_record, counters.
  now destruct (String.eqb result "WIN"), (String.eqb result "DRAW").
Qed.

Lemma update_record_ok (r : MoveRecord) result mc ti ts :
  record_ok r → record_ok (update_record r result mc ti ts).
Proof.
  unfold record_ok. intros Hr.
  pose proof (update_record_counters r result mc ti ts) as Hc.
  rewrite update_record_results, length_app. cbn [length].
  unfold counters in Hc.
  destruct (String.eqb result "WIN"), (String.eqb result "DRAW");
    injection Hc as -> -> ->; lia.
Qed.

Lemma fresh_record_ok (move_san : string) : record_ok (fresh_record move_san).
Proof. reflexivity. Qed.

Lemma bucket_lookup_set (k : string) (r : MoveRecord) (b : Bucket) :
  bucket_lookup k (bucket_set k r b) = Some r.
Proof.
  induction b as [|[k' r'] b IH]; simpl.
  - now rewrite String.eqb_refl.
  - destruct (String.eqb k k') eqn:E; simpl; rewrite E; [reflexivity|exact IH].
Qed.

Lemma bucket_lookup_Forall (P : string * MoveRecord → Prop) (k : string) (b : Bucket)
    (r : MoveRecord) :
  Forall P b → bucket_lookup k b = Some r → ∃ k', P (k', r).
Proof.
  induction 1 as [|[k' r'] b HP Hb IH]; simpl; [discriminate|].
  destruct (String.eqb k k'); [|exact IH].
  intros [= <-]. now exists k'.
Qed.

Lemma bucket_set_Forall (P : MoveRecord → Prop) (k : string) (r : MoveRecord) (b : Bucket) :
  Forall (fun kr => P kr.2) b → P r → Forall (fun kr => P kr.2) (bucket_set k r b).
Proof.
  intros Hb Hr. induction Hb as [|[k' r'] b HP Hb IH]; simpl.
  - now repeat constructor.
  - destruct (String.eqb k k'); constructor; assumption.
Qed.

Lemma record_move_result_ok (m : Memory) key move_uci move_san result mc ti ts :
  store_ok m → store_ok (record_move_result m key move_uci move_san result mc ti ts).
Proof.
  intros Hm. unfold record_move_result, store_ok.
  apply map_Forall_insert_2; [|exact Hm].
  assert (Hb : Forall (fun kr => record_ok kr.2) (default [] (m !! key))).
  { destruct (m !! key) as [b|] eqn:E; simpl; [|constructor]. exact (Hm _ _ E). }
  apply bucket_set_Forall; [exact Hb|].
  apply update_record_ok.
  destruct (bucket_lookup move_uci (default [] (m !! key))) as [r|] eqn:E; simpl.
  - destruct (bucket_lookup_Forall _ _ _ _ Hb E) as [k' Hk']. exact Hk'.
  - apply fresh_record_ok.
Qed.

Lemma replay_snoc (cs : list Recording) (c : Recording) :
  replay (cs ++ [c]) = apply_recording (replay cs) c.
Proof. unfold replay. now rewrite foldl_app. Qed.

Lemma replay_ok (cs : list Recording) : store_ok (replay cs).
Proof.
  induction cs as [|c cs IH] using rev_ind.
  - apply map_Forall_empty.
  - rewrite replay_snoc. now apply record_move_result_ok.
Qed.

Lemma stored_record_move_result (m : Memory) key move_uci move_san result mc ti ts :
  stored (record_move_result m key move_uci move_san result mc ti ts) key move_uci
  = Some (update_record (default (fresh_record move_san) (stored m key move_uci))
            result mc ti ts).
Proof.
  unfold stored, record_move_result. rewrite lookup_insert_eq. simpl.
  rewrite bucket_lookup_set. f_equal. f_equal.
  now destruct (m !! key).
Qed.

(** C7. Every record of a store built by any sequence of recordings
    satisfies [wins + draws + losses = len(results)]. One recording leaves
    under its move the record found there before (or, when there was none,
    a new one with zero counters and no results) with exactly one result
    entry appended and exactly one counter incremented: [wins] for "WIN",
    [draws] for "DRAW", [losses] for anything else. *)
Theorem record_move_result_invariant (cs : list Recording) (m : Memory)
    (key move_uci move_san result : string) (mc : Z) (ti : option TacticalInfo)
    (ts : string) :
  store_ok (replay cs)
  ∧ counters (fresh_record move_san) = (0, 0, 0)%nat
  ∧ results (fresh_record move_san) = []
  ∧ let before := default (fresh_record move_san) (stored m key move_uci) in
    ∃ after,
      stored (record_move_result m key move_uci move_san result mc ti ts) key move_uci
        = Some after
      ∧ results after
        = results before ++ [{| res_result := result; res_move_count := mc;
                                res_timestamp := ts; res_tactical_info := ti |}]
      ∧ counters after
        = if String.eqb result "WIN" then (S (wins before), draws before, losses before)
          else if String.eqb result "DRAW" then (wins before, S (draws before), losses before)
          else (wins before, draws before, S (losses before)).
Proof.
  split; [apply replay_ok|]. do 2 (split; [reflexivity|]).
  intros before. eexists. split; [apply stored_record_move_result|].
  split; [apply update_record_results|apply update_record_counters].
Qed.

(** ** Scoring *)

Lemma py_div_ok (a b : Q) : ¬ (b == 0)%Q → py_div a b = Ok (a / b)%Q.
Proof.
  intros Hb. unfold py_div. destruct (Qeq_bool b 0) eqn:E; [|reflexivity].
  apply Qeq_bool_iff in E. contradiction.
Qed.

Lemma inject_Z_pos (n : Z) : 0 < n → (0 < inject_Z n)%Q.
Proof. intros Hn. change 0%Q with (inject_Z 0). now rewrite <- Zlt_Qlt. Qed.

Lemma speed_bonus_bounds (m : PyNum) :
  min_ok m → ∃ q, speed_bonus m = Ok q ∧ (0 <= q <= 1000)%Q.
Proof.
  destruct m as [|n]; simpl; intros Hn.
  - exists 0%Q. split; [reflexivity|lra].
  - assert (Hq : (1 <= inject_Z n)%Q)
      by (change 1%Q with (inject_Z 1); now rewrite <- Zle_Qle).
    exists (1000 / inject_Z n)%Q. split; [apply py_div_ok; lra|].
    split.
    + apply Qle_shift_div_l; lra.
    + apply Qle_shift_div_r; lra.
Qed.

Lemma rate_bounds (w t : nat) :
  (0 < w <= t)%nat →
  ∃ q, py_div (inject_Z (Z.of_nat w)) (inject_Z (Z.of_nat t)) = Ok q ∧ (0 < q <= 1)%Q.
Proof.
  intros Hw.
  assert (Hwq : (0 < inject_Z (Z.of_nat w))%Q) by (apply inject_Z_pos; lia).
  assert (Hle : (inject_Z (Z.of_nat w) <= inject_Z (Z.of_nat t))%Q)
    by (rewrite <- Zle_Qle; lia).
  eexists. split; [apply py_div_ok; lra|]. split.
  - apply Qlt_shift_div_l; lra.
  - apply Qle_shift_div_r; lra.
Qed.

(** The score is a base that depends on the tier alone, plus the bonus:
    above 10000 with a win, between 5000 and 6500 with a draw and no win,
    at most 10 without either. *)
Lemma score_cases (r : MoveRecord) :
  mins_ok r →
  ∃ s base, get_move_score r = Ok s ∧ (s == base + counted_bonus r)%Q
    ∧ ((0 < wins r)%nat → (10000 < base <= 11500)%Q)
    ∧ (wins r = 0%nat → (0 < draws r)%nat → (5000 < base <= 6500)%Q)
    ∧ (wins r = 0%nat → draws r = 0%nat → (0 <= base <= 10)%Q).
Proof.
  intros [Hw Hd]. unfold get_move_score, counted_bonus, tactical_bonus. cbv zeta.
  destruct (Nat.eqb_spec (wins r + draws r + losses r) 0) as [E0|E0].
  { exists 0%Q, 0%Q. repeat split; intros; try lra; lia. }
  destruct (Nat.ltb_spec 0 (wins r)) as [Hw0|Hw0].
  { destruct (speed_bonus_bounds _ Hw) as (sb & -> & Hsb).
    destruct (rate_bounds (wins r) (wins r + draws r + losses r)) as (rt & Hrt & Hrb); [lia|].
    cbn. rewrite Hrt. cbn.
    eexists _, (10000 + sb + rt * 500)%Q. split; [reflexivity|].
    repeat split; intros; try lra; lia. }
  destruct (Nat.ltb_spec 0 (draws r)) as [Hd0|Hd0].
  { destruct (speed_bonus_bounds _ Hd) as (sb & -> & Hsb).
    destruct (rate_bounds (draws r) (wins r + draws r + losses r)) as (rt & Hrt & Hrb); [lia|].
    cbn. rewrite Hrt. cbn.
    eexists _, (5000 + sb + rt * 500)%Q. split; [reflexivity|].
    repeat split; intros; try lra; lia. }
  assert (Ht : (wins r + draws r + losses r)%nat = losses r) by lia.
  rewrite Ht in *. clear Ht.
  assert (Hl : (0 < inject_Z (Z.of_nat (losses r)))%Q) by (apply inject_Z_pos; lia).
  rewrite py_div_ok by lra. cbn.
  set (rt := (inject_Z (Z.of_nat (losses r)) / inject_Z (Z.of_nat (losses r)))%Q).
  assert (Hrt : (rt == 1)%Q) by (unfold rt; field; lra).
  rewrite (py_div_ok 100 (1 + rt * 10)) by lra. cbn.
  eexists _, (100 / (1 + rt * 10))%Q. split; [reflexivity|].
  split; [symmetry; apply Qplus_assoc|].
  repeat split; intros; try lia.
  - apply Qle_shift_div_l; lra.
  - apply Qle_shift_div_r; lra.
Qed.

(** C1 does not hold of the code. [get_move_score] adds the capture and
    material bonuses without a cap, and they overturn the tiers that its
    own comments set up ("Prioritize wins", "Then draws").
    - After one quiet win for [e2e4] and forty draws for [d2d4] with
      fifteen captures each, the move that never won scores 11505 against
      10510 for the move that won, and the best-move lookup returns [d2d4]:
      the caller does not find the winning move the memory holds.
    - After one loss for [e2e4] and twenty draws for [d2d4] that cost 3000
      in material each, the move that drew scores -495 against 100/11 for
      the move that only lost, and the lookup returns [e2e4].
    Rounding plays no part: 10510, 11505 and -495 are computed through
    integers and the exact quotients [1000/100] and [1000/200], and 100/11
    lies between 9 and 10. *)
Theorem score_tiers_overturned :
  stored tier_store start_key "e2e4" = Some tier_win
  ∧ stored tier_store start_key "d2d4" = Some tier_draw
  ∧ counters tier_win = (1, 0, 0)%nat ∧ counters tier_draw = (0, 40, 0)%nat
  ∧ (∃ s1 s2, get_move_score tier_win = Ok s1 ∧ get_move_score tier_draw = Ok s2
              ∧ (s1 == 10510)%Q ∧ (s2 == 11505)%Q ∧ (s1 < s2)%Q)
  ∧ match get_best_move_from_memory tier_store start_key with
    | Ok (Some (move_uci, move_san, move_data)) =>
        Some (move_uci, move_san, counters move_data)
    | _ => None
    end = Some ("d2d4", "d4", (0, 40, 0)%nat)
  ∧ (∃ lost drawn,
       stored costly_store start_key "e2e4" = Some lost
       ∧ stored costly_store start_key "d2d4" = Some drawn
       ∧ counters lost = (0, 0, 1)%nat ∧ counters drawn = (0, 20, 0)%nat
       ∧ ∃ sl sd, get_move_score lost = Ok sl ∧ get_move_score drawn = Ok sd
                  ∧ (sl == 100 / 11)%Q ∧ (sd == -495)%Q ∧ (sd < sl)%Q)
  ∧ match get_best_move_from_memory costly_store start_key with
    | Ok (Some (move_uci, move_san, move_data)) =>
        Some (move_uci, move_san, counters move_data)
    | _ => None
    end = Some ("e2e4", "e4", (0, 0, 1)%nat).
Proof.
  split; [vm_compute; reflexivity|]. split; [vm_compute; reflexivity|].
  split; [vm_compute; reflexivity|]. split; [vm_compute; reflexivity|].
  split.
  { eexists _, _. split; [vm_compute; reflexivity|]. split; [vm_compute; reflexivity|].
    split; [reflexivity|]. split; reflexivity. }
  split; [vm_compute; reflexivity|]. split; [|vm_compute; reflexivity].
  eexists _, _. split; [vm_compute; reflexivity|]. split; [vm_compute; reflexivity|].
  split; [vm_compute; reflexivity|]. split; [vm_compute; reflexivity|].
  eexists _, _. split; [vm_compute; reflexivity|]. split; [vm_compute; reflexivity|].
  split; [reflexivity|]. split; reflexivity.
Qed.

(** ** Best move from memory *)

Lemma Qltb_spec (a b : Q) : Qltb a b = true ↔ (a < b)%Q.
Proof.
  unfold Qltb. rewrite negb_true_iff, <- not_true_iff_false, Qle_bool_iff.
  split; [apply Qnot_le_lt|apply Qlt_not_le].
Qed.

Lemma Qltb_false (a b : Q) : Qltb a b = false ↔ (b <= a)%Q.
Proof.
  unfold Qltb. now rewrite negb_false_iff, Qle_bool_iff.
Qed.

(** What the scan returns: either nothing beat the running best, or the
    first record among those with the highest score. *)
Lemma best_move_loop_spec (items : Bucket) (best : option BestMove) (bs : Q)
    (r : option BestMove) :
  best_move_loop items best bs = Ok r →
  (r = best ∧ Forall (fun kr => ∃ s, get_move_score kr.2 = Ok s ∧ (s <= bs)%Q) items)
  ∨ (∃ move_uci data s,
       r = Some (move_uci, rec_san data, data)
       ∧ In (move_uci, data) items
       ∧ get_move_score data = Ok s ∧ (bs < s)%Q
       ∧ Forall (fun kr => ∃ s', get_move_score kr.2 = Ok s' ∧ (s' <= s)%Q) items).
Proof.
  revert best bs. induction items as [|[u d] items IH]; intros best bs; simpl.
  - intros [= <-]. left. split; [reflexivity|constructor].
  - destruct (get_move_score d) as [s| |] eqn:Es; cbn; try discriminate.
    destruct (Qltb bs s) eqn:Elt; intros Hr.
    + apply Qltb_spec in Elt.
      destruct (IH _ _ Hr) as [[-> Hall]|(u' & d' & s' & -> & Hin & Es' & Hlt & Hall)].
      * right. exists u, d, s. split; [reflexivity|]. split; [now left|].
        split; [exact Es|]. split; [exact Elt|].
        constructor; [exists s; split; [exact Es|lra]|exact Hall].
      * right. exists u', d', s'. split; [reflexivity|]. split; [now right|].
        split; [exact Es'|]. split; [lra|].
        constructor; [exists s; split; [exact Es|lra]|exact Hall].
    + apply Qltb_false in Elt.
      destruct (IH _ _ Hr) as [[-> Hall]|(u' & d' & s' & -> & Hin & Es' & Hlt & Hall)].
      * left. split; [reflexivity|].
        constructor; [exists s; split; [exact Es|exact Elt]|exact Hall].
      * right. exists u', d', s'. split; [reflexivity|]. split; [now right|].
        split; [exact Es'|]. split; [exact Hlt|].
        constructor; [exists s; split; [exact Es|lra]|exact Hall].
Qed.

(** C8, at a store the search itself produces: one trial of [Kd1] that
    lost the bishop. The position has an entry, yet the lookup returns
    [None]: the record scores [100/11 - 33], below the [-1] the scan starts
    from, so nothing is ever selected. *)
Theorem best_move_absent_with_entries :
  stored (replay [lost_bishop]) fragment_key "e1d1"
  = Some (update_record (fresh_record "Kd1") "LOSS" 12 (rc_info lost_bishop)
            (rc_time lost_bishop))
  ∧ get_best_move_from_memory (replay [lost_bishop]) fragment_key = Ok None.
Proof. split; vm_compute; reflexivity. Qed.

(** ** Attack and defense sequences *)

Section AnalyzerFacts.
Context {Board Move : Type} `{RulesEngine Board Move}.

Lemma PIECE_VALUES_bounds (t : PieceType) : 0 <= PIECE_VALUES t <= 900.
Proof. destruct t; simpl; lia. Qed.

Lemma get_captured_piece_value_bounds (board : Board) (move : Move) :
  0 <= get_captured_piece_value board move <= 900.
Proof.
  unfold get_captured_piece_value.
  destruct (negb (is_capture board move)); [lia|].
  destruct (piece_at board (to_square move)); apply PIECE_VALUES_bounds.
Qed.

(** The kinds of the entries of one move, in order. *)
Lemma attack_entries_kinds (board : Board) (move : Move) :
  map result (attack_entries board move)
  = if is_checkmate (push board move) then [r_checkmate]
    else (if is_check (push board move) then [r_check] else [])
         ++ (if is_capture board move && (0 <? get_captured_piece_value board move)
             then [r_capture] else []).
Proof.
  unfold attack_entries, is_capture_move. cbv zeta.
  destruct (is_checkmate (push board move)); [reflexivity|].
  rewrite map_app.
  destruct (is_check (push board move)), (is_capture board move); cbn [andb];
    try reflexivity;
    destruct (0 <? get_captured_piece_value board move); reflexivity.
Qed.

Lemma attack_entries_tier (board : Board) (move : Move) :
  Forall (fun s => moves s = [move] ∧ priority_in_tier s) (attack_entries board move).
Proof.
  pose proof (get_captured_piece_value_bounds board move) as Hv.
  unfold attack_entries, is_capture_move. cbv zeta.
  destruct (is_checkmate (push board move)).
  { repeat constructor. }
  apply Forall_app. split.
  - destruct (is_check (push board move)); repeat constructor;
      unfold priority_in_tier, sequence_priority; simpl; lia.
  - destruct (is_capture board move); [|constructor].
    destruct (Z.ltb_spec 0 (get_captured_piece_value board move)); repeat constructor;
      unfold priority_in_tier, sequence_priority; simpl; lia.
Qed.

Lemma calculate_attack_sequences_perm (board : Board) :
  Permutation (calculate_attack_sequences board)
              (flat_map (attack_entries board) (legal_moves board)).
Proof. apply sort_desc_perm. Qed.

Lemma calculate_attack_sequences_tier (board : Board) (s : AttackSeq Move) :
  s ∈ calculate_attack_sequences board → priority_in_tier s.
Proof.
  rewrite calculate_attack_sequences_perm.
  rewrite list_elem_of_In, in_flat_map. intros (m & _ & Hs).
  pose proof (attack_entries_tier board m) as Hall.
  rewrite Forall_forall in Hall. apply list_elem_of_In in Hs. now apply Hall.
Qed.

(** C4. In the list [calculate_attack_sequences] returns, an entry placed
    above another never is a check above a checkmate, nor a capture above a
    check (nor above a checkmate): a checkmate has priority 10000, a check
    5000 plus a gain between 0 and 900, a capture a gain between 1 and 900.
    The list is the generated entries in descending order of priority, and
    entries of equal priority keep their generation order. *)
Theorem attack_ranking_tiers (board : Board) (i j : nat) (a b : AttackSeq Move) :
  let generated := flat_map (attack_entries board) (legal_moves board) in
  let ranked := calculate_attack_sequences board in
  ranked !! i = Some a → ranked !! j = Some b → (i < j)%nat →
  ¬ (result a = r_check ∧ result b = r_checkmate)
  ∧ ¬ (result a = r_capture ∧ result b = r_check)
  ∧ ¬ (result a = r_capture ∧ result b = r_checkmate)
  ∧ priority_in_tier a ∧ priority_in_tier b
  ∧ sequence_priority b <= sequence_priority a
  ∧ StronglySorted (desc sequence_priority) ranked
  ∧ Permutation ranked generated
  ∧ ∀ k, List.filter (fun s => sequence_priority s =? k) ranked
         = List.filter (fun s => sequence_priority s =? k) generated.
Proof.
  intros generated ranked Ha Hb Hij.
  assert (Hs : StronglySorted (desc sequence_priority) ranked)
    by apply sort_desc_sorted.
  pose proof (sorted_lookup_desc _ _ _ _ _ _ Hs Ha Hb Hij) as Hle.
  assert (Hta : priority_in_tier a).
  { apply (calculate_attack_sequences_tier board). eapply list_elem_of_lookup_2, Ha. }
  assert (Htb : priority_in_tier b).
  { apply (calculate_attack_sequences_tier board). eapply list_elem_of_lookup_2, Hb. }
  unfold priority_in_tier in *.
  repeat split; try assumption.
  - intros [Ea Eb]. rewrite Ea in Hta. rewrite Eb in Htb. lia.
  - intros [Ea Eb]. rewrite Ea in Hta. rewrite Eb in Htb. lia.
  - intros [Ea Eb]. rewrite Ea in Hta. rewrite Eb in Htb. lia.
  - apply calculate_attack_sequences_perm.
  - intros k. apply sort_desc_stable.
Qed.

(** C5, as the code has it. A move that mates contributes one checkmate
    entry and nothing else. Any other move contributes a check entry if it
    gives check and, independently of that, a capture entry if it captures
    with positive gain: at most two entries, at most one of each kind, all
    naming the move; a move of none of the three kinds contributes nothing.
    The returned list consists of these entries for the legal moves. *)
Theorem attack_entries_per_move (board : Board) (move : Move) :
  let entries := attack_entries board move in
  (length entries <= 2)%nat
  ∧ NoDup (map result entries)
  ∧ Forall (fun s => moves s = [move]) entries
  ∧ map result entries
    = (if is_checkmate (push board move) then [r_checkmate]
       else (if is_check (push board move) then [r_check] else [])
            ++ (if is_capture board move && (0 <? get_captured_piece_value board move)
                then [r_capture] else []))
  ∧ Permutation (calculate_attack_sequences board)
                (flat_map (attack_entries board) (legal_moves board)).
Proof.
  intros entries.
  pose proof (attack_entries_kinds board move) as Hk. fold entries in Hk.
  assert (Hlen : length entries = length (map result entries)) by now rewrite length_map.
  split; [|split; [|split; [|split]]].
  - rewrite Hlen, Hk.
    destruct (is_checkmate (push board move)); [simpl; lia|].
    destruct (is_check (push board move)),
      (is_capture board move && (0 <? get_captured_piece_value board move));
      simpl; lia.
  - rewrite Hk.
    assert (Hnd : ∀ l : list AttackResult,
               bool_decide (NoDup l) = true → NoDup l)
      by (intros l Hl; now apply bool_decide_eq_true in Hl).
    destruct (is_checkmate (push board move)); [now apply Hnd|].
    destruct (is_check (push board move)),
      (is_capture board move && (0 <? get_captured_piece_value board move));
      now apply Hnd.
  - eapply Forall_impl; [apply attack_entries_tier|]. now intros s [Hm _].
  - exact Hk.
  - apply calculate_attack_sequences_perm.
Qed.

(** What the code stores as [removes_check]: the side to move was in check
    before the move, and the side to move after it, the opponent, is not. *)
Lemma removes_check_defense_entry (play_as_white : bool) (board : Board) (move : Move) :
  removes_check (defense_entry play_as_white board move)
  = is_check board && negb (is_check (push board move)).
Proof. unfold defense_entry. simpl. now destruct (is_check board). Qed.
End AnalyzerFacts.

(** ** The simulator *)

Section SimulatorFacts.
Context {Board Move : Type} `{RulesEngine Board Move}.
Variable play_as_white : bool.
Variable max_depth : Z.
Variable engine : option (Board → option Move).
Variable self_board : Board.

(** The loop leaves through its condition or a [break] before the fuel is
    used up, as soon as the fuel covers the plies left below the cap; the
    ply count never decreases and never passes the cap. *)
Lemma sim_loop_enough_fuel (fuel : nat) (st : SimState) :
  (Z.to_nat (max_depth - move_count st) <= fuel)%nat →
  ∃ st', sim_loop play_as_white max_depth engine fuel st = Some st'
         ∧ move_count st <= move_count st'
         ∧ move_count st' <= Z.max (move_count st) max_depth.
Proof.
  revert st. induction fuel as [|fuel IH]; intros st Hfuel; cbn [sim_loop].
  - destruct (Z.ltb_spec (move_count st) max_depth) as [Hlt|Hge]; [lia|].
    rewrite andb_false_r. exists st. split; [reflexivity|lia].
  - destruct (negb (is_game_over (sim_board st)) && (move_count st <? max_depth)) eqn:Hc.
    + apply andb_true_iff in Hc as [_ Hlt]. apply Z.ltb_lt in Hlt.
      destruct (sim_body play_as_white engine st) as [board ti g|].
      * destruct (IH {| sim_board := board; move_count := move_count st + 1;
                        tactical_info := ti; sim_rng := g |}) as (st' & Hst' & Hlo & Hhi).
        { simpl. lia. }
        simpl in Hlo, Hhi. exists st'. split; [exact Hst'|lia].
      * exists st. split; [reflexivity|lia].
    + exists st. split; [reflexivity|lia].
Qed.

(** C10. With a depth cap of at least 1, a simulation ends, whatever the
    position, the first move, the random draws and the engine (absent,
    answering, or failing at every query, in which case a random legal move
    is played): fuel for the plies below the cap is enough for the loop to
    leave by itself, and the ply count returned lies between 1 and the
    cap. *)
Theorem simulate_terminates_within_cap (first_move : Move) (g : Rng) (fuel : nat) :
  1 <= max_depth →
  (Z.to_nat (max_depth - 1) <= fuel)%nat →
  (∃ st, sim_final play_as_white max_depth engine self_board fuel first_move g = Some st
         ∧ 1 <= move_count st <= max_depth)
  ∧ (∃ res mc ti g',
       simulate_tactical_game play_as_white max_depth engine self_board first_move g
       = Some (res, mc, ti, g')
       ∧ 1 <= mc <= max_depth).
Proof.
  intros Hcap Hfuel. split.
  - destruct (sim_loop_enough_fuel fuel (sim_start self_board first_move g))
      as (st & Hst & Hlo & Hhi); [simpl; lia|].
    simpl in Hlo, Hhi. exists st. split; [exact Hst|lia].
  - destruct (sim_loop_enough_fuel (Z.to_nat max_depth) (sim_start self_board first_move g))
      as (st & Hst & Hlo & Hhi); [simpl; lia|].
    simpl in Hlo, Hhi. unfold simulate_tactical_game, sim_final. rewrite Hst.
    eexists _, _, _, _. split; [reflexivity|]. simpl. lia.
Qed.

(** A simulation returns for every depth cap: the fuel
    [simulate_tactical_game] hands to the loop is never used up. *)
Lemma simulate_tactical_game_total (first_move : Move) (g : Rng) :
  ∃ st,
    sim_final play_as_white max_depth engine self_board (Z.to_nat max_depth) first_move g
    = Some st
    ∧ simulate_tactical_game play_as_white max_depth engine self_board first_move g
      = Some (sim_result play_as_white self_board first_move st).
Proof.
  destruct (sim_loop_enough_fuel (Z.to_nat max_depth) (sim_start self_board first_move g))
    as (st & Hst & _); [simpl; lia|].
  exists st. unfold simulate_tactical_game, sim_final. now rewrite Hst.
Qed.

(** C3. The outcome of a simulation is read off the position the loop
    ends in. Checkmate is tested first: "WIN" when the side that delivered
    mate is the learner's color, "LOSS" when it is the other side. Without
    checkmate (python-chess reports none of the draw conditions together
    with it) the outcome is "DRAW": for stalemate, insufficient material,
    the fifty-move rule and repetition, and equally when the depth cap was
    reached or anything else ended the loop. So "LOSS" is returned only
    when the learner is the side checkmated. *)
Theorem simulation_outcome (first_move : Move) (g : Rng) :
  ∃ st res ti,
    sim_final play_as_white max_depth engine self_board (Z.to_nat max_depth) first_move g
    = Some st
    ∧ simulate_tactical_game play_as_white max_depth engine self_board first_move g
      = Some (res, move_count st, ti, sim_rng st)
    ∧ let final := sim_board st in
      let mating_side := negb (turn final) in
      (is_checkmate final = true → mating_side = our_color play_as_white → res = "WIN")
      ∧ (is_checkmate final = true → mating_side ≠ our_color play_as_white → res = "LOSS")
      ∧ (is_checkmate final = false →
         is_stalemate final || is_insufficient_material final
         || is_fifty_moves final || is_repetition final = true →
         res = "DRAW")
      ∧ (is_checkmate final = false → max_depth <= move_count st → res = "DRAW")
      ∧ (is_checkmate final = false → res = "DRAW")
      ∧ (res = "LOSS" → is_checkmate final = true ∧ turn final = our_color play_as_white).
Proof.
  destruct (simulate_tactical_game_total first_move g) as (st & Hst & Hrun).
  exists st. eexists _, _. split; [exact Hst|]. split; [exact Hrun|].
  unfold classify_result, our_color, WHITE, BLACK. cbv zeta.
  destruct (is_checkmate (sim_board st)), (turn (sim_board st)), play_as_white,
    (is_stalemate (sim_board st) || is_insufficient_material (sim_board st)
     || is_fifty_moves (sim_board st) || is_repetition (sim_board st));
    cbn; repeat split; intros; try reflexivity; try discriminate; congruence.
Qed.
End SimulatorFacts.

(** ** The search loop *)

Lemma ends_bind {A B : Type} (c : Py A) (f : A → Py B) :
  ends c → (∀ a, ends (f a)) → ends (c ≫= f).
Proof. destruct c; cbn; [intros _ Hf; apply Hf|intros _ _; discriminate|intros Hc; contradiction]. Qed.

Lemma ends_py_div (a b : Q) : ends (py_div a b).
Proof. unfold py_div. now destruct (Qeq_bool b 0). Qed.

Lemma ends_speed_bonus (m : PyNum) : ends (speed_bonus m).
Proof. destruct m; [discriminate|apply ends_py_div]. Qed.

Lemma ends_get_move_score (r : MoveRecord) : ends (get_move_score r).
Proof.
  unfold get_move_score. cbv zeta.
  destruct (Nat.eqb _ 0); [discriminate|].
  apply ends_bind; [|discriminate].
  destruct (Nat.ltb 0 (wins r)); [|destruct (Nat.ltb 0 (draws r))].
  - apply ends_bind; [apply ends_speed_bonus|]. intros sb.
    apply ends_bind; [apply ends_py_div|discriminate].
  - apply ends_bind; [apply ends_speed_bonus|]. intros sb.
    apply ends_bind; [apply ends_py_div|discriminate].
  - apply ends_bind; [apply ends_py_div|]. intros lr. apply ends_py_div.
Qed.

Lemma ends_score_keys (l : Bucket) : ends (score_keys l).
Proof.
  induction l as [|x l IH]; [discriminate|]. cbn [score_keys].
  apply ends_bind; [apply ends_get_move_score|]. intros k.
  apply ends_bind; [exact IH|discriminate].
Qed.

Lemma ends_memory_get (m : Memory) (k u : string) : ends (memory_get m k u).
Proof. unfold memory_get. destruct (m !! k) as [b|]; [|discriminate]. now destruct (bucket_lookup u b). Qed.


Section SearchFacts.
Context {Board Move : Type} `{RulesEngine Board Move} `{EqDecision Move}.
Variable play_as_white : bool.
Variable max_depth : Z.
Variable engine : option (Board → option Move).
Variable self_board : Board.
Variable now : Z → string.
Variable max_strength : Z.

Lemma ends_choose_move (st : SearchState) : ends (choose_move play_as_white self_board st).
Proof.
  unfold choose_move. cbv zeta.
  destruct (priority_moves st) as [|p ps], (get_untried_moves play_as_white self_board (memory st)) as [|u0 us].
  all: repeat match goal with
       | |- ends (match ?x with _ => _ end) => destruct x
       | |- ends (let '(_, _) := ?x in _) => destruct x
       | |- ends (_ ≫= _) => apply ends_bind; [apply ends_score_keys|intros ?]
       end; try discriminate.
Qed.

Lemma ends_track_best_draw (m : Memory) best (move_san move_uci : string) :
  ends (track_best_draw play_as_white self_board m best move_san move_uci).
Proof.
  unfold track_best_draw. cbv zeta.
  apply ends_bind; [now destruct best|]. intros [[bs bu]|]; [|discriminate].
  apply ends_bind; [apply ends_memory_get|]. intros cd.
  apply ends_bind; [apply ends_memory_get|]. intros bd.
  now destruct (_ <? _).
Qed.

(** The budget is all the fuel the loop needs: it ends, by a return, an
    exception or falling through, for every state whose remaining attempts
    the fuel covers. *)
Lemma ends_search_loop (fuel : nat) (st : SearchState) :
  (Z.to_nat (max_strength - attempts st) <= fuel)%nat →
  ends (search_loop play_as_white max_depth engine self_board now max_strength fuel st).
Proof.
  revert st. induction fuel as [|fuel IH]; intros st Hfuel; cbn [search_loop].
  - destruct (Z.ltb_spec (attempts st) max_strength); [lia|discriminate].
  - destruct (Z.ltb_spec (attempts st) max_strength) as [Hlt|Hge]; [|discriminate].
    apply ends_bind; [apply ends_choose_move|].
    intros [[[move pm] g]|]; [|discriminate].
    destruct (simulate_tactical_game_total play_as_white max_depth engine self_board move g)
      as (sim & _ & ->).
    unfold sim_result.
    destruct (String.eqb _ "WIN").
    + apply ends_bind; [apply ends_memory_get|discriminate].
    + apply ends_bind.
      * destruct (String.eqb _ "DRAW"); [apply ends_track_best_draw|discriminate].
      * intros bd. apply IH. simpl. lia.
Qed.

(** [find_winning_move] ends for every position, color, budget and
    memory. *)
Lemma ends_find_winning_move (memory0 : Memory) (g : Rng) :
  ends (find_winning_move play_as_white max_depth engine self_board now max_strength
          memory0 g).
Proof.
  unfold find_winning_move. cbv zeta.
  apply ends_bind.
  { unfold get_best_move_from_memory.
    destruct (memory0 !! _) as [[|x b]|]; try discriminate.
    generalize (x :: b) (@None BestMove) (-1)%Q.
    induction l as [|[u d] l IHl]; intros best bs; [discriminate|].
    cbn [best_move_loop]. apply ends_bind; [apply ends_get_move_score|].
    intros sc. destruct (Qltb bs sc); apply IHl. }
  intros best. destruct (consult_memory _ _) as [san|bd]; [discriminate|].
  apply ends_bind; [apply ends_search_loop; simpl; lia|].
  intros [san mem|st]; [discriminate|].
  apply ends_bind; [now destruct (best_draw st)|].
  now intros [[san uci]|].
Qed.

(** Once [best_draw] is unbound at the head of the loop it stays unbound:
    the only assignments sit behind the test [if not best_draw], which
    raises. The loop then ends by a win, by an exception, or by falling
    through with [best_draw] still unbound. *)
Lemma search_loop_keeps_unbound (fuel : nat) (st : SearchState) (exit : SearchExit) :
  best_draw st = Unbound →
  search_loop play_as_white max_depth engine self_board now max_strength fuel st = Ok exit →
  match exit with
  | Fell st' => best_draw st' = Unbound
  | Returned _ _ => True
  end.
Proof.
  revert st. induction fuel as [|fuel IH]; intros st Hst; cbn [search_loop].
  - destruct (attempts st <? max_strength); [discriminate|].
    intros [= <-]. exact Hst.
  - destruct (attempts st <? max_strength); [|intros [= <-]; exact Hst].
    destruct (choose_move play_as_white self_board st) as [[[[move pm] g]|]| |];
      cbn; try discriminate.
    + destruct (simulate_tactical_game play_as_white max_depth engine self_board move g)
        as [[[[res mc] ti] g']|]; [|discriminate].
      destruct (String.eqb res "WIN").
      * destruct (memory_get _ _ _); cbn; try discriminate.
        intros [= <-]. exact I.
      * destruct (String.eqb res "DRAW").
        -- rewrite Hst. cbn. discriminate.
        -- cbn. apply IH. exact Hst.
    + intros [= <-]. exact Hst.
Qed.

(** When the memory step leaves [best_draw] unbound, the only way
    [find_winning_move] returns at all is a win found inside the loop:
    a draw, an exhausted budget and an early [break] all end in an
    exception. *)
Lemma find_winning_move_unbound (memory0 : Memory) (g : Rng) (best : option BestMove)
    (out : option string * Memory) :
  get_best_move_from_memory memory0 (_get_position_key play_as_white self_board) = Ok best →
  consult_memory
    (recommended_strategy (analyze_position_before_move play_as_white self_board)) best
  = inr Unbound →
  find_winning_move play_as_white max_depth engine self_board now max_strength memory0 g
  = Ok out →
  ∃ move_san st,
    search_loop play_as_white max_depth engine self_board now max_strength
      (Z.to_nat max_strength) st = Ok (Returned move_san out.2)
    ∧ out.1 = Some move_san.
Proof.
  intros Hbest Hconsult. unfold find_winning_move. cbv zeta.
  rewrite Hbest. cbn. rewrite Hconsult.
  match goal with
  | |- context [search_loop ?a ?b ?c ?d ?e ?f ?n ?st] =>
      destruct (search_loop a b c d e f n st) as [[san mem|st']| |] eqn:Hloop
  end; cbn; try discriminate.
  - intros [= <-]. eexists san, _. split; [exact Hloop|reflexivity].
  - apply search_loop_keeps_unbound in Hloop; [|reflexivity].
    rewrite Hloop. cbn. discriminate.
Qed.
End SearchFacts.

(** ** The store under recordings *)

Lemma bucket_lookup_set_ne (k k' : string) (r : MoveRecord) (b : Bucket) :
  k' ≠ k → bucket_lookup k' (bucket_set k r b) = bucket_lookup k' b.
Proof.
  intros Hne. induction b as [|[k0 r0] b IH]; simpl.
  - destruct (String.eqb_spec k' k); [contradiction|reflexivity].
  - destruct (String.eqb_spec k k0) as [->|Hk0]; simpl.
    + destruct (String.eqb_spec k' k0); [contradiction|reflexivity].
    + destruct (String.eqb k' k0); [reflexivity|exact IH].
Qed.

Lemma bucket_set_keys (k : string) (r : MoveRecord) (b : Bucket) :
  map fst (bucket_set k r b)
  = if existsb (String.eqb k) (map fst b) then map fst b else map fst b ++ [k].
Proof.
  induction b as [|[k0 r0] b IH]; simpl; [reflexivity|].
  destruct (String.eqb k k0) eqn:E; simpl; [reflexivity|].
  rewrite IH. now destruct (existsb (String.eqb k) (map fst b)).
Qed.

Lemma record_move_result_all (P : MoveRecord → Prop) (m : Memory)
    key move_uci move_san result mc ti ts :
  P (update_record (fresh_record move_san) result mc ti ts) →
  (∀ r, P r → P (update_record r result mc ti ts)) →
  store_all P m →
  store_all P (record_move_result m key move_uci move_san result mc ti ts).
Proof.
  intros Hfresh Hstep Hm. unfold record_move_result, store_all.
  apply map_Forall_insert_2; [|exact Hm].
  assert (Hb : Forall (fun kr => P kr.2) (default [] (m !! key))).
  { destruct (m !! key) as [b|] eqn:E; simpl; [|constructor]. exact (Hm _ _ E). }
  apply bucket_set_Forall; [exact Hb|].
  destruct (bucket_lookup move_uci (default [] (m !! key))) as [r|] eqn:E; simpl.
  - destruct (bucket_lookup_Forall _ _ _ _ Hb E) as [k' Hk']. now apply Hstep.
  - exact Hfresh.
Qed.

Lemma store_all_stored (P : MoveRecord → Prop) (m : Memory) key move_uci r :
  store_all P m → stored m key move_uci = Some r → P r.
Proof.
  unfold stored. intros Hm Hs. destruct (m !! key) as [b|] eqn:E; [|discriminate].
  simpl in Hs. destruct (bucket_lookup_Forall _ _ _ _ (Hm _ _ E) Hs) as [k' Hk'].
  exact Hk'.
Qed.

Lemma replay_all (P : MoveRecord → Prop) (cs : list Recording) :
  (∀ c, c ∈ cs →
        P (update_record (fresh_record (rc_san c)) (rc_result c) (rc_move_count c)
             (rc_info c) (rc_time c))
        ∧ ∀ r, P r → P (update_record r (rc_result c) (rc_move_count c)
                          (rc_info c) (rc_time c))) →
  store_all P (replay cs).
Proof.
  induction cs as [|c cs IH] using rev_ind; intros Hcs.
  - apply map_Forall_empty.
  - rewrite replay_snoc. unfold apply_recording.
    destruct (Hcs c) as [Hf Hs]; [apply elem_of_app; right; constructor|].
    apply record_move_result_all; [exact Hf|exact Hs|].
    apply IH. intros c' Hc'. apply Hcs. apply elem_of_app. now left.
Qed.

Lemma stored_record_move_result_other (m : Memory)
    (key move_uci move_san result : string) (mc : Z) (ti : option TacticalInfo)
    (ts : string) (key' move_uci' : string) :
  key' ≠ key ∨ move_uci' ≠ move_uci →
  stored (record_move_result m key move_uci move_san result mc ti ts) key' move_uci'
  = stored m key' move_uci'.
Proof.
  intros Hne. unfold record_move_result, stored.
  destruct (decide (key' = key)) as [->|Hk].
  - destruct Hne as [Hne|Hne]; [contradiction|].
    rewrite lookup_insert_eq. simpl. rewrite bucket_lookup_set_ne by exact Hne.
    now destruct (m !! key).
  - now rewrite lookup_insert_ne.
Qed.

(** X1. Recording an outcome for one move of one position leaves the
    record of every other move, and of every other position, as it was;
    inside the bucket the moves keep their order, a new move going last. *)
Theorem record_move_result_frame (m : Memory)
    (key move_uci move_san result : string) (mc : Z) (ti : option TacticalInfo)
    (ts : string) (key' move_uci' : string) :
  let m' := record_move_result m key move_uci move_san result mc ti ts in
  (key' ≠ key ∨ move_uci' ≠ move_uci → stored m' key' move_uci' = stored m key' move_uci')
  ∧ (key' ≠ key → m' !! key' = m !! key')
  ∧ map fst (default [] (m' !! key))
    = if existsb (String.eqb move_uci) (map fst (default [] (m !! key)))
      then map fst (default [] (m !! key))
      else map fst (default [] (m !! key)) ++ [move_uci].
Proof.
  intros m'. unfold m'. split; [|split].
  - apply stored_record_move_result_other.
  - intros Hk. unfold record_move_result. now rewrite lookup_insert_ne.
  - unfold record_move_result. rewrite lookup_insert_eq. simpl. apply bucket_set_keys.
Qed.

(** A draw recorded for [d2d4] in the starting position leaves the record
    of [e2e4] and the bucket of the fragment's position as they were. *)
Lemma record_move_result_frame_witness :
  stored (record_move_result (replay [quiet_win]) start_key "d2d4" "d4" "DRAW" 200 None "")
         start_key "e2e4"
  = stored (replay [quiet_win]) start_key "e2e4"
  ∧ record_move_result (replay [quiet_win]) start_key "d2d4" "d4" "DRAW" 200 None ""
      !! fragment_key
    = replay [quiet_win] !! fragment_key.
Proof.
  split.
  - refine (proj1 (record_move_result_frame (replay [quiet_win]) start_key "d2d4" "d4"
                     "DRAW" 200 None "" start_key "e2e4") _).
    right. intros [=].
  - refine (proj1 (proj2 (record_move_result_frame (replay [quiet_win]) start_key "d2d4"
                            "d4" "DRAW" 200 None "" fragment_key "e2e4")) _).
    intros [=].
Defined.

Lemma update_record_san (r : MoveRecord) result mc ti ts :
  rec_san (update_record r result mc ti ts) = rec_san r.
Proof.
  unfold update_record. now destruct (String.eqb result "WIN"), (String.eqb result "DRAW").
Qed.

Lemma update_record_mins (r : MoveRecord) result mc ti ts :
  min_moves_to_win (update_record r result mc ti ts)
  = (if String.eqb result "WIN" then py_min (min_moves_to_win r) mc
     else min_moves_to_win r)
  ∧ min_moves_to_draw (update_record r result mc ti ts)
    = (if String.eqb result "WIN" then min_moves_to_draw r
       else if String.eqb result "DRAW" then py_min (min_moves_to_draw r) mc
       else min_moves_to_draw r).
Proof.
  unfold update_record. now destruct (String.eqb result "WIN"), (String.eqb result "DRAW").
Qed.

Lemma update_record_totals (r : MoveRecord) result mc ti ts :
  total_captures (update_record r result mc ti ts)
  = match ti with
    | Some i => (total_captures r + length (captures_by_us i))%nat
    | None => total_captures r
    end
  ∧ total_material_gained (update_record r result mc ti ts)
    = match ti with
      | Some i => total_material_gained r + material_balance_change i
      | None => total_material_gained r
      end.
Proof.
  unfold update_record. now destruct (String.eqb result "WIN"), (String.eqb result "DRAW").
Qed.

Lemma count_result_snoc (s : string) (rs : list ResultEntry) (e : ResultEntry) :
  count_result s (rs ++ [e])
  = (count_result s rs + if String.eqb (res_result e) s then 1 else 0)%nat.
Proof.
  unfold count_result. rewrite List.filter_app, length_app. simpl.
  now destruct (String.eqb (res_result e) s).
Qed.

Lemma count_other_snoc (rs : list ResultEntry) (e : ResultEntry) :
  count_other (rs ++ [e])
  = (count_other rs + if negb (String.eqb (res_result e) "WIN")
                         && negb (String.eqb (res_result e) "DRAW")
                      then 1 else 0)%nat.
Proof.
  unfold count_other. rewrite List.filter_app, length_app. simpl.
  now destruct (negb _ && negb _).
Qed.

Lemma update_record_aggregates (r : MoveRecord) result mc ti ts :
  aggregates_ok r → aggregates_ok (update_record r result mc ti ts).
Proof.
  intros (Hw & Hd & Hl & Hmw & Hmd & Hc & Hm).
  pose proof (update_record_counters r result mc ti ts) as Hcnt.
  destruct (update_record_mins r result mc ti ts) as [Emw Emd].
  destruct (update_record_totals r result mc ti ts) as [Ec Em].
  unfold aggregates_ok, counters in *.
  rewrite update_record_results, !count_result_snoc, count_other_snoc.
  unfold least_plies, sum_captures, sum_material. rewrite !foldl_app. cbn [foldl].
  fold (least_plies "WIN" (results r)) (least_plies "DRAW" (results r))
       (sum_captures (results r)) (sum_material (results r)).
  rewrite Emw, Emd, Ec, Em, <- Hmw, <- Hmd, <- Hc, <- Hm, <- Hw, <- Hd, <- Hl.
  cbn [res_result res_move_count res_tactical_info].
  assert (Hwd : String.eqb result "WIN" = true → String.eqb result "DRAW" = false).
  { intros E. apply String.eqb_eq in E. now subst. }
  destruct (String.eqb result "WIN"); [rewrite Hwd by reflexivity|];
    [|destruct (String.eqb result "DRAW")];
    injection Hcnt as -> -> ->; cbn; destruct ti; repeat split; lia.
Qed.

Lemma update_record_mins_match (r : MoveRecord) result mc ti ts :
  mins_match r → mins_match (update_record r result mc ti ts).
Proof.
  intros [Hw Hd].
  pose proof (update_record_counters r result mc ti ts) as Hcnt.
  destruct (update_record_mins r result mc ti ts) as [Emw Emd].
  unfold mins_match, counters in *. rewrite Emw, Emd.
  destruct (String.eqb result "WIN"); [|destruct (String.eqb result "DRAW")];
    injection Hcnt as Ew Ed _; rewrite Ew, Ed; (split; [|]); try assumption;
    (split; [destruct (min_moves_to_win r), (min_moves_to_draw r); discriminate|discriminate]).
Qed.

(** X2. In a store built by recordings every aggregate field of a record
    can be recomputed from its list of results: [wins], [draws] and
    [losses] count the entries by result, the two minima are the least ply
    counts among the wins and among the draws (infinite exactly when there
    is none), and the two totals sum the captures and the material swings
    of the entries. *)
Theorem aggregates_from_results (cs : list Recording) (key move_uci : string)
    (r : MoveRecord) :
  stored (replay cs) key move_uci = Some r →
  aggregates_ok r ∧ mins_match r.
Proof.
  intros Hr. split.
  - apply (store_all_stored aggregates_ok (replay cs) key move_uci); [|exact Hr].
    apply replay_all. intros c _. split.
    + apply update_record_aggregates. now repeat split.
    + intros r'. apply update_record_aggregates.
  - apply (store_all_stored mins_match (replay cs) key move_uci); [|exact Hr].
    apply replay_all. intros c _. split.
    + apply update_record_mins_match. now split.
    + intros r'. apply update_record_mins_match.
Qed.

Lemma aggregates_from_results_witness :
  aggregates_ok tier_draw ∧ mins_match tier_draw.
Proof.
  apply (aggregates_from_results (quiet_win :: repeat busy_draw 40) start_key "d2d4").
  vm_compute. reflexivity.
Defined.

(** X3. The notation of a move is captured once: a recording for a move
    that already has a record keeps the notation stored with it, whatever
    notation is passed; only a first recording stores the one it is
    given. *)
Theorem notation_captured_once (m : Memory)
    (key move_uci move_san result : string) (mc : Z) (ti : option TacticalInfo)
    (ts : string) :
  ∃ after,
    stored (record_move_result m key move_uci move_san result mc ti ts) key move_uci
    = Some after
    ∧ rec_san after
      = match stored m key move_uci with
        | Some before => rec_san before
        | None => move_san
        end.
Proof.
  eexists. split; [apply stored_record_move_result|].
  rewrite update_record_san. now destruct (stored m key move_uci).
Qed.

(** ** Scores of recorded moves *)

Lemma py_min_ok (a : PyNum) (n : Z) : min_ok a → 1 <= n → min_ok (py_min a n).
Proof. destruct a; simpl; lia. Qed.

Lemma update_record_mins_ok (r : MoveRecord) result mc ti ts :
  1 <= mc → mins_ok r → mins_ok (update_record r result mc ti ts).
Proof.
  intros Hmc [Hw Hd]. destruct (update_record_mins r result mc ti ts) as [Emw Emd].
  unfold mins_ok. rewrite Emw, Emd.
  destruct (String.eqb result "WIN"), (String.eqb result "DRAW");
    split; try assumption; now apply py_min_ok.
Qed.

Lemma score_defined (r : MoveRecord) : mins_ok r → ∃ s, get_move_score r = Ok s.
Proof. intros Hr. destruct (score_cases r Hr) as (s & _ & Hs & _). now exists s. Qed.

Lemma best_move_loop_defined (items : Bucket) (best : option BestMove) (bs : Q) :
  Forall (fun kr => ∃ s, get_move_score kr.2 = Ok s) items →
  ∃ b, best_move_loop items best bs = Ok b.
Proof.
  intros Hall. revert best bs.
  induction Hall as [|[u d] items [s Hs] _ IH]; intros best bs; simpl.
  - now eexists.
  - simpl in Hs. rewrite Hs. cbn. destruct (Qltb bs s); apply IH.
Qed.

(** X4. On a store built by recordings whose ply counts are at least 1, as
    the simulator returns them, scoring never divides by zero: every stored
    record has a score, and the best-move lookup returns for every key. *)
Theorem replayed_scores_defined (cs : list Recording) (key : string) :
  Forall (fun c => 1 <= rc_move_count c) cs →
  (∀ move_uci r, stored (replay cs) key move_uci = Some r →
                 ∃ s, get_move_score r = Ok s)
  ∧ ∃ best, get_best_move_from_memory (replay cs) key = Ok best.
Proof.
  intros Hcs.
  assert (Hall : store_all mins_ok (replay cs)).
  { apply replay_all. intros c Hc. rewrite Forall_forall in Hcs. specialize (Hcs c Hc).
    split; [|intros r]; apply update_record_mins_ok; try assumption. now split. }
  split.
  - intros move_uci r Hr. apply score_defined.
    exact (store_all_stored mins_ok _ _ _ _ Hall Hr).
  - unfold get_best_move_from_memory.
    destruct (replay cs !! key) as [[|x b]|] eqn:E; try (now eexists).
    apply best_move_loop_defined.
    eapply Forall_impl; [exact (Hall _ _ E)|]. intros kr. apply score_defined.
Qed.

Lemma replayed_scores_defined_witness :
  ∃ best, get_best_move_from_memory tier_store start_key = Ok best.
Proof.
  refine (proj2 (replayed_scores_defined (quiet_win :: repeat busy_draw 40) start_key _)).
  apply Forall_forall. intros c Hc.
  apply elem_of_cons in Hc as [->|Hc]; [vm_compute; discriminate|].
  apply list_elem_of_In, repeat_spec in Hc. subst. vm_compute. discriminate.
Defined.

(** The score of a record with a win, spelled out. *)
Lemma score_with_win (r : MoveRecord) (sb : Q) :
  (0 < wins r)%nat → speed_bonus (min_moves_to_win r) = Ok sb →
  get_move_score r
  = Ok (10000 + sb
        + inject_Z (Z.of_nat (wins r))
          / inject_Z (Z.of_nat (wins r + draws r + losses r)) * 500
        + capture_bonus r + material_bonus r)%Q.
Proof.
  intros Hw Hsb. unfold get_move_score. cbv zeta.
  destruct (Nat.eqb_spec (wins r + draws r + losses r) 0); [lia|].
  destruct (Nat.ltb_spec 0 (wins r)); [|lia].
  rewrite Hsb. cbn. rewrite py_div_ok; [reflexivity|].
  assert (0 < inject_Z (Z.of_nat (wins r + draws r + losses r)))%Q
    by (apply inject_Z_pos; lia).
  lra.
Qed.

Lemma inverse_antitone (n1 n2 : Z) :
  1 <= n1 < n2 → (1000 / inject_Z n2 < 1000 / inject_Z n1)%Q.
Proof.
  intros Hn. destruct n1 as [|p1|p1], n2 as [|p2|p2]; try lia.
  unfold Qlt, Qdiv, Qmult, Qinv. simpl. lia.
Qed.

Lemma rate_monotone (a c k : nat) :
  (0 < a <= c)%nat →
  (inject_Z (Z.of_nat a) / inject_Z (Z.of_nat (a + k))
   <= inject_Z (Z.of_nat c) / inject_Z (Z.of_nat (c + k)))%Q.
Proof.
  intros Hac.
  assert (Ha : (0 < inject_Z (Z.of_nat (a + k)))%Q) by (apply inject_Z_pos; lia).
  assert (Hc : (0 < inject_Z (Z.of_nat (c + k)))%Q) by (apply inject_Z_pos; lia).
  apply Qle_shift_div_l; [exact Hc|].
  unfold Qdiv. rewrite <- Qmult_assoc, (Qmult_comm (/ _)), Qmult_assoc.
  apply Qle_shift_div_r; [exact Ha|].
  rewrite <- !inject_Z_mult, <- Zle_Qle. nia.
Qed.

(** X5. Among records with a win, a faster fastest win never scores
    lower, everything else being equal. (Over the rationals the score is
    strictly higher; the code computes in binary64, where two speed bonuses
    can round to the same number, so only the weak ordering is stated.) *)
Theorem faster_win_scores_higher (r : MoveRecord) (n1 n2 : Z) :
  (0 < wins r)%nat → 1 <= n1 <= n2 →
  ∃ s1 s2,
    get_move_score (with_min_win (PInt n1) r) = Ok s1
    ∧ get_move_score (with_min_win (PInt n2) r) = Ok s2
    ∧ (s2 <= s1)%Q.
Proof.
  intros Hw Hn.
  assert (H1 : (0 < inject_Z n1)%Q) by (apply inject_Z_pos; lia).
  assert (H2 : (0 < inject_Z n2)%Q) by (apply inject_Z_pos; lia).
  eexists _, _. split; [|split].
  - apply score_with_win; [exact Hw|]. simpl. apply py_div_ok. lra.
  - apply score_with_win; [exact Hw|]. simpl. apply py_div_ok. lra.
  - assert (Hinv : (1000 / inject_Z n2 <= 1000 / inject_Z n1)%Q).
    { destruct (Z.eq_dec n1 n2) as [->|Hne]; [apply Qle_refl|].
      apply Qlt_le_weak, inverse_antitone. lia. }
    unfold capture_bonus, material_bonus. cbn [with_min_win wins draws losses
      total_captures total_material_gained min_moves_to_win].
    revert Hinv.
    generalize (1000 / inject_Z n1)%Q (1000 / inject_Z n2)%Q
      (inject_Z (Z.of_nat (wins r))
       / inject_Z (Z.of_nat (wins r + draws r + losses r)))%Q
      (inject_Z (Z.of_nat (total_captures r) * 10))
      (inject_Z (total_material_gained r) / 10)%Q.
    intros x1 x2 rt cb mb Hinv. lra.
Qed.

(** A fastest win in 7 plies against one in 100 plies. *)
Lemma faster_win_scores_higher_witness :
  ∃ s1 s2,
    get_move_score (with_min_win (PInt 7) tier_win) = Ok s1
    ∧ get_move_score (with_min_win (PInt 100) tier_win) = Ok s2
    ∧ (s2 <= s1)%Q.
Proof.
  apply (faster_win_scores_higher tier_win 7 100).
  - vm_compute. lia.
  - lia.
Defined.

(** [should_retry_move] by cases on the counters. *)
Lemma should_retry_move_cases (r : MoveRecord) :
  ((0 < wins r)%nat ∨ (0 < draws r)%nat ∨ (wins r + draws r + losses r < 3)%nat
   → should_retry_move r = true)
  ∧ (wins r = 0%nat ∧ draws r = 0%nat ∧ (3 <= wins r + draws r + losses r)%nat
     → should_retry_move r = false).
Proof.
  unfold should_retry_move. cbv zeta.
  destruct (Nat.ltb_spec 0 (wins r)), (Nat.ltb_spec 0 (draws r)),
    (Nat.ltb_spec (wins r + draws r + losses r) 3); cbn [orb];
    split; intros; try reflexivity; lia.
Qed.

Lemma counted_bonus_some (r : MoveRecord) :
  (0 < wins r + draws r + losses r)%nat → counted_bonus r = tactical_bonus r.
Proof.
  intros Hr. unfold counted_bonus.
  destruct (Nat.eqb_spec (wins r + draws r + losses r) 0); [lia|reflexivity].
Qed.

(** X6. More wins never lower the score, everything else being equal, for
    a record that has a win already or has a draw or a loss. (For a record
    without any outcome the score is 0 whatever its bonus fields hold, so
    a first win can lower it when they are very negative.) *)
Theorem score_monotone_in_wins (r : MoveRecord) (w1 w2 : nat) :
  mins_ok r → (w1 <= w2)%nat →
  (0 < w1)%nat ∨ (0 < draws r + losses r)%nat →
  ∃ s1 s2,
    get_move_score (with_wins w1 r) = Ok s1
    ∧ get_move_score (with_wins w2 r) = Ok s2
    ∧ (s1 <= s2)%Q.
Proof.
  intros Hr Hle Hany.
  destruct (Nat.eq_dec w1 w2) as [<-|Hne].
  { destruct (score_defined (with_wins w1 r) Hr) as [s Hs].
    exists s, s. split; [exact Hs|]. split; [exact Hs|]. apply Qle_refl. }
  destruct (Nat.eq_dec w1 0%nat) as [->|H1].
  - destruct Hany as [Hany|Hany]; [lia|].
    destruct (score_cases (with_wins 0 r) Hr) as (s1 & b1 & E1 & Q1 & _ & D1 & L1).
    destruct (score_cases (with_wins w2 r) Hr) as (s2 & b2 & E2 & Q2 & W2 & _ & _).
    exists s1, s2. split; [exact E1|]. split; [exact E2|].
    simpl in *. specialize (W2 ltac:(lia)).
    assert (Hb : counted_bonus (with_wins 0 r) = counted_bonus (with_wins w2 r)).
    { rewrite !counted_bonus_some by (simpl; lia). reflexivity. }
    rewrite Hb in Q1.
    destruct (Nat.eq_dec (draws r) 0%nat) as [Hd|Hd].
    + specialize (L1 eq_refl Hd). lra.
    + specialize (D1 eq_refl ltac:(lia)). lra.
  - destruct Hr as [Hmw Hmd].
    destruct (speed_bonus_bounds _ Hmw) as (sb & Hsb & _).
    eexists _, _. split; [|split].
    + apply (score_with_win (with_wins w1 r) sb); [simpl; lia|exact Hsb].
    + apply (score_with_win (with_wins w2 r) sb); [simpl; lia|exact Hsb].
    + unfold capture_bonus, material_bonus.
      cbn [with_wins wins draws losses total_captures total_material_gained].
      pose proof (rate_monotone w1 w2 (draws r + losses r) ltac:(lia)) as Hrate.
      rewrite !Nat.add_assoc in Hrate. revert Hrate.
      generalize (inject_Z (Z.of_nat w1)
                  / inject_Z (Z.of_nat (w1 + draws r + losses r)))%Q
        (inject_Z (Z.of_nat w2) / inject_Z (Z.of_nat (w2 + draws r + losses r)))%Q
        (inject_Z (Z.of_nat (total_captures r) * 10))
        (inject_Z (total_material_gained r) / 10)%Q.
      intros x1 x2 cb mb Hrate. lra.
Qed.

Lemma score_monotone_in_wins_witness :
  ∃ s1 s2,
    get_move_score (with_wins 1 tier_draw) = Ok s1
    ∧ get_move_score (with_wins 3 tier_draw) = Ok s2
    ∧ (s1 <= s2)%Q.
Proof.
  apply (score_monotone_in_wins tier_draw 1 3).
  - vm_compute. split; [exact I|discriminate].
  - lia.
  - left. lia.
Defined.

(** ** Lookup and retry *)

(** X7. What the best-move lookup returns. For a key without a bucket, or
    with an empty one, it returns nothing. A returned triple is a move of
    the bucket with its own notation and record; the score of that record
    is above -1 and no record of the bucket scores higher. When nothing is
    returned for a non-empty bucket, every record of it scores -1 or
    less. *)
Theorem best_move_is_maximal (m : Memory) (key : string) (best : option BestMove) :
  get_best_move_from_memory m key = Ok best →
  match best with
  | Some (move_uci, move_san, move_data) =>
      ∃ bucket s,
        m !! key = Some bucket
        ∧ In (move_uci, move_data) bucket
        ∧ move_san = rec_san move_data
        ∧ get_move_score move_data = Ok s ∧ (-1 < s)%Q
        ∧ Forall (fun kr => ∃ s', get_move_score kr.2 = Ok s' ∧ (s' <= s)%Q) bucket
  | None =>
      ∀ bucket, m !! key = Some bucket →
        Forall (fun kr => ∃ s', get_move_score kr.2 = Ok s' ∧ (s' <= -1)%Q) bucket
  end.
Proof.
  unfold get_best_move_from_memory.
  destruct (m !! key) as [[|x b]|] eqn:E.
  - intros [= <-]. intros bucket [= <-]. constructor.
  - intros Hloop.
    destruct (best_move_loop_spec _ _ _ _ Hloop)
      as [[-> Hall]|(u & d & s & -> & Hin & Hs & Hlt & Hall)].
    + intros bucket [= <-]. exact Hall.
    + exists (x :: b), s. repeat split; assumption.
  - intros [= <-]. intros bucket [=].
Qed.

Lemma best_move_is_maximal_witness :
  ∃ bucket s,
    tier_store !! start_key = Some bucket
    ∧ In ("d2d4", tier_draw) bucket
    ∧ "d4" = rec_san tier_draw
    ∧ get_move_score tier_draw = Ok s ∧ (-1 < s)%Q
    ∧ Forall (fun kr => ∃ s', get_move_score kr.2 = Ok s' ∧ (s' <= s)%Q) bucket.
Proof.
  apply (best_move_is_maximal tier_store start_key (Some ("d2d4", "d4", tier_draw))).
  vm_compute. reflexivity.
Defined.

(** X8. Retry eligibility under recording. Once a record has a win or a
    draw it stays eligible after every further outcome. A record with two
    or more outcomes, none of them a win or a draw, is no longer eligible
    after one more outcome that is neither. *)
Theorem retry_after_recording (r : MoveRecord) (result : string) (mc : Z)
    (ti : option TacticalInfo) (ts : string) :
  ((0 < wins r)%nat ∨ (0 < draws r)%nat →
   should_retry_move (update_record r result mc ti ts) = true)
  ∧ (wins r = 0%nat → draws r = 0%nat → (2 <= losses r)%nat →
     result ≠ "WIN" → result ≠ "DRAW" →
     should_retry_move (update_record r result mc ti ts) = false).
Proof.
  pose proof (update_record_counters r result mc ti ts) as Hc.
  destruct (should_retry_move_cases (update_record r result mc ti ts)) as [Ht Hf].
  unfold counters in Hc. split.
  - intros Hwd. apply Ht.
    destruct (String.eqb result "WIN"); [|destruct (String.eqb result "DRAW")];
      injection Hc as -> -> ->; lia.
  - intros Hw Hd Hl Hnw Hnd. apply Hf.
    destruct (String.eqb_spec result "WIN"); [contradiction|].
    destruct (String.eqb_spec result "DRAW"); [contradiction|].
    injection Hc as -> -> ->. lia.
Qed.

(** A record with forty draws stays eligible after a loss; a record with
    two losses is not eligible after a third. *)
Lemma retry_after_recording_witness :
  should_retry_move (update_record tier_draw "LOSS" 9 None "") = true
  ∧ should_retry_move
      (update_record
         (update_record (update_record (fresh_record "Kd1") "LOSS" 12 None "")
            "LOSS" 12 None "")
         "LOSS" 12 None "") = false.
Proof.
  split.
  - refine (proj1 (retry_after_recording tier_draw "LOSS" 9 None "") _).
    right. vm_compute. lia.
  - refine (proj2 (retry_after_recording
                     (update_record (update_record (fresh_record "Kd1") "LOSS" 12 None "")
                        "LOSS" 12 None "")
                     "LOSS" 12 None "") _ _ _ _ _);
      [reflexivity|reflexivity|vm_compute; lia|discriminate|discriminate].
Defined.

(** ** Position keys *)

Lemma append_cons (c : ascii) (a x : string) :
  (String c a ++ x)%string = String c (a ++ x)%string.
Proof. reflexivity. Qed.

Lemma append_empty (x : string) : ("" ++ x)%string = x.
Proof. reflexivity. Qed.

Lemma string_length_append (a b : string) :
  String.length (a ++ b)%string = (String.length a + String.length b)%nat.
Proof.
  induction a as [|c a IH]; [reflexivity|].
  rewrite append_cons. cbn [String.length]. now rewrite IH.
Qed.

Lemma string_append_inj (a b x y : string) :
  String.length x = String.length y → (a ++ x = b ++ y)%string → a = b ∧ x = y.
Proof.
  intros Hlen. revert b.
  induction a as [|c a IH]; intros [|c' b] Heq;
    rewrite ?append_cons, ?append_empty in Heq.
  - now split.
  - apply (f_equal String.length) in Heq. cbn [String.length] in Heq.
    rewrite string_length_append in Heq. lia.
  - apply (f_equal String.length) in Heq. cbn [String.length] in Heq.
    rewrite string_length_append in Heq. lia.
  - injection Heq as -> Heq. destruct (IH _ Heq) as [-> ->]. now split.
Qed.

Lemma fen_fields_prefix (n : nat) (p t : string) :
  spaces p = n → fen_fields n (p ++ String " " t) = p.
Proof.
  revert n. induction p as [|c p IH]; intros n Hn;
    rewrite ?append_cons, ?append_empty; cbn [fen_fields spaces] in *.
  - subst. now rewrite Ascii.eqb_refl.
  - destruct (Ascii.eqb c " ").
    + destruct n as [|n]; [discriminate|]. f_equal. apply IH. lia.
    + f_equal. now apply IH.
Qed.

Section KeyFacts.
Context {Board Move : Type} `{RulesEngine Board Move}.

(** X9. Two position keys are equal exactly when the learner's color is
    the same and the FENs agree on their first four fields (placement, side
    to move, castling rights, en-passant square). In particular the key
    does not change with the two move counters that end a FEN. *)
Theorem position_key_identity (c1 c2 : bool) (b1 b2 : Board) :
  (_get_position_key c1 b1 = _get_position_key c2 b2
   ↔ c1 = c2 ∧ fen_fields 3 (fen b1) = fen_fields 3 (fen b2))
  ∧ ∀ p t1 t2 : string,
      spaces p = 3%nat →
      fen b1 = (p ++ String " " t1)%string → fen b2 = (p ++ String " " t2)%string →
      _get_position_key c1 b1 = _get_position_key c1 b2.
Proof.
  split.
  - unfold _get_position_key. cbv zeta. split.
    + intros Heq.
      assert (Hlen : ∀ c c' : bool,
                 String.length ("|playing_as_" ++ (if c then "white" else "black"))%string
                 = String.length ("|playing_as_" ++ (if c' then "white" else "black"))%string)
        by (now intros [] []).
      destruct (string_append_inj _ _ _ _ (Hlen c1 c2) Heq) as [Hf Hc].
      split; [|exact Hf]. destruct c1, c2; try reflexivity; discriminate.
    + now intros [-> ->].
  - intros p t1 t2 Hp E1 E2. unfold _get_position_key. cbv zeta.
    now rewrite E1, E2, !fen_fields_prefix.
Qed.
End KeyFacts.

(** ** Threats *)

Section BoardFacts.
Context {Board Move : Type} `{RulesEngine Board Move}.

Lemma threat_entry (play_as_white : bool) (board : Board) (k square : Square)
    (t : Threat) :
  In t (match piece_at board square with
        | Some piece =>
            if negb (Bool.eqb (color piece) (our_color play_as_white))
               && existsb (Nat.eqb k) (attacks board square)
            then [{| threat_piece := piece_type piece;
                     threat_square := square_name square;
                     threat_target := square_name k |}]
            else []
        | None => []
        end)
  ↔ ∃ piece, piece_at board square = Some piece
             ∧ color piece ≠ our_color play_as_white
             ∧ In k (attacks board square)
             ∧ t = {| threat_piece := piece_type piece;
                      threat_square := square_name square;
                      threat_target := square_name k |}.
Proof.
  destruct (piece_at board square) as [piece|].
  - destruct (negb (Bool.eqb (color piece) (our_color play_as_white))
              && existsb (Nat.eqb k) (attacks board square)) eqn:E.
    + apply andb_true_iff in E as [Ec Ea].
      apply negb_true_iff, Bool.eqb_false_iff in Ec.
      apply existsb_exists in Ea as (k' & Hk' & Ek'). apply Nat.eqb_eq in Ek'. subst k'.
      split.
      * intros [<-|[]]. now exists piece.
      * intros (p & [= <-] & _ & _ & ->). now left.
    + split; [intros []|]. intros (p & [= <-] & Hc & Ha & _).
      apply andb_false_iff in E as [E|E].
      * apply negb_false_iff, Bool.eqb_prop in E. contradiction.
      * assert (existsb (Nat.eqb k) (attacks board square) = true); [|congruence].
        apply existsb_exists. exists k. split; [exact Ha|apply Nat.eqb_refl].
  - split; [intros []|]. now intros (p & [=] & _).
Qed.

(** X10. Threat detection. Without a king of the learner's color nothing
    is reported. With the king on [k], the reported threats are exactly
    the opposing pieces, on any of the 64 squares, whose attack set holds
    [k], each named by its type, its square and the king's square; so the
    list is empty exactly when no opposing piece attacks the king, and it
    never has more than 64 entries. *)
Theorem detect_immediate_threats_exact (play_as_white : bool) (board : Board) :
  (king board (our_color play_as_white) = None →
   detect_immediate_threats play_as_white board = [])
  ∧ (∀ k, king board (our_color play_as_white) = Some k →
       (∀ t, In t (detect_immediate_threats play_as_white board)
             ↔ ∃ square piece,
                 threatens play_as_white board k square piece
                 ∧ t = {| threat_piece := piece_type piece;
                          threat_square := square_name square;
                          threat_target := square_name k |})
       ∧ (detect_immediate_threats play_as_white board = []
          ↔ ∀ square piece, ¬ threatens play_as_white board k square piece))
  ∧ (length (detect_immediate_threats play_as_white board) <= 64)%nat.
Proof.
  unfold detect_immediate_threats, threatens.
  destruct (king board (our_color play_as_white)) as [k|];
    [|split; [reflexivity|split; [intros k' [=]|simpl; lia]]].
  split; [discriminate|]. split.
  - intros k' [= <-].
    assert (Hmem : ∀ t,
      In t (flat_map
              (fun square =>
                 match piece_at board square with
                 | Some piece =>
                     if negb (Bool.eqb (color piece) (our_color play_as_white))
                        && existsb (Nat.eqb k) (attacks board square)
                     then [{| threat_piece := piece_type piece;
                              threat_square := square_name square;
                              threat_target := square_name k |}]
                     else []
                 | None => []
                 end) SQUARES)
      ↔ ∃ square piece,
          ((square < 64)%nat ∧ piece_at board square = Some piece
           ∧ color piece ≠ our_color play_as_white ∧ In k (attacks board square))
          ∧ t = {| threat_piece := piece_type piece;
                   threat_square := square_name square;
                   threat_target := square_name k |}).
    { intros t. rewrite in_flat_map. split.
      - intros (sq & Hsq & Ht). apply threat_entry in Ht as (p & Hp & Hc & Ha & ->).
        exists sq, p. unfold SQUARES in Hsq. apply in_seq in Hsq. repeat split; auto; lia.
      - intros (sq & p & (Hsq & Hp & Hc & Ha) & ->). exists sq. split.
        + unfold SQUARES. apply in_seq. lia.
        + apply threat_entry. now exists p. }
    split; [exact Hmem|]. split.
    + intros Hnil sq p Hthr.
      assert (Hf : In {| threat_piece := piece_type p; threat_square := square_name sq;
                         threat_target := square_name k |} []).
      { rewrite <- Hnil. apply Hmem. now exists sq, p. }
      destruct Hf.
    + intros Hnone.
      match goal with |- ?l = [] => assert (Hall : ∀ t, ¬ In t l) end.
      { intros t Ht. apply Hmem in Ht as (sq & p & Hthr & _).
        exact (Hnone sq p Hthr). }
      revert Hall.
      match goal with |- (∀ t, ¬ In t ?l) → _ => generalize l end.
      intros [|t l'] Hall; [reflexivity|]. destruct (Hall t). now left.
  - transitivity (length SQUARES); [|reflexivity].
    generalize SQUARES. intros l. induction l as [|sq l IH]; simpl; [lia|].
    rewrite length_app.
    destruct (piece_at board sq) as [p|]; [|simpl; lia].
    destruct (negb _ && _); simpl; lia.
Qed.
End BoardFacts.

(** ** Ranking and strategy *)

Section RankingFacts.
Context {Board Move : Type} `{RulesEngine Board Move}.

Lemma calculate_defense_sequences_perm (play_as_white : bool) (board : Board) :
  Permutation (calculate_defense_sequences play_as_white board)
              (map (defense_entry play_as_white board) (legal_moves board)).
Proof. apply sort_desc_perm. Qed.

Lemma defense_entry_move (play_as_white : bool) (board : Board) (move : Move) :
  d_move (defense_entry play_as_white board move) = move.
Proof. reflexivity. Qed.

Lemma calculate_defense_sequences_nil (play_as_white : bool) (board : Board) :
  calculate_defense_sequences play_as_white board = [] ↔ legal_moves board = [].
Proof.
  pose proof (Permutation_length (calculate_defense_sequences_perm play_as_white board)) as Hl.
  rewrite length_map in Hl. split; intros E; rewrite E in Hl; simpl in Hl.
  - now destruct (legal_moves board).
  - now destruct (calculate_defense_sequences play_as_white board).
Qed.

(** The sequences an analysis holds: the attack ranking, and the defense
    ranking when the king is in danger. *)
Lemma analysis_sequences (play_as_white : bool) (board : Board) :
  attack_sequences (analyze_position_before_move play_as_white board)
  = calculate_attack_sequences board
  ∧ defense_sequences (analyze_position_before_move play_as_white board)
    = (if is_check board
          || Nat.ltb 0 (length (detect_immediate_threats play_as_white board))
       then calculate_defense_sequences play_as_white board else []).
Proof.
  unfold analyze_position_before_move, is_king_in_check. cbv zeta.
  now destruct (is_check board
                || Nat.ltb 0 (length (detect_immediate_threats play_as_white board))).
Qed.

(** X11. Defense ranking returns one entry per legal move: the moves of
    the entries are a rearrangement of the legal moves, in descending order
    of priority, entries of equal priority in generation order. An entry
    is marked as removing check only if the side to move was in check, and
    its king-safer flag says that the number of threats went down. *)
Theorem defense_ranking (play_as_white : bool) (board : Board) :
  let ranked := calculate_defense_sequences play_as_white board in
  let generated := map (defense_entry play_as_white board) (legal_moves board) in
  Permutation (map d_move ranked) (legal_moves board)
  ∧ length ranked = length (legal_moves board)
  ∧ StronglySorted (desc defense_priority) ranked
  ∧ (∀ k, List.filter (fun d => defense_priority d =? k) ranked
          = List.filter (fun d => defense_priority d =? k) generated)
  ∧ Forall (fun d => removes_check d = is_check board && removes_check d
                     ∧ king_safer d = (0 <? threats_reduced d)) ranked.
Proof.
  intros ranked generated.
  pose proof (calculate_defense_sequences_perm play_as_white board) as Hp.
  fold ranked generated in Hp.
  split; [|split; [|split; [|split]]].
  - rewrite Hp. unfold generated. rewrite map_map.
    erewrite map_ext; [rewrite map_id; reflexivity|]. intros m. apply defense_entry_move.
  - rewrite (Permutation_length Hp). unfold generated. apply length_map.
  - apply sort_desc_sorted.
  - intros k. apply sort_desc_stable.
  - rewrite Hp. unfold generated. apply Forall_map, Forall_forall. intros m _.
    split.
    + rewrite removes_check_defense_entry. now destruct (is_check board).
    + unfold defense_entry. cbn [king_safer threats_reduced].
      destruct (Nat.ltb_spec (length (detect_immediate_threats play_as_white (push board m)))
                  (length (detect_immediate_threats play_as_white board)));
        symmetry; [apply Z.ltb_lt|apply Z.ltb_ge]; lia.
Qed.

Lemma attack_entries_checkmate (board : Board) (move : Move) (s : AttackSeq Move) :
  In s (attack_entries board move) → result s = r_checkmate →
  is_checkmate (push board move) = true.
Proof.
  intros Hs Hr. pose proof (attack_entries_kinds board move) as Hk.
  apply (in_map result) in Hs. rewrite Hk, Hr in Hs.
  destruct (is_checkmate (push board move)); [reflexivity|].
  apply in_app_or in Hs as [Hs|Hs].
  - destruct (is_check (push board move)); [destruct Hs as [[=]|[]]|destruct Hs].
  - destruct (_ && _); [destruct Hs as [[=]|[]]|destruct Hs].
Qed.

(** X12. A mate in one is ranked first. If some legal move mates, the
    first entry of the attack ranking is a checkmate entry of priority
    10000 for a legal move that mates, and the analysis recommends
    [attack] when the king is in danger and [checkmate] otherwise. *)
Theorem mating_move_ranked_first (play_as_white : bool) (board : Board) (move : Move) :
  In move (legal_moves board) → is_checkmate (push board move) = true →
  (∃ top rest mate,
     calculate_attack_sequences board = top :: rest
     ∧ result top = r_checkmate ∧ sequence_priority top = 10000
     ∧ moves top = [mate] ∧ In mate (legal_moves board)
     ∧ is_checkmate (push board mate) = true)
  ∧ recommended_strategy (analyze_position_before_move play_as_white board)
    = if is_check board
         || Nat.ltb 0 (length (detect_immediate_threats play_as_white board))
      then s_attack else s_checkmate.
Proof.
  intros Hm Hmate.
  assert (Hgen : ∃ e, In e (calculate_attack_sequences board)
                      ∧ sequence_priority e = 10000).
  { exists {| moves := [move]; result := r_checkmate; depth := 1;
              material_gain := get_captured_piece_value board move |}.
    split; [|reflexivity].
    apply (Permutation_in _ (Permutation_sym (calculate_attack_sequences_perm board))).
    apply in_flat_map. exists move. split; [exact Hm|].
    unfold attack_entries. rewrite Hmate. now left. }
  destruct Hgen as (e & He & Hpe).
  destruct (calculate_attack_sequences board) as [|top rest] eqn:E; [destruct He|].
  assert (Htop : priority_in_tier top).
  { apply (calculate_attack_sequences_tier board). rewrite E. now left. }
  assert (Hmax : sequence_priority e <= sequence_priority top).
  { pose proof (sort_desc_sorted sequence_priority
                  (flat_map (attack_entries board) (legal_moves board))) as Hs.
    fold (calculate_attack_sequences board) in Hs. rewrite E in Hs.
    apply StronglySorted_inv in Hs as [_ Hall].
    destruct He as [<-|He]; [lia|].
    rewrite Forall_forall in Hall. apply Hall, list_elem_of_In, He. }
  assert (Hres : result top = r_checkmate).
  { unfold priority_in_tier in Htop. destruct (result top); [reflexivity|lia|lia]. }
  assert (Hin : In top (flat_map (attack_entries board) (legal_moves board))).
  { apply (Permutation_in _ (calculate_attack_sequences_perm board)).
    rewrite E. now left. }
  apply in_flat_map in Hin as (mate & Hlegal & Hentry).
  split.
  - exists top, rest, mate. split; [reflexivity|]. split; [exact Hres|].
    split; [unfold sequence_priority; now rewrite Hres|].
    pose proof (attack_entries_tier board mate) as Hall.
    rewrite Forall_forall in Hall. destruct (Hall top) as [Hmv _]; [now apply list_elem_of_In|].
    split; [exact Hmv|]. split; [exact Hlegal|].
    exact (attack_entries_checkmate board mate top Hentry Hres).
  - unfold analyze_position_before_move, is_king_in_check. cbv zeta. rewrite E.
    destruct (is_check board
              || Nat.ltb 0 (length (detect_immediate_threats play_as_white board)));
      cbn [recommended_strategy head]; [destruct top; simpl in Hres|]; now rewrite Hres.
Qed.

(** X13. The recommendation follows the danger test (in check, or some
    threat detected). In danger the defenses are ranked and the strategy is
    [attack], [defend] or [counter_attack]; it is [counter_attack] exactly
    when there is no legal move. Out of danger no defense is computed and
    the strategy is [checkmate], [attack], [capture] or [positional];
    [capture] means the top entry is a capture worth at least 300, and
    without a legal move the strategy is [counter_attack] or
    [positional]. *)
Theorem strategy_by_danger (play_as_white : bool) (board : Board) :
  let analysis := analyze_position_before_move play_as_white board in
  let danger := is_check board
                || Nat.ltb 0 (length (detect_immediate_threats play_as_white board)) in
  attack_sequences analysis = calculate_attack_sequences board
  ∧ defense_sequences analysis
    = (if danger then calculate_defense_sequences play_as_white board else [])
  ∧ (danger = true →
     In (recommended_strategy analysis) [s_attack; s_defend; s_counter_attack]
     ∧ (recommended_strategy analysis = s_counter_attack ↔ legal_moves board = []))
  ∧ (danger = false →
     In (recommended_strategy analysis) [s_checkmate; s_attack; s_capture; s_positional]
     ∧ (recommended_strategy analysis = s_capture →
        ∃ top, head (calculate_attack_sequences board) = Some top
               ∧ result top = r_capture ∧ 300 <= material_gain top))
  ∧ (legal_moves board = [] →
     calculate_attack_sequences board = []
     ∧ recommended_strategy analysis = if danger then s_counter_attack else s_positional).
Proof.
  intros analysis danger. unfold analysis, analyze_position_before_move, is_king_in_check.
  cbv zeta. fold danger.
  assert (Hnil : legal_moves board = [] → calculate_attack_sequences board = []).
  { intros E. unfold calculate_attack_sequences. now rewrite E. }
  pose proof (calculate_defense_sequences_nil play_as_white board) as Hdef.
  destruct danger; cbn [attack_sequences defense_sequences recommended_strategy].
  - split; [reflexivity|]. split; [reflexivity|]. split; [|split; [discriminate|]].
    + intros _.
      destruct (calculate_attack_sequences board) as [|[mv [] dp gain] rest] eqn:Ea;
        cbn [head];
        destruct (calculate_defense_sequences play_as_white board) as [|d ds] eqn:Ed;
        cbn [head]; (split; [simpl; tauto|]); split; try discriminate; try tauto;
        intros El; try (apply Hdef in El; discriminate);
        apply Hnil in El; discriminate.
    + intros El. split; [now apply Hnil|]. rewrite (Hnil El). cbn [head].
      now rewrite (proj2 Hdef El).
  - split; [reflexivity|]. split; [reflexivity|]. split; [discriminate|]. split.
    + intros _.
      destruct (calculate_attack_sequences board) as [|[mv res dp gain] rest] eqn:Ea;
        cbn [head result material_gain].
      * split; [simpl; tauto|discriminate].
      * destruct res; [split; [simpl; tauto|discriminate]..|].
        destruct (Z.leb_spec 300 gain); (split; [simpl; tauto|]); [|discriminate].
        intros _. eexists. split; [reflexivity|]. now split.
    + intros El. split; [now apply Hnil|]. now rewrite (Hnil El).
Qed.
End RankingFacts.

(** ** More on the simulator *)

Lemma random_choice_in {A : Type} (g : Rng) (x0 : A) (l : list A) :
  In (random_choice g x0 l).1 (x0 :: l).
Proof.
  unfold random_choice. destruct (rng_next g) as [x g']. cbn [fst].
  apply nth_In. cbn [length]. apply Nat.mod_upper_bound. lia.
Qed.

Section MoreSimulatorFacts.
Context {Board Move : Type} `{RulesEngine Board Move}.
Variable play_as_white : bool.
Variable max_depth : Z.
Variable engine : option (Board → option Move).
Variable self_board : Board.

(** Whatever holds on entry to the loop and survives one pass of its body
    holds on exit. *)
Lemma sim_loop_invariant (P : SimState → Prop) :
  (∀ st board ti g,
     P st → is_game_over (sim_board st) = false → move_count st < max_depth →
     sim_body play_as_white engine st = Next board ti g →
     P {| sim_board := board; move_count := move_count st + 1;
          tactical_info := ti; sim_rng := g |}) →
  ∀ fuel st st',
    P st → sim_loop play_as_white max_depth engine fuel st = Some st' → P st'.
Proof.
  intros Hstep. induction fuel as [|fuel IH]; intros st st' Hst; cbn [sim_loop].
  - destruct (negb _ && _); [discriminate|]. now intros [= <-].
  - destruct (negb (is_game_over (sim_board st)) && (move_count st <? max_depth)) eqn:Hc;
      [|now intros [= <-]].
    apply andb_true_iff in Hc as [Hg Hlt].
    apply negb_true_iff in Hg. apply Z.ltb_lt in Hlt.
    destruct (sim_body play_as_white engine st) as [board ti g|] eqn:Hb;
      [|now intros [= <-]].
    apply IH. now apply Hstep.
Qed.

(** One pass of the learner's branch: a legal move is played, a capture is
    recorded exactly when the move is one, and nothing is noted for the
    opponent. *)
Lemma learner_turn_next (board board' : Board) (ti ti' : TacticalInfo) (g g' : Rng) :
  learner_turn board ti g = Next board' ti' g' →
  ∃ move,
    In move (legal_moves board) ∧ board' = push board move
    ∧ length (captures_by_us ti')
      = (length (captures_by_us ti) + if is_capture board move then 1 else 0)%nat
    ∧ checks_given ti' = (checks_given ti + if is_check board' then 1 else 0)%nat
    ∧ captures_by_opponent ti' = captures_by_opponent ti
    ∧ checks_received ti' = checks_received ti.
Proof.
  unfold learner_turn. destruct (legal_moves board) as [|m0 ms] eqn:El; [discriminate|].
  cbv zeta.
  assert (Hany : ∀ g0 mv t0 g1,
    (let '(move, g2) := random_choice g0 m0 ms in
     if is_capture board move then (move, add_capture_by_us board move ti, g2)
     else (move, ti, g2)) = (mv, t0, g1) →
    In mv (m0 :: ms)
    ∧ length (captures_by_us t0)
      = (length (captures_by_us ti) + if is_capture board mv then 1 else 0)%nat
    ∧ checks_given t0 = checks_given ti
    ∧ captures_by_opponent t0 = captures_by_opponent ti
    ∧ checks_received t0 = checks_received ti).
  { intros g0 mv t0 g1. pose proof (random_choice_in g0 m0 ms) as Hin.
    destruct (random_choice g0 m0 ms) as [move g2]. cbn [fst] in Hin.
    destruct (is_capture board move) eqn:Ec; intros [= <- <- <-];
      rewrite Ec; cbn; rewrite ?length_app; cbn; repeat split; auto; lia. }
  assert (Hpick : ∃ mv t0 g1,
    match List.filter (is_capture board) (m0 :: ms) with
    | [] =>
        let '(move, g2) := random_choice g m0 ms in
        if is_capture board move then (move, add_capture_by_us board move ti, g2)
        else (move, ti, g2)
    | c0 :: cs =>
        let '(prefer, g0) := random_lt_03 g in
        if prefer
        then let '(move, g2) := random_choice g0 c0 cs in
             (move, add_capture_by_us board move ti, g2)
        else let '(move, g2) := random_choice g0 m0 ms in
             if is_capture board move then (move, add_capture_by_us board move ti, g2)
             else (move, ti, g2)
    end = (mv, t0, g1)
    ∧ In mv (m0 :: ms)
    ∧ length (captures_by_us t0)
      = (length (captures_by_us ti) + if is_capture board mv then 1 else 0)%nat
    ∧ checks_given t0 = checks_given ti
    ∧ captures_by_opponent t0 = captures_by_opponent ti
    ∧ checks_received t0 = checks_received ti).
  { destruct (List.filter (is_capture board) (m0 :: ms)) as [|c0 cs] eqn:Ef.
    - destruct (let '(move, g2) := random_choice g m0 ms in
                if is_capture board move then (move, add_capture_by_us board move ti, g2)
                else (move, ti, g2)) as [[mv t0] g1] eqn:E.
      exists mv, t0, g1. split; [reflexivity|]. exact (Hany _ _ _ _ E).
    - destruct (random_lt_03 g) as [prefer g0]. destruct prefer.
      + pose proof (random_choice_in g0 c0 cs) as Hin.
        destruct (random_choice g0 c0 cs) as [move g2]. cbn [fst] in Hin.
        rewrite <- Ef in Hin. apply filter_In in Hin as [Hin Hc].
        exists move, (add_capture_by_us board move ti), g2. split; [reflexivity|].
        rewrite Hc. cbn. rewrite length_app. cbn. repeat split; auto.
      + destruct (let '(move, g2) := random_choice g0 m0 ms in
                  if is_capture board move then (move, add_capture_by_us board move ti, g2)
                  else (move, ti, g2)) as [[mv t0] g1] eqn:E.
        exists mv, t0, g1. split; [reflexivity|]. exact (Hany _ _ _ _ E). }
  destruct Hpick as (mv & t0 & g1 & -> & Hin & Hcap & Hcg & Hco & Hcr).
  intros [= <- <- <-]. exists mv. split; [exact Hin|]. split; [reflexivity|].
  destruct (is_check (push board mv)); cbn; repeat split; auto; lia.
Qed.

Lemma random_reply_next (board board' : Board) (ti ti' : TacticalInfo) (g g' : Rng) :
  random_reply board ti g = Next board' ti' g' →
  ti' = ti ∧ ∃ move, In move (legal_moves board) ∧ board' = push board move.
Proof.
  unfold random_reply. destruct (legal_moves board) as [|m0 ms]; [discriminate|].
  pose proof (random_choice_in g m0 ms) as Hin.
  destruct (random_choice g m0 ms) as [move g2]. intros [= <- <- <-].
  split; [reflexivity|]. now exists move.
Qed.

(** One pass of the opponent's branch. *)
Lemma opponent_turn_next (board board' : Board) (ti ti' : TacticalInfo) (g g' : Rng) :
  opponent_turn engine board ti g = Next board' ti' g' →
  captures_by_us ti' = captures_by_us ti
  ∧ checks_given ti' = checks_given ti
  ∧ (length (captures_by_opponent ti') <= S (length (captures_by_opponent ti)))%nat
  ∧ (checks_received ti' <= S (checks_received ti))%nat
  ∧ (engine_silent engine → ti' = ti)
  ∧ (engine_legal engine → ∃ move, In move (legal_moves board) ∧ board' = push board move).
Proof.
  unfold opponent_turn, engine_silent, engine_legal.
  destruct engine as [play|].
  - destruct (play board) as [move|] eqn:Ep.
    + intros [= <- <- <-].
      destruct (is_capture board move), (is_check (push board move)); cbn;
        rewrite ?length_app; cbn; repeat split; auto; try lia;
        try (intros Hs; specialize (Hs board); congruence);
        intros Hl; exists move; (split; [eapply Hl; eauto|reflexivity]).
    + intros Hr. apply random_reply_next in Hr as [-> (move & Hin & ->)].
      repeat split; auto. intros _. now exists move.
  - intros Hr. apply random_reply_next in Hr as [-> (move & Hin & ->)].
    repeat split; auto. intros _. now exists move.
Qed.

(** X14. With a depth cap of 1 or less the loop does not run: the
    simulation returns after the first move with ply count 1, an empty
    trace, no material change and an untouched random source, the outcome
    being read off the position after that move. *)
Theorem simulate_without_replies (first_move : Move) (g : Rng) :
  max_depth <= 1 →
  simulate_tactical_game play_as_white max_depth engine self_board first_move g
  = Some (classify_result play_as_white (push self_board first_move), 1,
          initial_tactical_info, g).
Proof.
  intros Hcap. unfold simulate_tactical_game, sim_final.
  assert (Hloop : ∀ fuel, sim_loop play_as_white max_depth engine fuel
                            (sim_start self_board first_move g)
                          = Some (sim_start self_board first_move g)).
  { intros fuel. destruct fuel; cbn [sim_loop sim_start move_count];
      (destruct (Z.ltb_spec 1 max_depth); [lia|]); now rewrite andb_false_r. }
  rewrite Hloop. cbn. unfold sim_result. cbn. now rewrite Z.sub_diag.
Qed.

(** X15. The trace counts plies: each pass of the loop plays one move and
    notes at most one capture and at most one check, so the captures
    recorded for both sides together, and likewise the checks, never exceed
    the plies played after the first move. *)
Theorem trace_within_plies (first_move : Move) (g : Rng)
    (res : string) (mc : Z) (ti : TacticalInfo) (g' : Rng) :
  simulate_tactical_game play_as_white max_depth engine self_board first_move g
  = Some (res, mc, ti, g') →
  Z.of_nat (length (captures_by_us ti) + length (captures_by_opponent ti)) <= mc - 1
  ∧ Z.of_nat (checks_given ti + checks_received ti) <= mc - 1.
Proof.
  unfold simulate_tactical_game.
  destruct (sim_final _ _ _ _ _ _ _) as [st|] eqn:Hst; [|discriminate].
  cbn. unfold sim_result. intros [= <- <- <- <-].
  cbn [set_material_balance_change captures_by_us captures_by_opponent
       checks_given checks_received].
  unfold sim_final in Hst. revert Hst.
  apply (sim_loop_invariant
    (fun st =>
       Z.of_nat (length (captures_by_us (tactical_info st))
                 + length (captures_by_opponent (tactical_info st)))
       <= move_count st - 1
       ∧ Z.of_nat (checks_given (tactical_info st) + checks_received (tactical_info st))
         <= move_count st - 1)); [|simpl; lia].
  intros st0 board ti0 g0 [Hc Hk] _ _. unfold sim_body.
  destruct (Bool.eqb _ play_as_white); intros Hb; cbn.
  - apply learner_turn_next in Hb as (mv & _ & _ & Hcu & Hcg & -> & ->).
    rewrite Hcu, Hcg.
    destruct (is_capture (sim_board st0) mv), (is_check board); lia.
  - apply opponent_turn_next in Hb as (-> & -> & Hco & Hcr & _).
    lia.
Qed.

(** X16. Without an engine, and with an engine that fails at every query,
    the opponent's moves are the random replies, and these are not looked
    at: the trace shows no capture by the opponent and no check received,
    whatever happened on the board. *)
Theorem silent_engine_leaves_no_trace (first_move : Move) (g : Rng)
    (res : string) (mc : Z) (ti : TacticalInfo) (g' : Rng) :
  engine_silent engine →
  simulate_tactical_game play_as_white max_depth engine self_board first_move g
  = Some (res, mc, ti, g') →
  captures_by_opponent ti = [] ∧ checks_received ti = 0%nat.
Proof.
  intros Hsilent. unfold simulate_tactical_game.
  destruct (sim_final _ _ _ _ _ _ _) as [st|] eqn:Hst; [|discriminate].
  cbn. unfold sim_result. intros [= <- <- <- <-].
  cbn [set_material_balance_change captures_by_opponent checks_received].
  unfold sim_final in Hst. revert Hst.
  apply (sim_loop_invariant
    (fun st => captures_by_opponent (tactical_info st) = []
               ∧ checks_received (tactical_info st) = 0%nat)); [|now split].
  intros st0 board ti0 g0 [Hc Hk] _ _. unfold sim_body.
  destruct (Bool.eqb _ play_as_white); intros Hb; cbn.
  - apply learner_turn_next in Hb as (mv & _ & _ & _ & _ & -> & ->). now split.
  - apply opponent_turn_next in Hb as (_ & _ & _ & _ & Hs & _).
    rewrite (Hs Hsilent). now split.
Qed.

(** X17. The game a simulation plays. The final position is reached from
    the position after the first move by exactly [move_count - 1] moves,
    none of them played in a finished game, and every one legal where it is
    played as long as the engine answers with legal moves. The loop ends
    for one of three reasons: the game is over, the cap is reached, or no
    legal move was left to choose from. *)
Theorem simulation_plays_legal_games (fuel : nat) (first_move : Move) (g : Rng)
    (st : SimState) :
  engine_legal engine →
  sim_final play_as_white max_depth engine self_board fuel first_move g = Some st →
  1 <= move_count st
  ∧ plays (Z.to_nat (move_count st - 1)) (push self_board first_move) (sim_board st)
  ∧ (is_game_over (sim_board st) = true ∨ max_depth <= move_count st
     ∨ legal_moves (sim_board st) = []).
Proof.
  intros Hlegal Hst. unfold sim_final in Hst.
  assert (Hpath : 1 <= move_count st
                  ∧ plays (Z.to_nat (move_count st - 1)) (push self_board first_move)
                          (sim_board st)).
  { revert Hst.
    apply (sim_loop_invariant
      (fun st => 1 <= move_count st
                 ∧ plays (Z.to_nat (move_count st - 1)) (push self_board first_move)
                         (sim_board st))); [|split; [simpl; lia|constructor]].
    intros st0 board ti0 g0 [Hmc Hp] Hover _. unfold sim_body.
    cbn [move_count sim_board].
    replace (Z.to_nat (move_count st0 + 1 - 1)) with (S (Z.to_nat (move_count st0 - 1)))
      by lia.
    destruct (Bool.eqb _ play_as_white); intros Hb.
    - apply learner_turn_next in Hb as (mv & Hin & -> & _).
      split; [lia|]. now constructor.
    - apply opponent_turn_next in Hb as (_ & _ & _ & _ & _ & Hmv).
      destruct (Hmv Hlegal) as (mv & Hin & ->).
      split; [lia|]. now constructor. }
  destruct Hpath as [Hmc Hp]. split; [exact Hmc|]. split; [exact Hp|].
  clear Hmc Hp. revert Hst. generalize (sim_start self_board first_move g).
  induction fuel as [|fuel IH]; intros st0; cbn [sim_loop].
  - destruct (negb (is_game_over (sim_board st0)) && (move_count st0 <? max_depth)) eqn:Hc;
      [discriminate|]. intros [= <-].
    apply andb_false_iff in Hc as [Hc|Hc].
    + left. now apply negb_false_iff in Hc.
    + right. left. now apply Z.ltb_ge in Hc.
  - destruct (negb (is_game_over (sim_board st0)) && (move_count st0 <? max_depth)) eqn:Hc.
    + destruct (sim_body play_as_white engine st0) as [board ti0 g0|] eqn:Hb.
      * apply IH.
      * intros [= <-]. right. right. revert Hb. unfold sim_body.
        assert (Hrr : ∀ b t g1, random_reply b t g1 = Break → legal_moves b = []).
        { intros b t g1. unfold random_reply.
          destruct (legal_moves b); [reflexivity|].
          now destruct (random_choice g1 m l). }
        destruct (Bool.eqb _ play_as_white).
        -- unfold learner_turn. destruct (legal_moves (sim_board st0)); [reflexivity|].
           cbv zeta.
           repeat match goal with
                  | |- context [match ?x with _ => _ end] => destruct x
                  | |- context [let '(_, _) := ?x in _] => destruct x
                  end; discriminate.
        -- unfold opponent_turn. destruct engine as [play|]; [|apply Hrr].
           destruct (play (sim_board st0)); [discriminate|apply Hrr].
    + intros [= <-]. apply andb_false_iff in Hc as [Hc|Hc].
      * left. now apply negb_false_iff in Hc.
      * right. left. now apply Z.ltb_ge in Hc.
Qed.
End MoreSimulatorFacts.

(** ** Choosing the next move *)

Lemma bucket_lookup_none (k : string) (b : Bucket) :
  bucket_lookup k b = None ↔ existsb (String.eqb k) (map fst b) = false.
Proof.
  induction b as [|[k' r] b IH]; simpl; [tauto|].
  destruct (String.eqb k k'); simpl; [split; discriminate|exact IH].
Qed.

Lemma filter_filter_andb {A : Type} (f g : A → bool) (l : list A) :
  List.filter g (List.filter f l) = List.filter (fun x => f x && g x) l.
Proof.
  induction l as [|x l IH]; simpl; [reflexivity|].
  destruct (f x); simpl; [destruct (g x); now rewrite IH|exact IH].
Qed.

Section ChoiceFacts.
Context {Board Move : Type} `{RulesEngine Board Move} `{EqDecision Move}.
Variable play_as_white : bool.
Variable self_board : Board.

(** X18. The untried moves are the legal moves of the position whose
    move id has no record under the position's key, in generation order.
    An outcome recorded under that key removes exactly the moves with the
    recorded id from them; for a position without memory all legal moves
    are untried. *)
Theorem untried_moves_exact (memory : Memory) (move_uci move_san result : string)
    (mc : Z) (ti : option TacticalInfo) (ts : string) :
  let key := _get_position_key play_as_white self_board in
  (∀ move, In move (get_untried_moves play_as_white self_board memory)
           ↔ In move (legal_moves self_board) ∧ stored memory key (uci move) = None)
  ∧ get_untried_moves play_as_white self_board
      (record_move_result memory key move_uci move_san result mc ti ts)
    = List.filter (fun move => negb (String.eqb (uci move) move_uci))
        (get_untried_moves play_as_white self_board memory)
  ∧ (memory !! key = None →
     get_untried_moves play_as_white self_board memory = legal_moves self_board).
Proof.
  intros key. unfold get_untried_moves. fold key. split; [|split].
  - intros move. rewrite filter_In, negb_true_iff. unfold stored.
    destruct (memory !! key) as [b|]; simpl.
    + now rewrite bucket_lookup_none.
    + tauto.
  - unfold record_move_result. fold key. rewrite lookup_insert_eq.
    rewrite filter_filter_andb. apply filter_ext. intros move.
    rewrite bucket_set_keys.
    assert (Hd : map fst (default [] (memory !! key))
                 = match memory !! key with Some b => map fst b | None => [] end)
      by now destruct (memory !! key).
    rewrite Hd. clear Hd.
    set (tried := match memory !! key with Some b => map fst b | None => [] end).
    destruct (existsb (String.eqb move_uci) tried) eqn:Eu.
    + destruct (String.eqb_spec (uci move) move_uci) as [->|_].
      * rewrite Eu. reflexivity.
      * now rewrite andb_true_r.
    + rewrite existsb_app. simpl. rewrite orb_false_r, negb_orb. reflexivity.
  - intros E. destruct (memory !! key); [discriminate|].
    induction (legal_moves self_board) as [|m l IH]; [reflexivity|].
    cbn [List.filter existsb negb]. f_equal. exact IH.
Qed.

(** X19. While an untried legal move is left, the search picks an untried
    legal move and never a retry. If one of the priority moves is still
    untried, the first such is picked, without consuming randomness, and
    is struck from the priority list; otherwise the pick is random and the
    priority list stays as it is. *)
Theorem choose_move_prefers_untried (st : SearchState) :
  get_untried_moves play_as_white self_board (memory st) ≠ [] →
  ∃ move priority_moves' g',
    choose_move play_as_white self_board st = Ok (Some (move, priority_moves', g'))
    ∧ In move (get_untried_moves play_as_white self_board (memory st))
    ∧ match List.filter
              (fun m => bool_decide
                          (m ∈ get_untried_moves play_as_white self_board (memory st)))
              (priority_moves st) with
      | first :: _ =>
          move = first ∧ priority_moves' = list_remove first (priority_moves st)
          ∧ g' = search_rng st
      | [] => priority_moves' = priority_moves st
      end.
Proof.
  intros Hne. unfold choose_move. cbv zeta.
  destruct (get_untried_moves play_as_white self_board (memory st)) as [|u0 us] eqn:Eu;
    [contradiction|].
  assert (Hrand : ∃ move g',
             random_choice (search_rng st) u0 us = (move, g') ∧ In move (u0 :: us)).
  { pose proof (random_choice_in (search_rng st) u0 us) as Hin.
    destruct (random_choice (search_rng st) u0 us) as [move g']. now exists move, g'. }
  destruct Hrand as (mv & g' & Er & Hin).
  destruct (priority_moves st) as [|p ps] eqn:Ep.
  - rewrite Er. exists mv, [], g'. cbn. repeat split; auto.
  - destruct (List.filter (fun m => bool_decide (m ∈ u0 :: us)) (p :: ps))
      as [|first rest] eqn:Ef.
    + rewrite Er. exists mv, (p :: ps), g'. repeat split; auto.
    + exists first, (list_remove first (p :: ps)), (search_rng st).
      split; [reflexivity|]. split; [|now repeat split].
      assert (Hf : In first (first :: rest)) by now left.
      rewrite <- Ef in Hf. apply filter_In in Hf as [_ Hf].
      apply bool_decide_eq_true in Hf. now apply list_elem_of_In.
Qed.
End ChoiceFacts.

(** ** Sorting by score *)

Section ScoreSortFacts.
Context {A : Type} (key : A → Q).

Lemma insert_desc_Q_perm (x : A) (l : list A) :
  Permutation (insert_desc key Qltb x l) (x :: l).
Proof.
  induction l as [|y l IH]; simpl; [reflexivity|].
  destruct (Qltb (key x) (key y)); [|reflexivity].
  rewrite IH. apply perm_swap.
Qed.

Lemma sort_desc_Q_perm (l : list A) : Permutation (sort_desc key Qltb l) l.
Proof.
  induction l as [|x l IH]; simpl; [reflexivity|].
  rewrite insert_desc_Q_perm. now constructor.
Qed.

Lemma insert_desc_Q_sorted (x : A) (l : list A) :
  StronglySorted (fun a b => (key b <= key a)%Q) l →
  StronglySorted (fun a b => (key b <= key a)%Q) (insert_desc key Qltb x l).
Proof.
  induction 1 as [|y l Hs IH Hy]; simpl.
  - repeat constructor.
  - destruct (Qltb (key x) (key y)) eqn:E.
    + apply Qltb_spec in E. constructor; [assumption|].
      rewrite Forall_forall. intros z Hz. rewrite insert_desc_Q_perm in Hz.
      apply elem_of_cons in Hz as [->|Hz]; [now apply Qlt_le_weak|].
      rewrite Forall_forall in Hy. now apply Hy.
    + apply Qltb_false in E. constructor; [now constructor|].
      constructor; [exact E|].
      rewrite Forall_forall in Hy |- *. intros z Hz.
      specialize (Hy z Hz). simpl in Hy. eapply Qle_trans; eassumption.
Qed.

Lemma sort_desc_Q_head (l : list A) (x : A) (rest : list A) :
  sort_desc key Qltb l = x :: rest → Forall (fun y => (key y <= key x)%Q) l.
Proof.
  intros E.
  assert (Hs : StronglySorted (fun a b => (key b <= key a)%Q) (sort_desc key Qltb l)).
  { clear E. induction l as [|y l IH]; simpl; [constructor|].
    now apply insert_desc_Q_sorted. }
  rewrite E in Hs. apply StronglySorted_inv in Hs as [_ Hall].
  rewrite <- (sort_desc_Q_perm l), E. constructor; [apply Qle_refl|exact Hall].
Qed.
End ScoreSortFacts.

Lemma score_keys_spec (l : Bucket) (keyed : list (Q * (string * MoveRecord))) :
  score_keys l = Ok keyed →
  map snd keyed = l ∧ Forall (fun kx => get_move_score kx.2.2 = Ok kx.1) keyed.
Proof.
  revert keyed. induction l as [|x l IH]; intros keyed; cbn [score_keys].
  - intros [= <-]. split; [reflexivity|constructor].
  - destruct (get_move_score x.2) as [k| |] eqn:Ek; cbn; try discriminate.
    destruct (score_keys l) as [ks| |]; cbn; try discriminate.
    intros [= <-]. destruct (IH ks eq_refl) as [Hm Hall].
    split; [simpl; now rewrite Hm|]. constructor; [exact Ek|exact Hall].
Qed.

Section RetryFacts.
Context {Board Move : Type} `{RulesEngine Board Move} `{EqDecision Move}.
Variable play_as_white : bool.
Variable self_board : Board.

(** X20. When no legal move is untried the search retries from memory:
    it stops (the loop breaks) exactly when no record of the position is
    retry-eligible, and otherwise picks, without consuming randomness and
    without touching the priority list, the move of an eligible record
    whose score no eligible record exceeds. *)
Theorem choose_move_retries_best (st : SearchState) :
  let key := _get_position_key play_as_white self_board in
  let eligible :=
    List.filter (fun x => should_retry_move x.2) (default [] (memory st !! key)) in
  get_untried_moves play_as_white self_board (memory st) = [] →
  (eligible = [] → choose_move play_as_white self_board st = Ok None)
  ∧ (choose_move play_as_white self_board st = Ok None → eligible = [])
  ∧ ∀ move priority_moves' g',
      choose_move play_as_white self_board st = Ok (Some (move, priority_moves', g')) →
      priority_moves' = priority_moves st ∧ g' = search_rng st
      ∧ ∃ move_uci data s,
          In (move_uci, data) eligible ∧ from_uci move_uci = Some move
          ∧ get_move_score data = Ok s
          ∧ Forall (fun kr => ∃ s', get_move_score kr.2 = Ok s' ∧ (s' <= s)%Q) eligible.
Proof.
  intros key eligible Hu. unfold choose_move. cbv zeta. rewrite Hu. fold key.
  subst eligible.
  destruct (priority_moves st) as [|p0 ps0];
    (destruct (memory st !! key) as [bucket|]; cbn [from_option id];
       [|split; [now intros|split; now intros]]);
    (destruct (List.filter (fun x => should_retry_move x.2) bucket) as [|e es] eqn:Ee;
       [split; [now intros|split; now intros]|]);
    (destruct (score_keys (e :: es)) as [keyed| |] eqn:Ek; cbn [mbind Py_bind];
       [|split; [now intros|split; now intros]..]);
    (destruct (score_keys_spec _ _ Ek) as [Hm Hall]);
    (destruct (sort_desc fst Qltb keyed) as [|[k [u d]] rest] eqn:Es;
       [split; [now intros|split; now intros]|]);
    (pose proof (sort_desc_Q_head fst keyed _ _ Es) as Hmax);
    (assert (Hin : In (k, (u, d)) keyed)
       by (apply (Permutation_in _ (sort_desc_Q_perm fst keyed)); rewrite Es; now left));
    (destruct (from_uci u) as [mv|] eqn:Ef; [|split; [now intros|split; now intros]]);
    (split; [now intros|]; split; [now intros|]);
    intros move pm g' [= <- <- <-]; (split; [reflexivity|]); (split; [reflexivity|]);
    exists u, d, k;
    (split;
     [ rewrite <- Hm; apply (in_map snd) in Hin; exact Hin
     | split;
       [ exact Ef
       | split;
         [ rewrite Forall_forall in Hall; apply (Hall (k, (u, d)));
           now apply list_elem_of_In
         | rewrite <- Hm; apply Forall_map; rewrite Forall_forall in Hall, Hmax |- *;
           intros kx Hkx; exists kx.1; split; [now apply Hall|now apply Hmax] ] ] ]).
Qed.
End RetryFacts.

Lemma In_take {X : Type} (n : nat) (l : list X) (x : X) : In x (take n l) → In x l.
Proof.
  revert n. induction l as [|y l IH]; intros [|n]; simpl; try tauto.
  intros [->|Hx]; [now left|right; eauto].
Qed.

Lemma length_omap_le {X Y : Type} (f : X → option Y) (l : list X) :
  (length (omap f l) <= length l)%nat.
Proof.
  induction l as [|x l IH]; csimpl; [lia|]. destruct (f x); simpl; lia.
Qed.

Section PriorityFacts.
Context {Board Move : Type} `{RulesEngine Board Move}.

(** X21. The priority moves the search starts with are at most five, and
    each of them is a legal move of the position: they are the moves of the
    first five defenses under [defend], of the first five attack entries
    under [attack], [checkmate] and [capture], and none otherwise. *)
Theorem initial_priority_moves_legal (play_as_white : bool) (board : Board) :
  let analysis := analyze_position_before_move play_as_white board in
  (length (initial_priority_moves analysis) <= 5)%nat
  ∧ Forall (fun move => In move (legal_moves board)) (initial_priority_moves analysis)
  ∧ (In (recommended_strategy analysis) [s_defend; s_attack; s_checkmate; s_capture]
     ∨ initial_priority_moves analysis = []).
Proof.
  intros analysis.
  destruct (analysis_sequences play_as_white board) as (Ha & Hd).
  fold analysis in Ha, Hd.
  assert (Hdef : ∀ n, Forall (fun move => In move (legal_moves board))
                        (map d_move (take n (calculate_defense_sequences play_as_white board)))).
  { intros n. apply List.Forall_forall. intros m Hm.
    apply in_map_iff in Hm as (d & <- & Hd').
    apply In_take in Hd'.
    apply (Permutation_in _ (calculate_defense_sequences_perm play_as_white board)) in Hd'.
    apply in_map_iff in Hd' as (m & <- & Hm). exact Hm. }
  assert (Hatt : ∀ n, Forall (fun move => In move (legal_moves board))
                        (omap (fun s => head (moves s))
                              (take n (calculate_attack_sequences board)))).
  { intros n. apply Forall_forall. intros m Hm.
    apply list_elem_of_omap in Hm as (s & Hs & Hhead).
    apply list_elem_of_In, In_take in Hs.
    apply (Permutation_in _ (calculate_attack_sequences_perm board)) in Hs.
    apply in_flat_map in Hs as (m' & Hm' & Hent).
    pose proof (attack_entries_tier board m') as Hall. rewrite Forall_forall in Hall.
    destruct (Hall s) as [Hmv _]; [now apply list_elem_of_In|].
    rewrite Hmv in Hhead. injection Hhead as <-. exact Hm'. }
  unfold initial_priority_moves. rewrite Ha.
  split; [|split].
  - destruct (recommended_strategy analysis); simpl; try lia.
    + etransitivity; [apply length_omap_le|]. rewrite length_take. lia.
    + rewrite length_map, length_take. lia.
    + etransitivity; [apply length_omap_le|]. rewrite length_take. lia.
    + etransitivity; [apply length_omap_le|]. rewrite length_take. lia.
  - destruct (recommended_strategy analysis) eqn:Es; try constructor; try apply Hatt.
    rewrite Hd.
    destruct (is_check board
              || Nat.ltb 0 (length (detect_immediate_threats play_as_white board)));
      [apply Hdef|constructor].
  - destruct (recommended_strategy analysis); simpl; tauto.
Qed.
End PriorityFacts.

(** ** What a search does to the memory *)

Lemma extends_refl (m : Memory) : extends m m.
Proof. intros key u r Hr. exists r, []. now rewrite app_nil_r. Qed.

Lemma extends_trans (a b c : Memory) : extends a b → extends b c → extends a c.
Proof.
  intros Hab Hbc key u r Hr.
  destruct (Hab key u r Hr) as (r1 & more1 & H1 & Hs1 & Hr1).
  destruct (Hbc key u r1 H1) as (r2 & more2 & H2 & Hs2 & Hr2).
  exists r2, (more1 ++ more2). split; [exact H2|]. split; [congruence|].
  now rewrite Hr2, Hr1, app_assoc.
Qed.

Lemma extends_record_move_result (m : Memory) key move_uci move_san result mc ti ts :
  extends m (record_move_result m key move_uci move_san result mc ti ts).
Proof.
  intros key' u' r Hr.
  destruct (decide (key' = key ∧ u' = move_uci)) as [[-> ->]|Hne].
  - eexists _, _. split; [apply stored_record_move_result|]. rewrite Hr. simpl.
    split; [apply update_record_san|apply update_record_results].
  - exists r, []. rewrite app_nil_r.
    rewrite stored_record_move_result_other; [now split|].
    destruct (decide (key' = key)); [right|left]; intuition.
Qed.

Lemma games_bucket_set (move_uci move_san result : string) (mc : Z)
    (ti : option TacticalInfo) (ts : string) (b : Bucket) :
  games (bucket_set move_uci
           (update_record (default (fresh_record move_san) (bucket_lookup move_uci b))
              result mc ti ts) b)
  = S (games b).
Proof.
  induction b as [|[k r] b IH]; cbn [bucket_set bucket_lookup].
  - cbn. rewrite update_record_results, length_app. simpl. lia.
  - destruct (String.eqb move_uci k); cbn [games foldr snd default from_option id].
    + rewrite update_record_results, length_app. simpl. fold (games b). lia.
    + fold (games b).
      fold (games (bucket_set move_uci
              (update_record (default (fresh_record move_san) (bucket_lookup move_uci b))
                 result mc ti ts) b)).
      rewrite IH. lia.
Qed.

Lemma games_at_record_move_result (m : Memory) key move_uci move_san result mc ti ts :
  games_at (record_move_result m key move_uci move_san result mc ti ts) key
  = S (games_at m key).
Proof.
  unfold games_at, record_move_result. rewrite lookup_insert_eq. simpl.
  apply games_bucket_set.
Qed.

Section SearchMemoryFacts.
Context {Board Move : Type} `{RulesEngine Board Move} `{EqDecision Move}.
Variable play_as_white : bool.
Variable max_depth : Z.
Variable engine : option (Board → option Move).
Variable self_board : Board.
Variable now : Z → string.
Variable max_strength : Z.

Lemma simulate_ply_positive (first_move : Move) (g : Rng)
    (res : string) (mc : Z) (ti : TacticalInfo) (g' : Rng) :
  simulate_tactical_game play_as_white max_depth engine self_board first_move g
  = Some (res, mc, ti, g') →
  1 <= mc.
Proof.
  unfold simulate_tactical_game.
  destruct (sim_final _ _ _ _ _ _ _) as [st|] eqn:Hst; [|discriminate].
  cbn. unfold sim_result. intros [= <- <- <- <-].
  unfold sim_final in Hst. revert Hst.
  apply (sim_loop_invariant play_as_white max_depth engine (fun st => 1 <= move_count st));
    [|simpl; lia].
  intros st0 board ti0 g0 Hst0 _ _ _. simpl. lia.
Qed.

(** A relation between memories that recordings of positive ply counts
    establish holds between the memory a search starts with and the one it
    leaves. *)
Lemma search_loop_memory (R : Memory → Memory → Prop) :
  (∀ m, R m m) → (∀ a b c, R a b → R b c → R a c) →
  (∀ m move_uci move_san result mc ti ts,
     1 <= mc →
     R m (record_move_result m (_get_position_key play_as_white self_board)
            move_uci move_san result mc (Some ti) ts)) →
  ∀ fuel st exit,
    search_loop play_as_white max_depth engine self_board now max_strength fuel st
    = Ok exit →
    R (memory st) (exit_memory exit).
Proof.
  intros Hrefl Htrans Hstep.
  induction fuel as [|fuel IH]; intros st exit; cbn [search_loop].
  - destruct (attempts st <? max_strength); [discriminate|].
    intros [= <-]. apply Hrefl.
  - destruct (attempts st <? max_strength); [|intros [= <-]; apply Hrefl].
    destruct (choose_move play_as_white self_board st) as [[[[move pm] g]|]| |];
      cbn; try discriminate; [|intros [= <-]; apply Hrefl].
    destruct (simulate_tactical_game play_as_white max_depth engine self_board move g)
      as [[[[res mc] ti] g']|] eqn:Hsim; [|discriminate].
    apply simulate_ply_positive in Hsim.
    destruct (String.eqb res "WIN").
    + destruct (memory_get _ _ _); cbn; try discriminate.
      intros [= <-]. cbn. now apply Hstep.
    + match goal with
      | |- context [mbind _ ?c] => destruct c as [bd| |]; cbn; try discriminate
      end.
      intros Hloop. apply IH in Hloop. cbn in Hloop.
      eapply Htrans; [|exact Hloop]. now apply Hstep.
Qed.

(** Each pass of the loop plays one game. *)
Lemma search_loop_games (fuel : nat) (st : SearchState) (exit : SearchExit) :
  search_loop play_as_white max_depth engine self_board now max_strength fuel st
  = Ok exit →
  (games_at (exit_memory exit) (_get_position_key play_as_white self_board)
   <= games_at (memory st) (_get_position_key play_as_white self_board)
      + Z.to_nat (max_strength - attempts st))%nat.
Proof.
  revert st exit. induction fuel as [|fuel IH]; intros st exit; cbn [search_loop].
  - destruct (attempts st <? max_strength); [discriminate|].
    intros [= <-]. cbn. lia.
  - destruct (Z.ltb_spec (attempts st) max_strength); [|intros [= <-]; cbn; lia].
    destruct (choose_move play_as_white self_board st) as [[[[move pm] g]|]| |];
      cbn; try discriminate; [|intros [= <-]; cbn; lia].
    destruct (simulate_tactical_game play_as_white max_depth engine self_board move g)
      as [[[[res mc] ti] g']|] eqn:Hsim; [|discriminate].
    destruct (String.eqb res "WIN").
    + destruct (memory_get _ _ _); cbn; try discriminate.
      intros [= <-]. cbn. rewrite games_at_record_move_result. lia.
    + match goal with
      | |- context [mbind _ ?c] => destruct c as [bd| |]; cbn; try discriminate
      end.
      intros Hloop. apply IH in Hloop. cbn in Hloop.
      rewrite games_at_record_move_result in Hloop. lia.
Qed.

(** X22. A search only adds to the memory. Whatever [find_winning_move]
    returns, the memory it leaves keeps every record it found, with its
    notation and with its results as a prefix of the new ones; buckets of
    other positions are untouched; the invariant
    [wins + draws + losses = len(results)] and the lower bound 1 on
    recorded minima carry over; and the games recorded for the position
    grow by at most the attempt budget. *)
Theorem search_only_adds (memory0 : Memory) (g : Rng) (value : option string)
    (memory' : Memory) :
  let key := _get_position_key play_as_white self_board in
  find_winning_move play_as_white max_depth engine self_board now max_strength memory0 g
  = Ok (value, memory') →
  extends memory0 memory'
  ∧ (∀ key', key' ≠ key → memory' !! key' = memory0 !! key')
  ∧ (store_ok memory0 → store_ok memory')
  ∧ (store_all mins_ok memory0 → store_all mins_ok memory')
  ∧ (games_at memory' key <= games_at memory0 key + Z.to_nat max_strength)%nat.
Proof.
  intros key. unfold find_winning_move. cbv zeta.
  destruct (get_best_move_from_memory memory0 _) as [best| |]; cbn; try discriminate.
  destruct (consult_memory _ best) as [san|bd].
  { intros [= <- <-]. split; [apply extends_refl|]. repeat split; auto. lia. }
  match goal with
  | |- context [search_loop ?a ?b ?c ?d ?e ?f ?n ?st] =>
      destruct (search_loop a b c d e f n st) as [exit| |] eqn:Hloop
  end; cbn; try discriminate.
  assert (Hmem : memory' = exit_memory exit →
    extends memory0 memory'
    ∧ (∀ key', key' ≠ key → memory' !! key' = memory0 !! key')
    ∧ (store_ok memory0 → store_ok memory')
    ∧ (store_all mins_ok memory0 → store_all mins_ok memory')
    ∧ (games_at memory' key <= games_at memory0 key + Z.to_nat max_strength)%nat).
  { intros ->. split; [|split; [|split; [|split]]].
    - refine (search_loop_memory extends extends_refl extends_trans _ _ _ _ Hloop).
      intros. apply extends_record_move_result.
    - refine (search_loop_memory
                (fun a b => ∀ key', key' ≠ key → b !! key' = a !! key')
                _ _ _ _ _ _ Hloop); [auto| |].
      + intros a b c Hab Hbc k Hk. rewrite Hbc, Hab; auto.
      + intros m u san res mc ti ts _ k Hk. unfold record_move_result.
        now rewrite lookup_insert_ne.
    - refine (search_loop_memory (fun a b => store_ok a → store_ok b)
                _ _ _ _ _ _ Hloop); [auto|auto|].
      intros. now apply record_move_result_ok.
    - refine (search_loop_memory
                (fun a b => store_all mins_ok a → store_all mins_ok b)
                _ _ _ _ _ _ Hloop); [auto|auto|].
      intros m u san res mc ti ts Hmc Hm.
      apply record_move_result_all; [|intros r|exact Hm];
        apply update_record_mins_ok; try assumption. now split.
    - apply search_loop_games in Hloop. cbn in Hloop. fold key in Hloop. lia. }
  destruct exit as [san mem|st]; cbn.
  - intros [= <- <-]. now apply Hmem.
  - destruct (best_draw st) as [|[[san uci]|]]; cbn; try discriminate;
      intros [= <- <-]; now apply Hmem.
Qed.

(** X23. What needs no simulation. A remembered best move with a win is
    returned at once, in danger or not, and the memory stays as it is; so
    does a search without remembered move and without budget, which reports
    failure. *)
Theorem search_without_simulation (memory0 : Memory) (g : Rng) :
  let key := _get_position_key play_as_white self_board in
  (∀ move_uci move_san move_data,
     get_best_move_from_memory memory0 key = Ok (Some (move_uci, move_san, move_data)) →
     (0 < wins move_data)%nat →
     find_winning_move play_as_white max_depth engine self_board now max_strength
       memory0 g
     = Ok (Some move_san, memory0))
  ∧ (get_best_move_from_memory memory0 key = Ok None → max_strength <= 0 →
     find_winning_move play_as_white max_depth engine self_board now max_strength
       memory0 g
     = Ok (None, memory0)).
Proof.
  intros key. unfold find_winning_move. cbv zeta. fold key. split.
  - intros u san d -> Hw. cbn [mbind Py_bind]. unfold consult_memory.
    destruct (Nat.ltb_spec 0 (wins d)) as [_|]; [|lia].
    now destruct (recommended_strategy _).
  - intros -> Hb. cbn.
    replace (Z.to_nat max_strength) with 0%nat by lia. cbn [search_loop attempts].
    destruct (Z.ltb_spec 0 max_strength); [lia|]. reflexivity.
Qed.
End SearchMemoryFacts.

(** ** A search that cannot raise *)

Lemma bucket_of_record (m : Memory) key move_uci move_san result mc ti ts :
  bucket_of (record_move_result m key move_uci move_san result mc ti ts) key
  = bucket_set move_uci
      (update_record (default (fresh_record move_san)
                        (bucket_lookup move_uci (bucket_of m key)))
         result mc ti ts)
      (bucket_of m key).
Proof. unfold bucket_of, record_move_result. now rewrite lookup_insert_eq. Qed.

Lemma memory_get_bucket (m : Memory) (key u : string) :
  memory_get m key u
  = match bucket_lookup u (bucket_of m key) with
    | Some r => Ok r
    | None => Raise KeyError
    end.
Proof. unfold memory_get, bucket_of. now destruct (m !! key). Qed.

Lemma In_bucket_lookup (u : string) (r : MoveRecord) (b : Bucket) :
  In (u, r) b → is_Some (bucket_lookup u b).
Proof.
  induction b as [|[k' r'] b IH]; simpl; [tauto|].
  intros [[= -> ->]|Hin].
  - rewrite String.eqb_refl. now eexists.
  - destruct (String.eqb u k'); [now eexists|now apply IH].
Qed.

Lemma bucket_set_lookup_some (u k : string) (r : MoveRecord) (b : Bucket) :
  is_Some (bucket_lookup u b) → is_Some (bucket_lookup u (bucket_set k r b)).
Proof.
  intros Hu. destruct (decide (u = k)) as [->|Hne].
  - rewrite bucket_lookup_set. now eexists.
  - now rewrite bucket_lookup_set_ne.
Qed.

Lemma score_keys_defined (l : Bucket) :
  Forall (fun kr => mins_ok kr.2) l → ∃ keyed, score_keys l = Ok keyed.
Proof.
  induction 1 as [|x l Hx _ [ks IH]]; cbn [score_keys]; [now eexists|].
  destruct (score_defined _ Hx) as [s ->]. cbn. rewrite IH. cbn. now eexists.
Qed.

Section SearchSafety.
Context {Board Move : Type} `{RulesEngine Board Move} `{EqDecision Move}.
Variable play_as_white : bool.
Variable max_depth : Z.
Variable engine : option (Board → option Move).
Variable self_board : Board.
Variable now : Z → string.
Variable max_strength : Z.

Hypothesis legal_moves_parse :
  ∀ move, In move (legal_moves self_board) → from_uci (uci move) = Some move.

Lemma bucket_sound_set (move : Move) (r : MoveRecord) (b : Bucket) :
  bucket_sound self_board b → mins_ok r → In move (legal_moves self_board) →
  bucket_sound self_board (bucket_set (uci move) r b).
Proof.
  intros [Hm Hu] Hr Hk. split.
  - now apply bucket_set_Forall.
  - rewrite bucket_set_keys. destruct (existsb _ _); [exact Hu|].
    apply Forall_app. split; [exact Hu|]. repeat constructor.
    exists move. split; [now apply legal_moves_parse|exact Hk].
Qed.

(** Choosing does not raise on a sound bucket, and the move chosen is
    legal. *)
Lemma choose_move_defined (st : SearchState) :
  bucket_sound self_board
    (bucket_of (memory st) (_get_position_key play_as_white self_board)) →
  ∃ choice,
    choose_move play_as_white self_board st = Ok choice
    ∧ ∀ move pm g, choice = Some (move, pm, g) → In move (legal_moves self_board).
Proof.
  intros [Hmins Hparse]. unfold choose_move. cbv zeta.
  destruct (get_untried_moves play_as_white self_board (memory st)) as [|u0 us] eqn:Eu.
  - assert (Hretry :
      ∃ choice,
        match memory st !! _get_position_key play_as_white self_board
              return Py (option (Move * list Move * Rng)) with
        | Some bucket =>
            match List.filter (fun x => should_retry_move x.2) bucket
                  return Py (option (Move * list Move * Rng)) with
            | [] => Ok None
            | _ :: _ =>
                keyed ← score_keys (List.filter (fun x => should_retry_move x.2) bucket);
                match sort_desc fst Qltb keyed with
                | (_, (move_uci, _)) :: _ =>
                    match from_uci move_uci with
                    | Some move => Ok (Some (move, priority_moves st, search_rng st))
                    | None => Raise ValueError
                    end
                | [] => Raise IndexError
                end
            end
        | None => Ok None
        end = Ok choice
        ∧ ∀ move pm g, choice = Some (move, pm, g) → In move (legal_moves self_board)).
    { unfold bucket_of in Hmins, Hparse.
      destruct (memory st !! _get_position_key play_as_white self_board) as [bucket|];
        [|exists None; split; [reflexivity|discriminate]].
      cbn [from_option id] in Hmins, Hparse.
      destruct (List.filter (fun x => should_retry_move x.2) bucket) as [|e es] eqn:Ee;
        [exists None; split; [reflexivity|discriminate]|].
      assert (Hsub : ∀ x, In x (e :: es) → In x bucket).
      { intros x Hx. rewrite <- Ee in Hx. now apply filter_In in Hx. }
      destruct (score_keys_defined (e :: es)) as [keyed Hk].
      { apply List.Forall_forall. intros x Hx. apply Hsub in Hx.
        rewrite List.Forall_forall in Hmins. now apply Hmins. }
      rewrite Hk. cbn [mbind Py_bind].
      destruct (score_keys_spec _ _ Hk) as [Hm _].
      pose proof (sort_desc_Q_perm fst keyed) as Hp.
      destruct (sort_desc fst Qltb keyed) as [|[k [u d]] rest].
      { apply Permutation_nil in Hp. subst keyed. discriminate Hm. }
      assert (Hin : In (u, d) bucket).
      { apply Hsub. rewrite <- Hm.
        apply (in_map snd) with (x := (k, (u, d))).
        apply (Permutation_in _ Hp). now left. }
      assert (Hu : ∃ mv, from_uci u = Some mv ∧ In mv (legal_moves self_board)).
      { rewrite List.Forall_forall in Hparse. apply Hparse.
        now apply (in_map fst) in Hin. }
      destruct Hu as (mv & Hmv & Hlegal). rewrite Hmv. eexists. split; [reflexivity|].
      now intros move pm g [= <- _ _]. }
    destruct (priority_moves st); exact Hretry.
  - assert (Hlegal : ∀ move, In move (u0 :: us) → In move (legal_moves self_board)).
    { intros move Hmv. rewrite <- Eu in Hmv. unfold get_untried_moves in Hmv.
      now apply filter_In in Hmv as [Hmv _]. }
    assert (Hrand : ∃ choice,
      (let '(move, g) := random_choice (search_rng st) u0 us in
       Ok (Some (move, priority_moves st, g))) = Ok choice
      ∧ ∀ move pm g, choice = Some (move, pm, g) → In move (legal_moves self_board)).
    { pose proof (random_choice_in (search_rng st) u0 us) as Hin.
      destruct (random_choice (search_rng st) u0 us) as [mv g']. cbn [fst] in Hin.
      eexists. split; [reflexivity|]. intros move pm g [= <- _ _]. now apply Hlegal. }
    destruct (priority_moves st) as [|p ps] eqn:Ep; [exact Hrand|].
    destruct (List.filter (fun m => bool_decide (m ∈ u0 :: us)) (p :: ps))
      as [|first rest] eqn:Ef; [exact Hrand|].
    eexists. split; [reflexivity|]. intros move pm g [= <- _ _].
    apply Hlegal.
    assert (Hf : In first (first :: rest)) by now left.
    rewrite <- Ef in Hf. apply filter_In in Hf as [_ Hf].
    apply bool_decide_eq_true in Hf. now apply list_elem_of_In.
Qed.

(** With a sound bucket and an assigned [best_draw] whose move, if any, is
    stored, the loop returns or falls through, and [best_draw] is still
    assigned when it falls through. *)
Lemma search_loop_defined (fuel : nat) (st : SearchState)
    (bd : option (string * string)) :
  let key := _get_position_key play_as_white self_board in
  (Z.to_nat (max_strength - attempts st) <= fuel)%nat →
  bucket_sound self_board (bucket_of (memory st) key) →
  best_draw st = Bound bd →
  (∀ move_san move_uci, bd = Some (move_san, move_uci) →
                        is_Some (bucket_lookup move_uci (bucket_of (memory st) key))) →
  ∃ exit,
    search_loop play_as_white max_depth engine self_board now max_strength fuel st
    = Ok exit
    ∧ match exit with
      | Returned _ _ => True
      | Fell st' => ∃ bd', best_draw st' = Bound bd'
      end.
Proof.
  intros key. revert st bd.
  induction fuel as [|fuel IH]; intros st bd Hfuel Hsound Hbd Hstored; cbn [search_loop].
  - destruct (Z.ltb_spec (attempts st) max_strength); [lia|].
    eexists. split; [reflexivity|]. now exists bd.
  - destruct (Z.ltb_spec (attempts st) max_strength) as [Hlt|Hge];
      [|eexists; split; [reflexivity|now exists bd]].
    destruct (choose_move_defined st Hsound) as (choice & -> & Hparse).
    cbn [mbind Py_bind].
    destruct choice as [[[move pm] g]|];
      [|eexists; split; [reflexivity|now exists bd]].
    specialize (Hparse move pm g eq_refl).
    destruct (simulate_tactical_game play_as_white max_depth engine self_board move g)
      as [[[[res mc] ti] g']|] eqn:Hsim.
    2:{ destruct (simulate_tactical_game_total play_as_white max_depth engine self_board
                    move g) as (sim & _ & Hsome). congruence. }
    apply simulate_ply_positive in Hsim.
    fold key.
    set (memory' := record_move_result (memory st) key (uci move) (san self_board move)
                      res mc (Some ti) (now (attempts st + 1))).
    assert (Hbucket : bucket_of memory' key
                      = bucket_set (uci move)
                          (update_record
                             (default (fresh_record (san self_board move))
                                (bucket_lookup (uci move) (bucket_of (memory st) key)))
                             res mc (Some ti) (now (attempts st + 1)))
                          (bucket_of (memory st) key)) by apply bucket_of_record.
    assert (Hsound' : bucket_sound self_board (bucket_of memory' key)).
    { rewrite Hbucket. apply bucket_sound_set; [exact Hsound| |exact Hparse].
      apply update_record_mins_ok; [exact Hsim|].
      destruct (bucket_lookup (uci move) (bucket_of (memory st) key)) as [r|] eqn:Er;
        cbn [from_option id]; [|now split].
      destruct Hsound as [Hmins _].
      destruct (bucket_lookup_Forall _ _ _ _ Hmins Er) as [k' Hk']. exact Hk'. }
    assert (Hnew : ∃ r, bucket_lookup (uci move) (bucket_of memory' key) = Some r)
      by (rewrite Hbucket, bucket_lookup_set; now eexists).
    assert (Hkeep : ∀ u, is_Some (bucket_lookup u (bucket_of (memory st) key)) →
                         is_Some (bucket_lookup u (bucket_of memory' key)))
      by (intros u Hu; rewrite Hbucket; now apply bucket_set_lookup_some).
    destruct Hnew as [rnew Hnew].
    destruct (String.eqb res "WIN").
    + rewrite memory_get_bucket, Hnew. cbn. eexists. split; [reflexivity|exact I].
    + assert (Htrack : ∃ bd',
        (if String.eqb res "DRAW"
         then track_best_draw play_as_white self_board memory' (best_draw st)
                (san self_board move) (uci move)
         else Ok (best_draw st)) = Ok (Bound bd')
        ∧ ∀ move_san move_uci, bd' = Some (move_san, move_uci) →
            is_Some (bucket_lookup move_uci (bucket_of memory' key))).
      { rewrite Hbd. destruct (String.eqb res "DRAW").
        - unfold track_best_draw. cbv zeta. cbn [read_local mbind Py_bind]. fold key.
          destruct bd as [[bs bu]|].
          + rewrite !memory_get_bucket, Hnew. cbn [mbind Py_bind].
            destruct (Hkeep bu (Hstored bs bu eq_refl)) as [rb Hrb]. rewrite Hrb.
            cbn [mbind Py_bind].
            destruct (total_material_gained rb <? total_material_gained rnew).
            * eexists. split; [reflexivity|]. intros s u [= <- <-].
              rewrite Hnew. now eexists.
            * eexists. split; [reflexivity|]. intros s u [= <- <-].
              rewrite Hrb. now eexists.
          + eexists. split; [reflexivity|]. intros s u [= <- <-].
            rewrite Hnew. now eexists.
        - exists bd. split; [reflexivity|]. intros s u E. apply Hkeep. eauto. }
      destruct Htrack as (bd' & -> & Hstored'). cbn [mbind Py_bind].
      apply (IH _ bd'); cbn [attempts memory best_draw];
        [lia|exact Hsound'|reflexivity|exact Hstored'].
Qed.

(** X24. When the search cannot raise. Let the records remembered for the
    position have minima of at least 1 and the ids of legal moves of the
    position, let [from_uci] give back every legal move from its id, and
    let the remembered best move, if there is one, have a win, or have a
    draw while the strategy is neither [defend] nor [counter_attack]. Then
    the search of [find_winning_move] (its console output apart) returns:
    no division by zero, no missing key, no unparsable id, no empty ranking
    and no unassigned local stops it. *)
Theorem search_returns (memory0 : Memory) (g : Rng) :
  let key := _get_position_key play_as_white self_board in
  let strategy :=
    recommended_strategy (analyze_position_before_move play_as_white self_board) in
  bucket_sound self_board (bucket_of memory0 key) →
  (∀ move_uci move_san move_data,
     get_best_move_from_memory memory0 key = Ok (Some (move_uci, move_san, move_data)) →
     (0 < wins move_data)%nat
     ∨ ((0 < draws move_data)%nat ∧ strategy ≠ s_defend ∧ strategy ≠ s_counter_attack)) →
  ∃ value memory',
    find_winning_move play_as_white max_depth engine self_board now max_strength memory0 g
    = Ok (value, memory').
Proof.
  intros key strategy Hsound Hbest. unfold find_winning_move. cbv zeta.
  fold key strategy.
  assert (Hdef : ∃ best, get_best_move_from_memory memory0 key = Ok best
                         ∧ ∀ u s d, best = Some (u, s, d) →
                                    is_Some (bucket_lookup u (bucket_of memory0 key))).
  { unfold get_best_move_from_memory, bucket_of in *.
    destruct (memory0 !! key) as [[|x b]|];
      [exists None; split; [reflexivity|discriminate]| |
       exists None; split; [reflexivity|discriminate]].
    cbn [from_option id] in Hsound. destruct Hsound as [Hmins _].
    destruct (best_move_loop_defined (x :: b) None (-1)%Q) as [best Hb].
    { apply List.Forall_forall. intros kr Hkr. apply score_defined.
      rewrite List.Forall_forall in Hmins. now apply Hmins. }
    exists best. split; [exact Hb|]. intros u s d ->.
    destruct (best_move_loop_spec _ _ _ _ Hb)
      as [[[=] _]|(u' & d' & s' & [= -> -> ->] & Hin & _)].
    cbn [from_option id]. now apply (In_bucket_lookup _ d'). }
  destruct Hdef as (best & Hget & Hstored). rewrite Hget. cbn [mbind Py_bind].
  specialize (Hbest) as Hb.
  assert (Hconsult :
    (∃ san, consult_memory strategy best = inl san)
    ∨ ∃ bd, consult_memory strategy best = inr (Bound bd)
            ∧ ∀ s u, bd = Some (s, u) →
                     is_Some (bucket_lookup u (bucket_of memory0 key))).
  { unfold consult_memory. destruct best as [[[u s] d]|].
    - specialize (Hstored u s d eq_refl).
      destruct (Hb u s d Hget) as [Hw|(Hd & Hs1 & Hs2)].
      + left. exists s. destruct (Nat.ltb_spec 0 (wins d)); [|lia]. now destruct strategy.
      + destruct (Nat.ltb_spec 0 (wins d)); [left; exists s; now destruct strategy|].
        right. exists (Some (s, u)).
        destruct (Nat.ltb_spec 0 (draws d)); [|lia].
        split; [destruct strategy; congruence|]. now intros s' u' [= <- <-].
    - right. exists None. split; [reflexivity|discriminate]. }
  destruct Hconsult as [[san ->]|(bd & -> & Hbd)]; [now eexists _, _|].
  destruct (search_loop_defined (Z.to_nat max_strength)
              {| attempts := 0;
                 priority_moves :=
                   initial_priority_moves
                     (analyze_position_before_move play_as_white self_board);
                 best_draw := Bound bd; memory := memory0; search_rng := g |} bd)
    as (exit & -> & Hexit); cbn [attempts memory best_draw];
    [lia|exact Hsound|reflexivity|exact Hbd|].
  cbn [mbind Py_bind]. destruct exit as [san mem|st]; [now eexists _, _|].
  destruct Hexit as [bd' ->]. cbn [read_local mbind Py_bind].
  destruct bd' as [[s u]|]; now eexists _, _.
Qed.
End SearchSafety.

(** ** What a returned move rests on *)

Lemma bucket_lookup_In (u : string) (r : MoveRecord) (b : Bucket) :
  bucket_lookup u b = Some r → In (u, r) b.
Proof.
  induction b as [|[k' r'] b IH]; simpl; [discriminate|].
  destruct (String.eqb_spec u k') as [->|_]; [intros [= ->]; now left|].
  intros Hl. right. now apply IH.
Qed.

(** Writing [f] of the record found under [k] keeps every entry, or puts
    [f] of it in its place. *)
Lemma bucket_set_In (f : MoveRecord → MoveRecord) (d0 : MoveRecord) (k u : string)
    (r : MoveRecord) (b : Bucket) :
  In (u, r) b →
  In (u, r) (bucket_set k (f (default d0 (bucket_lookup k b))) b)
  ∨ In (u, f r) (bucket_set k (f (default d0 (bucket_lookup k b))) b).
Proof.
  induction b as [|[k' r'] b IH]; simpl; [tauto|].
  destruct (String.eqb k k') eqn:E; cbn [from_option id].
  - intros [[= -> ->]|Hin]; [right; now left|left; now right].
  - intros [[= -> ->]|Hin]; [left; now left|].
    destruct (IH Hin) as [Hi|Hi]; [left|right]; now right.
Qed.

Lemma update_record_evidence (r : MoveRecord) result mc ti ts :
  (wins r <= wins (update_record r result mc ti ts))%nat
  ∧ (draws r <= draws (update_record r result mc ti ts))%nat
  ∧ (result = "WIN" → (0 < wins (update_record r result mc ti ts))%nat)
  ∧ (result = "DRAW" → (0 < draws (update_record r result mc ti ts))%nat).
Proof.
  pose proof (update_record_counters r result mc ti ts) as Hc. unfold counters in Hc.
  revert Hc.
  destruct (String.eqb_spec result "WIN") as [Ew|Ew];
    [|destruct (String.eqb_spec result "DRAW") as [Ed|Ed]];
    intros [= -> -> _]; repeat split; try lia; intros E; try lia; congruence.
Qed.

Section SearchEvidence.
Context {Board Move : Type} `{RulesEngine Board Move} `{EqDecision Move}.
Variable play_as_white : bool.
Variable max_depth : Z.
Variable engine : option (Board → option Move).
Variable self_board : Board.
Variable now : Z → string.
Variable max_strength : Z.

Lemma backed_in_record (b : Bucket) (s u k san result : string) mc ti ts :
  backed_in self_board b s u →
  backed_in self_board
    (bucket_set k (update_record (default (fresh_record san) (bucket_lookup k b))
                     result mc ti ts) b) s u.
Proof.
  intros (r & Hin & Hr & Hs).
  destruct (bucket_set_In (fun r0 => update_record r0 result mc ti ts)
              (fresh_record san) k u r b Hin) as [Hi|Hi].
  - now exists r.
  - eexists. split; [exact Hi|].
    destruct (update_record_evidence r result mc ti ts) as (Hw & Hd & _).
    split; [lia|]. now rewrite update_record_san.
Qed.

Lemma search_loop_backed (fuel : nat) (st : SearchState) (exit : SearchExit) :
  let key := _get_position_key play_as_white self_board in
  (∀ bs bu, best_draw st = Bound (Some (bs, bu)) →
            backed_in self_board (bucket_of (memory st) key) bs bu) →
  search_loop play_as_white max_depth engine self_board now max_strength fuel st
  = Ok exit →
  match exit with
  | Returned move_san mem =>
      ∃ move_uci, backed_in self_board (bucket_of mem key) move_san move_uci
  | Fell st' =>
      ∀ bs bu, best_draw st' = Bound (Some (bs, bu)) →
               backed_in self_board (bucket_of (memory st') key) bs bu
  end.
Proof.
  intros key. revert st.
  induction fuel as [|fuel IH]; intros st Hbd; cbn [search_loop].
  - destruct (attempts st <? max_strength); [discriminate|]. now intros [= <-].
  - destruct (attempts st <? max_strength); [|now intros [= <-]].
    destruct (choose_move play_as_white self_board st) as [[[[move pm] g]|]| |];
      cbn [mbind Py_bind]; try discriminate; [|now intros [= <-]].
    destruct (simulate_tactical_game play_as_white max_depth engine self_board move g)
      as [[[[res mc] ti] g']|]; [|discriminate].
    fold key.
    set (memory' := record_move_result (memory st) key (uci move) (san self_board move)
                      res mc (Some ti) (now (attempts st + 1))).
    assert (Hbucket : bucket_of memory' key
                      = bucket_set (uci move)
                          (update_record
                             (default (fresh_record (san self_board move))
                                (bucket_lookup (uci move) (bucket_of (memory st) key)))
                             res mc (Some ti) (now (attempts st + 1)))
                          (bucket_of (memory st) key)) by apply bucket_of_record.
    assert (Hnew : res = "WIN" ∨ res = "DRAW" →
                   backed_in self_board (bucket_of memory' key)
                     (san self_board move) (uci move)).
    { intros Hres. rewrite Hbucket. eexists. split; [|split].
      - apply bucket_lookup_In, bucket_lookup_set.
      - destruct (update_record_evidence
                    (default (fresh_record (san self_board move))
                       (bucket_lookup (uci move) (bucket_of (memory st) key)))
                    res mc (Some ti) (now (attempts st + 1))) as (_ & _ & Hw & Hd).
        destruct Hres as [E|E]; [specialize (Hw E)|specialize (Hd E)]; lia.
      - right. now exists move. }
    assert (Hkeep : ∀ s u, backed_in self_board (bucket_of (memory st) key) s u →
                           backed_in self_board (bucket_of memory' key) s u)
      by (intros s u Hu; rewrite Hbucket; now apply backed_in_record).
    destruct (String.eqb_spec res "WIN") as [Ew|_].
    + destruct (memory_get memory' key (uci move)); cbn [mbind Py_bind]; try discriminate.
      intros [= <-]. exists (uci move). apply Hnew. now left.
    + destruct (String.eqb_spec res "DRAW") as [Ed|_].
      * unfold track_best_draw. cbv zeta. fold key.
        destruct (best_draw st) as [|[[bs bu]|]] eqn:Eb; cbn [read_local mbind Py_bind];
          try discriminate.
        -- destruct (memory_get memory' key (uci move)) as [cd| |];
             cbn [mbind Py_bind]; try discriminate.
           destruct (memory_get memory' key bu) as [bd0| |];
             cbn [mbind Py_bind]; try discriminate.
           destruct (total_material_gained bd0 <? total_material_gained cd);
             cbn [mbind Py_bind]; intros Hloop; apply IH in Hloop; try exact Hloop;
             cbn [best_draw memory]; intros s u [= <- <-].
           ++ apply Hnew. now right.
           ++ apply Hkeep. exact (Hbd bs bu eq_refl).
        -- intros Hloop. apply IH in Hloop; [exact Hloop|].
           cbn [best_draw memory]. intros s u [= <- <-]. apply Hnew. now right.
      * cbn [mbind Py_bind]. intros Hloop. apply IH in Hloop; [exact Hloop|].
        cbn [best_draw memory]. intros s u Eb. apply Hkeep. now apply Hbd.
Qed.

(** X25. A move is returned on evidence only. Whenever [find_winning_move]
    returns a notation, the memory it leaves holds, under the position's
    key, a record of the returned move with at least one win or one draw:
    either the record carries the returned notation (the remembered best
    move, returned at once or kept as best draw), or it is kept under the
    id of a move whose notation on the board is the one returned (the move
    whose simulation was won, or the best draw found by the search). *)
Theorem returned_move_is_backed (memory0 : Memory) (g : Rng) (move_san : string)
    (memory' : Memory) :
  find_winning_move play_as_white max_depth engine self_board now max_strength memory0 g
  = Ok (Some move_san, memory') →
  ∃ move_uci r,
    In (move_uci, r) (bucket_of memory' (_get_position_key play_as_white self_board))
    ∧ (0 < wins r + draws r)%nat
    ∧ (rec_san r = move_san
       ∨ ∃ move, uci move = move_uci ∧ san self_board move = move_san).
Proof.
  unfold find_winning_move. cbv zeta.
  set (key := _get_position_key play_as_white self_board).
  destruct (get_best_move_from_memory memory0 key) as [best| |] eqn:Hget;
    cbn [mbind Py_bind]; try discriminate.
  assert (Hbest : ∀ u s d, best = Some (u, s, d) →
                           In (u, d) (bucket_of memory0 key) ∧ s = rec_san d).
  { intros u s d ->. unfold get_best_move_from_memory in Hget. unfold bucket_of.
    destruct (memory0 !! key) as [[|x b]|]; try discriminate.
    destruct (best_move_loop_spec _ _ _ _ Hget)
      as [[[=] _]|(u' & d' & s' & [= -> -> ->] & Hin & _)]. now split. }
  assert (Hback : ∀ move_uci, backed_in self_board (bucket_of memory' key) move_san move_uci →
            ∃ u r, In (u, r) (bucket_of memory' key) ∧ (0 < wins r + draws r)%nat
                   ∧ (rec_san r = move_san
                      ∨ ∃ move, uci move = u ∧ san self_board move = move_san)).
  { intros u (r & Hin & Hr & Hs). now exists u, r. }
  assert (Hloop : ∀ bd,
    (∀ bs bu, bd = Bound (Some (bs, bu)) →
              backed_in self_board (bucket_of memory0 key) bs bu) →
    (exit ← search_loop play_as_white max_depth engine self_board now max_strength
              (Z.to_nat max_strength)
              {| attempts := 0;
                 priority_moves :=
                   initial_priority_moves
                     (analyze_position_before_move play_as_white self_board);
                 best_draw := bd; memory := memory0; search_rng := g |};
     match exit with
     | Returned move_san0 memory'0 => Ok (Some move_san0, memory'0)
     | Fell st =>
         bd0 ← read_local (best_draw st);
         match bd0 with
         | Some (move_san0, _) => Ok (Some move_san0, memory st)
         | None => Ok (None, memory st)
         end
     end) = Ok (Some move_san, memory') →
    ∃ u r, In (u, r) (bucket_of memory' key) ∧ (0 < wins r + draws r)%nat
           ∧ (rec_san r = move_san
              ∨ ∃ move, uci move = u ∧ san self_board move = move_san)).
  { intros bd Hbd.
    match goal with
    | |- context [search_loop ?a ?b ?c ?d ?e ?f ?n ?st] =>
        destruct (search_loop a b c d e f n st) as [exit| |] eqn:Hl
    end; cbn [mbind Py_bind]; try discriminate.
    apply search_loop_backed in Hl; [|exact Hbd]. fold key in Hl.
    destruct exit as [san mem|st].
    - intros [= <- <-]. destruct Hl as [mu Hmu]. now apply (Hback mu).
    - destruct (best_draw st) as [|[[bs bu]|]] eqn:Eb; cbn [read_local mbind Py_bind];
        try discriminate.
      intros [= <- <-]. apply (Hback bu). exact (Hl bs bu eq_refl). }
  unfold consult_memory.
  destruct best as [[[u s] d]|].
  - destruct (Hbest u s d eq_refl) as [Hin ->].
    assert (Hwin : (0 < wins d)%nat →
              Ok (Some (rec_san d), memory0) = Ok (Some move_san, memory') →
              ∃ u r, In (u, r) (bucket_of memory' key) ∧ (0 < wins r + draws r)%nat
                     ∧ (rec_san r = move_san
                        ∨ ∃ move, uci move = u ∧ san self_board move = move_san)).
    { intros Hw [= <- <-]. exists u, d. split; [exact Hin|]. split; [lia|now left]. }
    destruct (Nat.ltb_spec 0 (wins d)) as [Hw|Hw].
    + destruct (recommended_strategy _); now apply Hwin.
    + destruct (Nat.ltb_spec 0 (draws d)) as [Hd|Hd];
        destruct (recommended_strategy _); apply Hloop; try discriminate;
        intros bs bu [= <- <-]; exists d; (split; [exact Hin|]);
        (split; [lia|now left]).
  - apply Hloop. discriminate.
Qed.
End SearchEvidence.

(** ** The fragment's position *)

Import PyChessFragment.

Example fragment_position_key :
  _get_position_key true root = fragment_key.
Proof. vm_compute. reflexivity. Qed.

Example fragment_first_draw (now : Z → string) (g : Rng) :
  fst <$> (match find_winning_move true 1 None root now 1 ∅ g with
           | Ok out => Some out
           | _ => None
           end)
  = Some (Some "Kf2").
Proof. vm_compute. reflexivity. Qed.

(** In the fragment's position the two ranked entries are the check and the
    capture by [Bxe8+], in that order. *)
Lemma attack_ranking_tiers_witness :
  ¬ (result {| moves := [Bxe8]; result := r_check; depth := 1; material_gain := 500 |}
     = r_capture
     ∧ result {| moves := [Bxe8]; result := r_capture; depth := 1; material_gain := 500 |}
       = r_check).
Proof.
  refine (proj1 (proj2 (attack_ranking_tiers root 0 1
    {| moves := [Bxe8]; result := r_check; depth := 1; material_gain := 500 |}
    {| moves := [Bxe8]; result := r_capture; depth := 1; material_gain := 500 |}
    _ _ _))).
  - vm_compute. reflexivity.
  - vm_compute. reflexivity.
  - lia.
Defined.

(** C5, as stated, fails in the fragment's position: the legal move
    [Bxe8+] takes the rook and gives check without mating, and the returned
    list holds two entries for it, a check and a capture. *)
Lemma attack_entries_counterexample :
  In Bxe8 (legal_moves root)
  ∧ is_checkmate (push root Bxe8) = false
  ∧ map (fun s => (moves s, result s)) (calculate_attack_sequences root)
    = [([Bxe8], r_check); ([Bxe8], r_capture)].
Proof. vm_compute. intuition. Qed.

(** C6, in the fragment's position. White, the learner, is to move and in
    check from the rook on e8. [Bxe8+] is legal and afterwards no black
    piece attacks the white king, yet its entry says [removes_check = False]
    and its priority is 1500, below the 11000 of each king move: the code
    asks [is_check()] of the position after the move, where it is Black who
    is in check. *)
Theorem removes_check_misses_checking_reply :
  turn root = WHITE
  ∧ is_check root = true
  ∧ In Bxe8 (legal_moves root)
  ∧ (king (push root Bxe8) WHITE ≫= fun k => Some (is_attacked_by (push root Bxe8) BLACK k))
    = Some false
  ∧ is_check (push root Bxe8) = true
  ∧ removes_check (defense_entry true root Bxe8) = false
  ∧ map (fun d => (d_move d, removes_check d, defense_priority d))
        (calculate_defense_sequences true root)
    = [(Kf2, true, 11000); (Kd2, true, 11000); (Kf1, true, 11000);
       (Kd1, true, 11000); (Bxe8, false, 1500)].
Proof. vm_compute. intuition. Qed.

(** White plays [Kf2] with a cap of three plies and an engine that fails at
    every query. *)
Lemma simulate_terminates_within_cap_witness :
  ∃ res mc ti g',
    simulate_tactical_game true 3 (Some (fun _ => None)) root Kf2 [2; 7]%nat
    = Some (res, mc, ti, g')
    ∧ 1 <= mc <= 3.
Proof.
  refine (proj2 (simulate_terminates_within_cap true 3 (Some (fun _ => None)) root
                   Kf2 [2; 7]%nat 2 _ _)).
  - lia.
  - simpl. lia.
Defined.

(** White plays [Kf2] with a cap of one ply: the loop does not run, the
    position is not mate, the outcome is a draw. *)
Lemma simulation_outcome_witness :
  ∃ st res ti,
    sim_final true 1 None root 1 Kf2 [] = Some st
    ∧ simulate_tactical_game true 1 None root Kf2 [] = Some (res, move_count st, ti, sim_rng st)
    ∧ res = "DRAW".
Proof.
  destruct (simulation_outcome true 1 None root Kf2 [])
    as (st & res & ti & Hst & Hrun & _ & _ & _ & _ & Hdraw & _).
  exists st, res, ti. split; [exact Hst|]. split; [exact Hrun|].
  apply Hdraw. reflexivity.
Defined.

(** C2, in the fragment's position with [Kd1] tried once and lost: White
    plays as itself, depth cap 1, attempt budget 1. The memory has a best
    move without a win, the strategy is to defend, so [best_draw] is never
    assigned; the first attempt ([Kf2], a priority move) is a draw, and the
    test [if not best_draw] raises [UnboundLocalError]. With a budget of 0
    the loop is skipped and the final [if best_draw] raises the same. The
    outcome does not depend on the clock or on the random draws. *)
Theorem search_raises_unbound_local (now : Z → string) (g : Rng) :
  _get_position_key true root = fragment_key
  ∧ match get_best_move_from_memory (replay [plain_loss]) fragment_key with
    | Ok (Some (move_uci, _, move_data)) =>
        Some (move_uci, wins move_data, draws move_data)
    | _ => None
    end = Some ("e1d1", 0%nat, 0%nat)
  ∧ recommended_strategy (analyze_position_before_move true root) = s_defend
  ∧ find_winning_move true 1 None root now 1 (replay [plain_loss]) g
    = Raise UnboundLocalError
  ∧ find_winning_move true 1 None root now 0 (replay [plain_loss]) g
    = Raise UnboundLocalError.
Proof. vm_compute. intuition. Qed.

(** ** The further properties in the fragments' positions *)

(** The key of the fragment's position depends on the learner's color, and
    not on the counters [0 1] that end its FEN. *)
Lemma position_key_identity_witness :
  spaces "4r3/p7/8/7k/B7/8/8/4K3 w - -" = 3%nat
  ∧ _get_position_key true root ≠ _get_position_key false root
  ∧ _get_position_key true root = _get_position_key true root.
Proof.
  destruct (position_key_identity true false root root) as [Hiff _].
  destruct (position_key_identity true true root root) as [_ Hcut].
  split; [reflexivity|]. split.
  - intros Heq. apply Hiff in Heq as [Hc _]. discriminate Hc.
  - apply (Hcut "4r3/p7/8/7k/B7/8/8/4K3 w - -" "0 1" "0 1"); reflexivity.
Defined.

(** In the fragment's position the rook on e8 attacks the king on e1; on
    an empty board there is no king and nothing is reported. *)
Lemma detect_immediate_threats_exact_witness :
  king root (our_color true) = Some e1
  ∧ threatens true root e1 e8 {| piece_type := ROOK; color := BLACK |}
  ∧ In {| threat_piece := ROOK; threat_square := "e8"; threat_target := "e1" |}
       (detect_immediate_threats true root)
  ∧ detect_immediate_threats true {| placed := []; to_move := WHITE |} = [].
Proof.
  assert (Hk : king root (our_color true) = Some e1) by (vm_compute; reflexivity).
  assert (Ht : threatens true root e1 e8 {| piece_type := ROOK; color := BLACK |}).
  { unfold threatens. split; [unfold e8; lia|]. split; [vm_compute; reflexivity|].
    split; [vm_compute; discriminate|]. vm_compute. tauto. }
  split; [exact Hk|]. split; [exact Ht|]. split.
  - destruct (detect_immediate_threats_exact true root) as (_ & Hsome & _).
    destruct (Hsome e1 Hk) as [Hmem _]. apply Hmem.
    exists e8, {| piece_type := ROOK; color := BLACK |}. split; [exact Ht|reflexivity].
  - apply (detect_immediate_threats_exact true {| placed := []; to_move := WHITE |}).
    vm_compute. reflexivity.
Defined.

(** In the fragment's position White is in check and the analysis says
    [defend]; after [Kf2] nobody is in danger, the table holds no move and
    the analysis says [positional]. *)
Lemma strategy_by_danger_witness :
  is_check root || Nat.ltb 0 (length (detect_immediate_threats true root)) = true
  ∧ In (recommended_strategy (analyze_position_before_move true root))
       [s_attack; s_defend; s_counter_attack]
  ∧ recommended_strategy (analyze_position_before_move true root) ≠ s_counter_attack
  ∧ is_check (push root Kf2)
    || Nat.ltb 0 (length (detect_immediate_threats true (push root Kf2))) = false
  ∧ legal_moves (push root Kf2) = []
  ∧ In (recommended_strategy (analyze_position_before_move true (push root Kf2)))
       [s_checkmate; s_attack; s_capture; s_positional]
  ∧ calculate_attack_sequences (push root Kf2) = [].
Proof.
  assert (Hd : is_check root || Nat.ltb 0 (length (detect_immediate_threats true root))
               = true) by (vm_compute; reflexivity).
  assert (Hq : is_check (push root Kf2)
               || Nat.ltb 0 (length (detect_immediate_threats true (push root Kf2)))
               = false) by (vm_compute; reflexivity).
  assert (Hl : legal_moves (push root Kf2) = []) by (vm_compute; reflexivity).
  destruct (strategy_by_danger true root) as (_ & _ & Hin & _).
  destruct (strategy_by_danger true (push root Kf2)) as (_ & _ & _ & Hout & Hnone).
  destruct (Hin Hd) as [Hs Hc].
  split; [exact Hd|]. split; [exact Hs|].
  split; [intros E; apply Hc in E; discriminate E|].
  split; [exact Hq|]. split; [exact Hl|].
  split; [exact (proj1 (Hout Hq))|exact (proj1 (Hnone Hl))].
Defined.

(** White plays [Kf2] with a cap of one ply. *)
Lemma simulate_without_replies_witness :
  1 <= 1
  ∧ simulate_tactical_game true 1 None root Kf2 [3; 1]%nat
    = Some ("DRAW", 1, initial_tactical_info, [3; 1]%nat).
Proof.
  split; [lia|].
  exact (simulate_without_replies true 1 None root Kf2 [3; 1]%nat ltac:(lia)).
Defined.

(** Black, the learner, plays [Re8+]; the engine answers [Bxe8+], a
    capture with check, and Black has no move in the table: two plies, one
    capture, one check. *)
Lemma trace_within_plies_witness :
  ∃ ti,
    simulate_tactical_game false 200 capturing_engine before_check Re8 []
    = Some ("DRAW", 2, ti, [])
    ∧ length (captures_by_opponent ti) = 1%nat ∧ checks_received ti = 1%nat
    ∧ Z.of_nat (length (captures_by_us ti) + length (captures_by_opponent ti)) <= 2 - 1
    ∧ Z.of_nat (checks_given ti + checks_received ti) <= 2 - 1.
Proof.
  eexists.
  assert (Hrun : simulate_tactical_game false 200 capturing_engine before_check Re8 []
                 = Some ("DRAW", 2,
                         {| captures_by_us := [];
                            captures_by_opponent :=
                              [{| cap_move := "Bxe8+"; cap_value := 500 |}];
                            material_balance_change := -500;
                            checks_given := 0; checks_received := 1 |}, []))
    by (vm_compute; reflexivity).
  split; [exact Hrun|]. split; [reflexivity|]. split; [reflexivity|].
  exact (trace_within_plies false 200 capturing_engine before_check Re8 [] _ _ _ _ Hrun).
Defined.

(** The same game without an engine, the random reply being [Bxe8+]: the
    rook is gone, the trace is empty. *)
Lemma silent_engine_leaves_no_trace_witness :
  engine_silent (None : option (FBoard → option FMove))
  ∧ ∃ ti,
      simulate_tactical_game false 200 None before_check Re8 [4]%nat
      = Some ("DRAW", 2, ti, [])
      ∧ material_balance_change ti = -500
      ∧ captures_by_opponent ti = [] ∧ checks_received ti = 0%nat.
Proof.
  split; [exact I|]. eexists.
  assert (Hrun : simulate_tactical_game false 200 None before_check Re8 [4]%nat
                 = Some ("DRAW", 2,
                         {| captures_by_us := []; captures_by_opponent := [];
                            material_balance_change := -500;
                            checks_given := 0; checks_received := 0 |}, []))
    by (vm_compute; reflexivity).
  split; [exact Hrun|]. split; [reflexivity|].
  exact (silent_engine_leaves_no_trace false 200 None before_check Re8 [4]%nat
           _ _ _ _ I Hrun).
Defined.

(** Black plays [Re8+] and the engine takes the rook: one legal move
    after the first. *)
Lemma simulation_plays_legal_games_witness :
  engine_legal capturing_engine
  ∧ ∃ st,
      sim_final false 200 capturing_engine before_check 200 Re8 [] = Some st
      ∧ 1 <= move_count st
      ∧ plays (Z.to_nat (move_count st - 1)) (push before_check Re8) (sim_board st).
Proof.
  assert (Hlegal : engine_legal capturing_engine).
  { intros play board move [= <-] Hfind. apply find_some in Hfind. exact (proj1 Hfind). }
  split; [exact Hlegal|].
  destruct (sim_final false 200 capturing_engine before_check 200 Re8 []) as [st|] eqn:Hst;
    [|vm_compute in Hst; discriminate Hst].
  exists st. split; [reflexivity|].
  destruct (simulation_plays_legal_games false 200 capturing_engine before_check 200
              Re8 [] st Hlegal Hst) as (Hmc & Hplays & _).
  split; [exact Hmc|exact Hplays].
Defined.

(** In the fragment's position, with an empty memory and with [Kd1]
    tried. *)
Lemma untried_moves_exact_witness :
  (∅ : Memory) !! _get_position_key true root = None
  ∧ get_untried_moves true root ∅ = legal_moves root
  ∧ get_untried_moves true root
      (record_move_result ∅ (_get_position_key true root) "e1d1" "Kd1" "LOSS" 12 None "")
    = [Kf2; Kd2; Kf1; Bxe8].
Proof.
  destruct (untried_moves_exact true root ∅ "e1d1" "Kd1" "LOSS" 12 None "")
    as (_ & Hrec & Hall).
  split; [apply lookup_empty|]. split; [apply Hall, lookup_empty|].
  rewrite Hrec, (Hall (lookup_empty _)). reflexivity.
Defined.

(** [Kd1] was tried; of the priority moves [Kd1], [Bxe8] the second is
    picked and struck. *)
Lemma choose_move_prefers_untried_witness :
  get_untried_moves true root (replay [plain_loss]) ≠ []
  ∧ choose_move true root
      {| attempts := 0; priority_moves := [Kd1; Bxe8]; best_draw := Bound None;
         memory := replay [plain_loss]; search_rng := [5]%nat |}
    = Ok (Some (Bxe8, [Kd1], [5]%nat)).
Proof.
  assert (Hne : get_untried_moves true root (replay [plain_loss]) ≠ [])
    by (vm_compute; discriminate).
  split; [exact Hne|].
  destruct (choose_move_prefers_untried true root
              {| attempts := 0; priority_moves := [Kd1; Bxe8]; best_draw := Bound None;
                 memory := replay [plain_loss]; search_rng := [5]%nat |} Hne)
    as (move & pm & g' & Hrun & _ & Hpick).
  vm_compute in Hpick. destruct Hpick as (-> & -> & ->). exact Hrun.
Defined.

(** Every move was tried once; the capture drew and is retried. With
    three losses for every move nothing is eligible and the search stops. *)
Lemma choose_move_retries_best_witness :
  get_untried_moves true root all_tried = []
  ∧ (∃ move_uci data s,
       from_uci move_uci = Some Bxe8
       ∧ get_move_score data = Ok s
       ∧ Forall (fun kr => ∃ s', get_move_score kr.2 = Ok s' ∧ (s' <= s)%Q)
           (List.filter (fun x => should_retry_move x.2)
              (default [] (all_tried !! fragment_key))))
  ∧ get_untried_moves true root all_lost = []
  ∧ choose_move true root
      {| attempts := 0; priority_moves := [Kf2]; best_draw := Bound None;
         memory := all_lost; search_rng := [] |}
    = Ok None.
Proof.
  assert (Hu : get_untried_moves true root all_tried = []) by (vm_compute; reflexivity).
  assert (Hv : get_untried_moves true root all_lost = []) by (vm_compute; reflexivity).
  split; [exact Hu|]. split; [|split; [exact Hv|]].
  - destruct (choose_move_retries_best true root
                {| attempts := 0; priority_moves := []; best_draw := Bound None;
                   memory := all_tried; search_rng := [] |} Hu) as (_ & _ & Hpick).
    destruct (Hpick Bxe8 [] []) as (_ & _ & u & d & s & _ & Hf & Hs & Hall);
      [vm_compute; reflexivity|].
    exists u, d, s. split; [exact Hf|]. split; [exact Hs|exact Hall].
  - destruct (choose_move_retries_best true root
                {| attempts := 0; priority_moves := [Kf2]; best_draw := Bound None;
                   memory := all_lost; search_rng := [] |} Hv) as (Hstop & _).
    apply Hstop. vm_compute. reflexivity.
Defined.

(** One attempt on an empty memory records one game. *)
Lemma search_only_adds_witness :
  ∃ value memory',
    find_winning_move true 2 None root (fun _ => "t") 1 ∅ [0]%nat = Ok (value, memory')
    ∧ extends ∅ memory' ∧ store_ok memory'
    ∧ (games_at memory' (_get_position_key true root)
       <= games_at ∅ (_get_position_key true root) + Z.to_nat 1)%nat.
Proof.
  assert (Hok : match find_winning_move true 2 None root (fun _ => "t") 1 ∅ [0]%nat with
                | Ok _ => true
                | _ => false
                end = true) by (vm_compute; reflexivity).
  destruct (find_winning_move true 2 None root (fun _ => "t") 1 ∅ [0]%nat)
    as [[value memory']| |] eqn:Hrun; [|discriminate Hok..].
  exists value, memory'. split; [reflexivity|].
  destruct (search_only_adds true 2 None root (fun _ => "t") 1 ∅ [0]%nat value memory' Hrun)
    as (Hext & _ & Hok' & _ & Hgames).
  split; [exact Hext|]. split; [apply Hok', map_Forall_empty|exact Hgames].
Defined.

(** [Kf2] is known to win: it is returned without a game. *)
Lemma search_without_simulation_witness :
  find_winning_move true 200 None root (fun _ => "t") 1000 known_win []
  = Ok (Some "Kf2", known_win)
  ∧ find_winning_move true 200 None root (fun _ => "t") 0 ∅ [] = Ok (None, ∅).
Proof.
  destruct (search_without_simulation true 200 None root (fun _ => "t") 1000 known_win [])
    as [Hwin _].
  destruct (search_without_simulation true 200 None root (fun _ => "t") 0 ∅ [])
    as [_ Hnone].
  split.
  - eapply Hwin; [vm_compute; reflexivity|vm_compute; lia].
  - apply Hnone; [vm_compute; reflexivity|lia].
Defined.

Section MateWitness.
#[local] Existing Instance MateFragment.mate_engine | 0.

(** In the second fragment [Ra8#] mates; the ranking starts with it and the
    analysis says [checkmate]. *)
Lemma mating_move_ranked_first_witness :
  In MateFragment.Ra8 (legal_moves MateFragment.mate_root)
  ∧ is_checkmate (push MateFragment.mate_root MateFragment.Ra8) = true
  ∧ (∃ top rest mate,
       calculate_attack_sequences MateFragment.mate_root = top :: rest
       ∧ result top = r_checkmate ∧ sequence_priority top = 10000
       ∧ moves top = [mate] ∧ In mate (legal_moves MateFragment.mate_root)
       ∧ is_checkmate (push MateFragment.mate_root mate) = true)
  ∧ recommended_strategy (analyze_position_before_move true MateFragment.mate_root)
    = s_checkmate.
Proof.
  assert (Hin : In MateFragment.Ra8 (legal_moves MateFragment.mate_root))
    by (vm_compute; tauto).
  assert (Hmate : is_checkmate (push MateFragment.mate_root MateFragment.Ra8) = true)
    by (vm_compute; reflexivity).
  split; [exact Hin|]. split; [exact Hmate|].
  exact (mating_move_ranked_first true MateFragment.mate_root MateFragment.Ra8 Hin Hmate).
Defined.
End MateWitness.

(** Three attempts from an empty memory, two plies each. *)
Lemma search_returns_witness :
  bucket_sound root (bucket_of ∅ (_get_position_key true root))
  ∧ ∃ value memory',
      find_winning_move true 2 None root (fun _ => "t") 3 ∅ [1; 2; 3]%nat
      = Ok (value, memory').
Proof.
  assert (Hsound : bucket_sound root (bucket_of ∅ (_get_position_key true root)))
    by (split; constructor).
  split; [exact Hsound|].
  apply (search_returns true 2 None root (fun _ => "t") 3).
  - intros move Hin. vm_compute in Hin.
    destruct Hin as [<-|[<-|[<-|[<-|[<-|[]]]]]]; vm_compute; reflexivity.
  - exact Hsound.
  - intros move_uci move_san move_data Hbest. vm_compute in Hbest. discriminate Hbest.
Defined.

(** One attempt on an empty memory: [Kf2] draws and is returned. *)
Lemma returned_move_is_backed_witness :
  ∃ memory' move_uci r,
    find_winning_move true 2 None root (fun _ => "t") 1 ∅ [0]%nat
    = Ok (Some "Kf2", memory')
    ∧ In (move_uci, r) (bucket_of memory' (_get_position_key true root))
    ∧ (0 < wins r + draws r)%nat
    ∧ (rec_san r = "Kf2" ∨ ∃ move, uci move = move_uci ∧ san root move = "Kf2").
Proof.
  assert (Hok : match find_winning_move true 2 None root (fun _ => "t") 1 ∅ [0]%nat with
                | Ok (Some move_san, _) => String.eqb move_san "Kf2"
                | _ => false
                end = true) by (vm_compute; reflexivity).
  destruct (find_winning_move true 2 None root (fun _ => "t") 1 ∅ [0]%nat)
    as [[[move_san|] memory']| |] eqn:Hrun; try discriminate Hok.
  apply String.eqb_eq in Hok. subst move_san.
  destruct (returned_move_is_backed true 2 None root (fun _ => "t") 1 ∅ [0]%nat
              "Kf2" memory' Hrun) as (move_uci & r & Hin & Hr & Hs).
  exists memory', move_uci, r. split; [reflexivity|]. split; [exact Hin|].
  split; [exact Hr|exact Hs].
Defined.
